(** * Coffee-shop sales dashboard: the analytics behind [update_dashboard]

    A shallow embedding of [src/app.py].  The callback [update_dashboard]
    filters the global data frame [df] and computes, on the filtered rows,
    four KPIs, three revenue aggregates, a top-10 ranking of products and a
    table of association rules.  The embedding stops at the data handed to
    the figures and to the HTML table; the plotting calls are not part of it.

    The data-frame and mining primitives the callback relies on are embedded
    with the behaviour they have in pandas and mlxtend:
    - boolean indexing [df[mask]] keeps the rows whose mask entry is [True],
      in their positions' order;
    - [groupby(key)[col].sum()] yields one entry per distinct key, keys in
      ascending order; [reindex] looks labels up and leaves the missing ones
      undefined ([NaN]); [fillna(0)] replaces [NaN] by zero;
    - [pivot_table] takes its row and column labels from the values present;
    - [Series.sum()] skips [NaN]; [nunique()] counts distinct values;
    - [nlargest(n)] (keep='first') is the first [n] entries of the stable
      descending sort of the series;
    - [TransactionEncoder], [apriori] and [association_rules] follow
      mlxtend's algorithms: sorted item columns, level-wise candidate
      generation and support counting, the enumeration of the
      antecedent/consequent pairs of every frequent itemset, and the
      [ValueError] on an empty table of itemsets.

    Numbers.  The revenue columns are floating-point in the program.  The
    aggregation code is written once over a small interface of arithmetic
    operations and instantiated twice: with the rationals [Q] (exact
    arithmetic) and with binary64 floats.  The itemset table carries every
    support as the ratio [count / n] of two basket counts.  The rule
    generator is written once over the arithmetic of its figures and
    instantiated twice as well: the callback runs it in binary64, where a
    support is the rounded quotient of the two counts, confidence and lift
    are rounded quotients of supports, the lift is compared with the
    binary64 value of 1.2 and the displayed figures are rounded as [numpy]
    rounds; the instance over [Q] is the same code in exact arithmetic.
    The quantity column is [int64] and its sum wraps around.  The revenue
    aggregates of the callback are stated over [Q].

    A cell that pandas shows as [NaN] because no data is there is [None].

    Iteration over a frozenset.  The rule generator iterates over frozensets
    of product names.  The interpreter's iteration order for such a set
    follows the hashes of the strings, which are salted per process; the
    embedding takes this order as a parameter [iter_order]. *)

From Stdlib Require Import List Bool Arith ZArith QArith Qround Lia.
From Stdlib Require Import String Ascii Permutation Sorted OrderedTypeEx.
From Stdlib Require Import PrimFloat Uint63.
From Stdlib Require Import Qabs Lqa.
Import ListNotations.

Set Implicit Arguments.
#[local] Close Scope Q_scope.
#[local] Open Scope nat_scope.
#[local] Open Scope list_scope.

(* ================================================================== *)
(** * Arithmetic interface *)

Class Number (V : Type) : Type := {
  nzero : V;
  nadd : V -> V -> V;
  nmul : V -> V -> V;
  ndiv : V -> V -> V;
  of_int : Z -> V;
  nleb : V -> V -> bool
}.

(** Exact arithmetic: the rationals. *)
#[global] Instance Q_Number : Number Q := {|
  nzero := 0%Q;
  nadd := Qplus;
  nmul := Qmult;
  ndiv := Qdiv;
  of_int := inject_Z;
  nleb := Qle_bool
|}.

Definition float_of_Z (z : Z) : float :=
  match z with
  | Z0 => PrimFloat.zero
  | Zpos _ => PrimFloat.of_uint63 (Uint63.of_Z z)
  | Zneg p => PrimFloat.opp (PrimFloat.of_uint63 (Uint63.of_Z (Zpos p)))
  end.

(** IEEE 754 binary64, the program's [float64] columns. *)
#[global] Instance float_Number : Number float := {|
  nzero := PrimFloat.zero;
  nadd := PrimFloat.add;
  nmul := PrimFloat.mul;
  ndiv := PrimFloat.div;
  of_int := float_of_Z;
  nleb := PrimFloat.leb
|}.

(** The laws of exact arithmetic used by the proofs: addition is an
    Abelian monoid and the order is a total preorder. *)
Class ExactNumber (V : Type) {N : Number V} : Prop := {
  nadd_assoc : forall a b c : V, nadd a (nadd b c) = nadd (nadd a b) c;
  nadd_comm : forall a b : V, nadd a b = nadd b a;
  nadd_0_l : forall a : V, nadd nzero a = a;
  nleb_total : forall a b : V, nleb a b = true \/ nleb b a = true;
  nleb_trans : forall a b c : V,
      nleb a b = true -> nleb b c = true -> nleb a c = true
}.

Arguments ExactNumber V {N}.

(* ================================================================== *)
(** * Group keys *)

(** Keys of [groupby] and index labels: an equality test and the strict
    order pandas sorts the keys by. *)
Class Key (K : Type) : Type := {
  key_eqb : K -> K -> bool;
  key_ltb : K -> K -> bool
}.

Class KeyLaws (K : Type) {KK : Key K} : Prop := {
  key_eqb_spec : forall a b : K, key_eqb a b = true <-> a = b;
  key_ltb_irrefl : forall a : K, key_ltb a a = false;
  key_ltb_trans : forall a b c : K,
      key_ltb a b = true -> key_ltb b c = true -> key_ltb a c = true;
  key_ltb_total : forall a b : K,
      key_ltb a b = true \/ a = b \/ key_ltb b a = true
}.

Arguments KeyLaws K {KK}.

#[global] Instance string_Key : Key string := {|
  key_eqb := String.eqb;
  key_ltb := String.ltb
|}.

#[global] Instance Z_Key : Key Z := {|
  key_eqb := Z.eqb;
  key_ltb := Z.ltb
|}.

#[global] Instance nat_Key : Key nat := {|
  key_eqb := Nat.eqb;
  key_ltb := Nat.ltb
|}.

(** [dt.day_name()] returns one of seven names. *)
Inductive Weekday : Type :=
  Monday | Tuesday | Wednesday | Thursday | Friday | Saturday | Sunday.

Definition day_name (d : Weekday) : string :=
  match d with
  | Monday => "Monday"
  | Tuesday => "Tuesday"
  | Wednesday => "Wednesday"
  | Thursday => "Thursday"
  | Friday => "Friday"
  | Saturday => "Saturday"
  | Sunday => "Sunday"
  end%string.

(** The weekday column holds the names: labels compare as strings. *)
#[global] Instance Weekday_Key : Key Weekday := {|
  key_eqb := fun a b => String.eqb (day_name a) (day_name b);
  key_ltb := fun a b => String.ltb (day_name a) (day_name b)
|}.

Section Keys.
Context {K : Type} {KK : Key K}.

(** Insertion of a key into an ascending list without repetition. *)
Fixpoint insert_key (k : K) (l : list K) : list K :=
  match l with
  | [] => [k]
  | h :: t =>
      if key_ltb k h then k :: l
      else if key_eqb k h then l
      else h :: insert_key k t
  end.

(** The distinct keys of a column, ascending: the index of a
    [groupby] result, and [sorted(set(...))]. *)
Definition unique_sorted (ks : list K) : list K :=
  fold_right insert_key [] ks.

Definition mem (k : K) (l : list K) : bool := existsb (key_eqb k) l.

Definition key_lt (a b : K) : Prop := key_ltb a b = true.

(** First-occurrence de-duplication: [unique()] / the support of
    [nunique()]. *)
Fixpoint unique (l : list K) : list K :=
  match l with
  | [] => []
  | h :: t => h :: filter (fun x => negb (key_eqb x h)) (unique t)
  end.

(** Label lookup in an indexed series. *)
Fixpoint lookup {A : Type} (k : K) (s : list (K * A)) : option A :=
  match s with
  | [] => None
  | (k', a) :: t => if key_eqb k k' then Some a else lookup k t
  end.

(** [Series.reindex(labels)]: one entry per requested label, in the
    requested order; a label absent from the series gets [NaN]. *)
Definition reindex {A : Type} (labels : list K) (s : list (K * A))
  : list (K * option A) :=
  map (fun l => (l, lookup l s)) labels.
End Keys.

(* ================================================================== *)
(** * The data frame *)

Section Frame.
Context {V : Type} {N : Number V}.

(** One line of the sales file with the columns derived at load time
    ([heure], [jour_semaine], [mois]). *)
Record Row : Type := {
  transaction_id : Z;
  store_location : string;
  product_detail : string;
  transaction_qty : Z;
  unit_price : V;
  heure : Z;
  jour_semaine : Weekday;
  mois : string
}.

(** [df["CA"] = df["transaction_qty"] * df["unit_price"]] *)
Definition CA (r : Row) : V :=
  nmul (of_int (transaction_qty r)) (unit_price r).

(** [Series.isin(values)] on one entry. *)
Definition isin (x : string) (values : list string) : bool := mem x values.

(** The mask [df['store_location'].isin(..) & df['mois'].isin(..)]. *)
Definition selection_mask (df : list Row)
    (store_selection mois_selection : list string) : list bool :=
  map (fun r => isin (store_location r) store_selection
                && isin (mois r) mois_selection) df.

(** [df[mask]]: the rows at the positions where the mask is [True]. *)
Fixpoint boolean_index {A : Type} (df : list A) (mask : list bool)
  : list A :=
  match df, mask with
  | r :: df', b :: mask' =>
      if b then r :: boolean_index df' mask' else boolean_index df' mask'
  | _, _ => []
  end.

Definition df_filtered (df : list Row)
    (store_selection mois_selection : list string) : list Row :=
  boolean_index df (selection_mask df store_selection mois_selection).

(** ** Sums *)

(** Summation of a column, left to right from zero.  (numpy adds columns
    of fewer than eight entries in this order and longer ones pairwise;
    the grouped sums are compensated.  In exact arithmetic the order does
    not matter.) *)
Definition vsum (l : list V) : V := fold_left nadd l nzero.

Fixpoint dropna {A : Type} (l : list (option A)) : list A :=
  match l with
  | [] => []
  | Some a :: t => a :: dropna t
  | None :: t => dropna t
  end.

(** [Series.sum()]: [NaN] entries are skipped. *)
Definition series_sum (l : list (option V)) : V := vsum (dropna l).

(** ** KPIs *)

Definition total_ca (rows : list Row) : V :=
  series_sum (map (fun r => Some (CA r)) rows).

Definition nb_transac (rows : list Row) : Z :=
  Z.of_nat (List.length (unique (map transaction_id rows))).

(** The value of an [int64] computation: the result modulo [2^64], between
    [-2^63] and [2^63 - 1]. *)
Definition wrap_int64 (z : Z) : Z := ((z + 2 ^ 63) mod 2 ^ 64 - 2 ^ 63)%Z.

Definition add_int64 (a b : Z) : Z := wrap_int64 (a + b).

(** [df_filtered["transaction_qty"].sum()]: the column is [int64] and the
    sum wraps around. *)
Definition total_qty (rows : list Row) : Z :=
  fold_left add_int64 (map transaction_qty rows) 0%Z.

(** ** Grouped revenue *)

(** The revenue of the rows whose key is [k]. *)
Definition group_total {K : Type} {KK : Key K} (key : Row -> K)
    (rows : list Row) (k : K) : V :=
  vsum (map CA (filter (fun r => key_eqb (key r) k) rows)).

(** [rows.groupby(key)["CA"].sum()]: one entry per distinct key, the keys
    in ascending order. *)
Definition groupby_sum {K : Type} {KK : Key K} (key : Row -> K)
    (rows : list Row) : list (K * V) :=
  map (fun k => (k, group_total key rows k)) (unique_sorted (map key rows)).

Definition ca_mois (rows : list Row) : list (string * V) :=
  groupby_sum mois rows.

Definition jour_order : list Weekday :=
  [Monday; Tuesday; Wednesday; Thursday; Friday; Saturday; Sunday].

Definition ca_jour (rows : list Row) : list (Weekday * option V) :=
  reindex jour_order (groupby_sum jour_semaine rows).

(** ** Heat map *)

(** A two-dimensional table: row labels, column labels, cells. *)
Record Table : Type := {
  index : list Weekday;
  columns : list Z;
  cells : list (list (option V))
}.

(** One cell of the pivot: the revenue of the rows of that weekday and
    hour, [NaN] when there is none. *)
Definition pivot_cell (rows : list Row) (w : Weekday) (h : Z) : option V :=
  match filter (fun r => key_eqb (jour_semaine r) w && key_eqb (heure r) h)
               rows with
  | [] => None
  | g => Some (vsum (map CA g))
  end.

(** [pivot_table(index="jour_semaine", columns="heure", values="CA",
    aggfunc="sum")]: the labels are the values present in the rows. *)
Definition pivot_table (rows : list Row) : Table :=
  let idx := unique_sorted (map jour_semaine rows) in
  let cols := unique_sorted (map heure rows) in
  {| index := idx;
     columns := cols;
     cells := map (fun w => map (pivot_cell rows w) cols) idx |}.

Definition fillna0 (t : Table) : Table :=
  {| index := index t;
     columns := columns t;
     cells :=
       map (map (fun c => match c with
                          | Some v => Some v
                          | None => Some nzero
                          end)) (cells t) |}.

(** [DataFrame.reindex(labels)]: rows are looked up by label; a label
    that is not in the index gets a row of [NaN]. *)
Definition reindex_rows (labels : list Weekday) (t : Table) : Table :=
  {| index := labels;
     columns := columns t;
     cells :=
       map (fun l =>
              match lookup l (combine (index t) (cells t)) with
              | Some row => row
              | None => repeat None (List.length (columns t))
              end) labels |}.

Definition pivot (rows : list Row) : Table :=
  reindex_rows jour_order (fillna0 (pivot_table rows)).

(** [pivot.loc[w, h]] *)
Definition loc (t : Table) (w : Weekday) (h : Z) : option (option V) :=
  match lookup w (combine (index t) (cells t)) with
  | Some row => lookup h (combine (columns t) row)
  | None => None
  end.

(** ** Top products *)

(** Insertion into a list that is descending by value: the new entry
    goes in front of the first entry that is not larger. *)
Fixpoint insert_desc {K : Type} (x : K * V) (l : list (K * V))
  : list (K * V) :=
  match l with
  | [] => [x]
  | y :: t =>
      if nleb (snd y) (snd x) then x :: l else y :: insert_desc x t
  end.

(** Stable descending sort by value. *)
Definition sort_desc {K : Type} (s : list (K * V)) : list (K * V) :=
  fold_right insert_desc [] s.

(** [Series.nlargest(n)]: among equal values the entry that comes first
    in the series is kept first. *)
Definition nlargest {K : Type} (n : nat) (s : list (K * V))
  : list (K * V) :=
  firstn n (sort_desc s).

Definition top (rows : list Row) : list (string * V) :=
  nlargest 10 (groupby_sum product_detail rows).

(** [x] is ranked before [y]: its value is not smaller and, when the two
    values tie, its key is the smaller one. *)
Definition ranks_before {K : Type} {KK : Key K} (x y : K * V) : Prop :=
  nleb (snd y) (snd x) = true
  /\ (nleb (snd x) (snd y) = true -> key_lt (fst x) (fst y)).
End Frame.

Arguments Row V : clear implicits.
Arguments Table V : clear implicits.


(* ================================================================== *)
(** * Exceptions *)

Inductive exn : Type :=
| ValueError (msg : string)
| KeyError (msg : string)
| ZeroDivisionError.

Inductive result (A : Type) : Type :=
| Ok (a : A)
| Raise (e : exn).

Arguments Ok {A} a.
Arguments Raise {A} e.

Definition bind {A B : Type} (m : result A) (f : A -> result B) : result B :=
  match m with
  | Ok a => f a
  | Raise e => Raise e
  end.

Notation "x <- m ;; k" := (bind m (fun x => k))
  (at level 61, m at next level, right associativity).

(** Division by a count.  A zero divisor is the error case (an exception
    for Python numbers; infinity or [NaN] with a warning for numpy's). *)
Definition true_divide {V : Type} {N : Number V} (a : V) (n : Z) : result V :=
  if (n =? 0)%Z then Raise ZeroDivisionError else Ok (ndiv a (of_int n)).

(** [total_ca / nb_transac if nb_transac > 0 else 0] *)
Definition ticket_moyen {V : Type} {N : Number V} (rows : list (Row V))
  : result V :=
  if (0 <? nb_transac rows)%Z
  then true_divide (total_ca rows) (nb_transac rows)
  else Ok (of_int 0).

(* ================================================================== *)
(** * Baskets *)

(** [rows.groupby("transaction_id")["product_detail"].apply(list)] *)
Definition transactions {V : Type} (rows : list (Row V))
  : list (list string) :=
  map (fun id =>
         map (@product_detail V)
             (filter (fun r => key_eqb (transaction_id r) id) rows))
      (unique_sorted (map (@transaction_id V) rows)).

(** The one-hot data frame [basket]. *)
Record Basket : Type := {
  te_columns : list string;
  te_ary : list (list bool)
}.

(** [TransactionEncoder.fit]: the sorted distinct items. *)
Definition te_fit (txs : list (list string)) : list string :=
  unique_sorted (List.concat txs).

(** [TransactionEncoder.transform]: one boolean row per transaction. *)
Definition te_transform (cols : list string) (txs : list (list string))
  : list (list bool) :=
  map (fun t => map (fun c => mem c t) cols) txs.

Definition basket (txs : list (list string)) : Basket :=
  {| te_columns := te_fit txs;
     te_ary := te_transform (te_fit txs) txs |}.

(* ================================================================== *)
(** * Frequent itemsets ([apriori]) *)

(** A candidate is a tuple of column numbers. *)
Definition combo : Type := list nat.

(** [np.all(X[:, combo], axis=...)] on one row. *)
Definition row_has (row : list bool) (c : combo) : bool :=
  forallb (fun j => nth j row false) c.

Definition count_rows (X : list (list bool)) (c : combo) : nat :=
  List.length (filter (fun row => row_has row c) X).

(** The fraction of rows that contain every column of the candidate. *)
Definition support (X : list (list bool)) (c : combo) : Q :=
  (inject_Z (Z.of_nat (count_rows X c))
   / inject_Z (Z.of_nat (List.length X)))%Q.

Definition is_frequent (X : list (list bool)) (min_support : Q) (c : combo)
  : bool :=
  Qle_bool min_support (support X c).

(** Each itemset of the previous level is extended by every item of that
    level that is larger than its last item. *)
Definition generate_new_combinations (old_combinations : list combo)
  : list combo :=
  let items_types_in_previous_step :=
    unique_sorted (List.concat old_combinations) in
  flat_map
    (fun old_combination =>
       let max_combination := last old_combination O in
       let valid_items :=
         filter (fun i => Nat.ltb max_combination i)
                items_types_in_previous_step in
       map (fun item => old_combination ++ [item]) valid_items)
    old_combinations.

(** The [while] loop over the itemset size: it stops when no candidate
    can be generated or when none is frequent.  [found] collects the
    levels.  [fuel] bounds the number of iterations; the number of columns
    is enough ([frequent_combos_fuel]). *)
Fixpoint apriori_loop (fuel : nat) (X : list (list bool)) (min_support : Q)
    (current : list combo) (found : list combo) : list combo :=
  match fuel with
  | O => found
  | S fuel' =>
      match generate_new_combinations current with
      | [] => found
      | combin =>
          match filter (is_frequent X min_support) combin with
          | [] => found
          | kept => apriori_loop fuel' X min_support kept (found ++ kept)
          end
      end
  end.

(** The frequent itemsets as column tuples, smaller sizes first. *)
Definition frequent_combos (b : Basket) (min_support : Q) : list combo :=
  let X := te_ary b in
  let ncols := List.length (te_columns b) in
  let level1 :=
    map (fun j => [j])
        (filter (fun j => is_frequent X min_support [j]) (seq 0 ncols)) in
  apriori_loop ncols X min_support level1 level1.

(** ** Vocabulary for the miner's result *)

Section LevelDefinitions.
Variable X : list (list bool).
Variable min_support : Q.
Variable ncols : nat.

(** The itemsets of size [k] the miner is after: strictly increasing
    tuples of column numbers whose support reaches the threshold. *)
Definition good (k : nat) (c : combo) : Prop :=
  List.length c = k
  /\ StronglySorted lt c
  /\ Forall (fun j => j < ncols) c
  /\ is_frequent X min_support c = true.

(** [cur] lists exactly the good itemsets of size [k]. *)
Definition level_of (k : nat) (cur : list combo) : Prop :=
  forall c, In c cur <-> good k c.

Definition next_level (cur : list combo) : list combo :=
  filter (is_frequent X min_support) (generate_new_combinations cur).

(** [found] lists exactly the good itemsets of the sizes 1 to [k]. *)
Definition found_upto (k : nat) (found : list combo) : Prop :=
  forall c, In c found <-> exists j, 1 <= j <= k /\ good j c.

End LevelDefinitions.

(** A frozenset of column names is kept as the list of its members in
    column order. *)
Definition itemset : Type := list string.

Definition colnames (cols : list string) (c : combo) : itemset :=
  map (fun j => nth j cols EmptyString) c.

(** [apriori(basket, min_support, use_colnames=True)]: the table of
    [support] and [itemsets]. *)
Definition apriori (b : Basket) (min_support : Q)
  : result (list (Q * itemset)) :=
  if Qle_bool min_support 0
  then Raise (ValueError
         "`min_support` must be a positive number within the interval `(0, 1]`.")
  else Ok (map (fun c => (support (te_ary b) c, colnames (te_columns b) c))
               (frequent_combos b min_support)).

(** The reported itemsets, as lists of column names. *)
Definition reported (b : Basket) (min_support : Q) : list itemset :=
  map (colnames (te_columns b)) (frequent_combos b min_support).

(* ================================================================== *)
(** * Association rules *)

(** ** Rounding to three decimals *)

(** Rounding to the nearest integer, halves to the even one. *)
Definition rint (q : Q) : Z :=
  let f := Qfloor q in
  match Qcompare (q - inject_Z f) (1 # 2) with
  | Lt => f
  | Gt => (f + 1)%Z
  | Eq => if Z.even f then f else (f + 1)%Z
  end.

(** [round(3)] in exact arithmetic. *)
Definition round3 (q : Q) : Q := (inject_Z (rint (q * 1000)) / 1000)%Q.

(** [numpy.rint] on a binary64 value: the nearest integer, halves to the
    even one.  Below [2^52] in magnitude, adding [2^52] rounds the sum to
    an integer in just that way and subtracting it again is exact; from
    [2^52] on every binary64 value is an integer. *)
Definition rint_binary64 (x : float) : float :=
  let big := 0x1p52%float in
  if PrimFloat.ltb (PrimFloat.abs x) big
  then if PrimFloat.ltb x PrimFloat.zero
       then PrimFloat.add (PrimFloat.sub x big) big
       else PrimFloat.sub (PrimFloat.add x big) big
  else x.

(** [round(3)] on a [float64] column: [rint(x * 1000) / 1000], each
    operation rounded. *)
Definition round3_binary64 (x : float) : float :=
  PrimFloat.div (rint_binary64 (PrimFloat.mul x (float_of_Z 1000)))
                (float_of_Z 1000).

(** The support column in binary64: the rounded quotient of the number of
    transactions that hold the itemset by the number of transactions. *)
Definition support_binary64 (s : Q) : float :=
  PrimFloat.div (float_of_Z (Qnum s)) (float_of_Z (Zpos (Qden s))).

(** ** The arithmetic of the rule figures *)

(** What the rule generator computes with: the supports it reads from the
    itemset table, their quotients, the comparison with the threshold
    [min_threshold=1.2] and the rounding of the displayed table. *)
Class Figure (F : Type) : Type := {
  of_support : Q -> F;
  fdiv : F -> F -> F;
  fleb : F -> F -> bool;
  min_threshold : F;
  fround3 : F -> F
}.

(** The program's arithmetic: IEEE 754 binary64. *)
#[global] Instance binary64_Figure : Figure float := {|
  of_support := support_binary64;
  fdiv := PrimFloat.div;
  fleb := PrimFloat.leb;
  min_threshold := 0x1.3333333333333p+0%float;
  fround3 := round3_binary64
|}.

(** Exact arithmetic. *)
#[global] Instance Q_Figure : Figure Q := {|
  of_support := fun s => s;
  fdiv := Qdiv;
  fleb := Qle_bool;
  min_threshold := (12 # 10)%Q;
  fround3 := round3
|}.

(** ** The rule generator *)

Record Rule (F : Type) : Type := {
  antecedents : itemset;
  consequents : itemset;
  rule_support : F;
  confidence : F;
  lift : F
}.

Arguments antecedents {F} _.
Arguments consequents {F} _.
Arguments rule_support {F} _.
Arguments confidence {F} _.
Arguments lift {F} _.

(** [itertools.combinations(items, r)] *)
Fixpoint combinations {A : Type} (r : nat) (items : list A)
  : list (list A) :=
  match r, items with
  | O, _ => [[]]
  | S _, [] => []
  | S r', x :: t => map (cons x) (combinations r' t) ++ combinations r t
  end.

(** [range(n - 1, 0, -1)] *)
Definition range_down (n : nat) : list nat := rev (seq 1 (n - 1)).

Fixpoint itemset_eqb (a b : itemset) : bool :=
  match a, b with
  | [], [] => true
  | x :: a', y :: b' => String.eqb x y && itemset_eqb a' b'
  | _, _ => false
  end.

(** [frequent_items_dict[k]]: the dictionary is keyed by frozensets.  Every
    itemset is listed in column order, so two of them are the same set
    exactly when they are the same list. *)
Fixpoint dict_get (d : list (Q * itemset)) (k : itemset) : result Q :=
  match d with
  | [] => Raise (KeyError "missing antecedent or consequent support")
  | (s, k') :: t => if itemset_eqb k k' then Ok s else dict_get t k
  end.

Fixpoint sequence {A : Type} (l : list (result A)) : result (list A) :=
  match l with
  | [] => Ok []
  | m :: t => a <- m ;; r <- sequence t ;; Ok (a :: r)
  end.

(** One row of the displayed table. *)
Record TableRow (F : Type) : Type := {
  produits : string;
  t_support : F;
  t_confidence : F;
  t_lift : F
}.

Arguments produits {F} _.
Arguments t_support {F} _.
Arguments t_confidence {F} _.
Arguments t_lift {F} _.

Definition arrow : string :=
  String " " (String (ascii_of_nat 226) (String (ascii_of_nat 158)
    (String (ascii_of_nat 156) (String " " EmptyString)))).

Section Rules.
Context {F : Type} {Fig : Figure F}.
(** The order in which the interpreter iterates over a frozenset of
    strings.  It follows the strings' hashes, which are salted per
    process: a parameter of the model. *)
Variable iter_order : itemset -> itemset.

(** The candidate rules of one frequent itemset [k]: for every size from
    [len(k) - 1] down to 1, every combination [c] of that many members of
    [k], taken in the iteration order of [k]; the antecedent is
    [frozenset(c)], the consequent [k.difference(antecedent)], both listed
    in column order.  The confidence is [sAC / sA], the lift
    [confidence / sC], and the rule is kept when
    [lift >= min_threshold]. *)
Definition rules_of (d : list (Q * itemset)) (k : itemset) (sAC : Q)
  : result (list (option (Rule F))) :=
  sequence
    (flat_map
       (fun idx =>
          map (fun c =>
                 let antecedent := filter (fun x => mem x c) k in
                 let consequent := filter (fun x => negb (mem x c)) k in
                 sA <- dict_get d antecedent ;;
                 sC <- dict_get d consequent ;;
                 let conf := fdiv (of_support sAC) (of_support sA) in
                 let score := fdiv conf (of_support sC) in
                 Ok (if fleb min_threshold score
                     then Some {| antecedents := antecedent;
                                  consequents := consequent;
                                  rule_support := of_support sAC;
                                  confidence := conf;
                                  lift := score |}
                     else None))
              (combinations idx (iter_order k)))
       (range_down (List.length k))).

(** [association_rules(frequent, metric="lift", min_threshold=1.2)] *)
Definition association_rules (frequent : list (Q * itemset))
  : result (list (Rule F)) :=
  match frequent with
  | [] => Raise (ValueError
            "The input DataFrame `df` containing the frequent itemsets is empty.")
  | _ =>
      per_itemset <-
        sequence (map (fun e => rules_of frequent (snd e) (fst e)) frequent) ;;
      Ok (dropna (List.concat per_itemset))
  end.

(** ** The displayed table *)

(** [', '.join(x)] over a frozenset. *)
Definition join (x : itemset) : string := String.concat ", " (iter_order x).

Definition table_row (r : Rule F) : TableRow F :=
  {| produits := join (antecedents r) ++ arrow ++ join (consequents r);
     t_support := fround3 (rule_support r);
     t_confidence := fround3 (confidence r);
     t_lift := fround3 (lift r) |}.

(** [rules[[...]].round(3).head(10)]; no rule gives the empty table
    ("Aucune regle trouvee."). *)
Definition panier_table (rules : list (Rule F)) : list (TableRow F) :=
  firstn 10 (map table_row rules).
End Rules.

(* ================================================================== *)
(** * The callback *)

Record Kpis : Type := {
  k_total_ca : Q;
  k_nb_transac : Z;
  k_ticket_moyen : Q;
  k_total_qty : Z
}.

Record Outputs : Type := {
  kpis : Kpis;
  fig_mois : list (string * Q);
  fig_jour : list (Weekday * option Q);
  fig_heatmap : Table Q;
  fig_top : list (string * Q);
  panier : list (TableRow float)
}.

Section Callback.
Variable iter_order : itemset -> itemset.

Definition update_dashboard (df : list (Row Q))
    (store_selection mois_selection : list string) : result Outputs :=
  let rows := df_filtered df store_selection mois_selection in
  ticket <- ticket_moyen rows ;;
  let k := {| k_total_ca := total_ca rows;
              k_nb_transac := nb_transac rows;
              k_ticket_moyen := ticket;
              k_total_qty := total_qty rows |} in
  frequent <- apriori (basket (transactions rows)) (2 # 100) ;;
  rules <- association_rules (F := float) iter_order frequent ;;
  Ok {| kpis := k;
        fig_mois := ca_mois rows;
        fig_jour := ca_jour rows;
        fig_heatmap := pivot rows;
        fig_top := top rows;
        panier := panier_table iter_order rules |}.
End Callback.


(* ================================================================== *)
(** * Subsequences *)

(** [subseq l1 l2]: [l1] is obtained from [l2] by deleting entries. *)
Inductive subseq {A : Type} : list A -> list A -> Prop :=
| subseq_nil : subseq [] []
| subseq_skip : forall x l1 l2, subseq l1 l2 -> subseq l1 (x :: l2)
| subseq_keep : forall x l1 l2, subseq l1 l2 -> subseq (x :: l1) (x :: l2).

#[local] Hint Constructors subseq : core.

(* ================================================================== *)
(** * Worked data sets *)

#[local] Open Scope string_scope.

Definition line {V : Type} (id : Z) (store product : string) (qty : Z)
    (price : V) (hour : Z) (day : Weekday) (month : string) : Row V :=
  {| transaction_id := id;
     store_location := store;
     product_detail := product;
     transaction_qty := qty;
     unit_price := price;
     heure := hour;
     jour_semaine := day;
     mois := month |}.


(** One sale, on a Monday at 9. *)
Definition df_one_sale : list (Row Q) :=
  [ line 1 "Astoria" "Latte" 2 (35 # 10)%Q 9 Monday "2023-01" ].

(** Two sales on different days and hours. *)
Definition df_two_sales : list (Row Q) :=
  [ line 1 "Astoria" "Latte" 2 (35 # 10)%Q 9 Monday "2023-01";
    line 2 "Astoria" "Tea" 1 (3 # 1)%Q 10 Tuesday "2023-01" ].

(** Five baskets: {Bagel, Cocoa} twice, {Latte, Muffin}, {Bagel}, {Tea}. *)
Definition df_baskets : list (Row Q) :=
  [ line 1 "Astoria" "Bagel" 1 (3 # 1)%Q 8 Monday "2023-01";
    line 1 "Astoria" "Cocoa" 1 (4 # 1)%Q 8 Monday "2023-01";
    line 2 "Astoria" "Bagel" 1 (3 # 1)%Q 9 Monday "2023-01";
    line 2 "Astoria" "Cocoa" 1 (4 # 1)%Q 9 Monday "2023-01";
    line 3 "Astoria" "Latte" 1 (5 # 1)%Q 9 Tuesday "2023-01";
    line 3 "Astoria" "Muffin" 1 (2 # 1)%Q 9 Tuesday "2023-01";
    line 4 "Astoria" "Bagel" 1 (3 # 1)%Q 10 Tuesday "2023-01";
    line 5 "Astoria" "Tea" 1 (3 # 1)%Q 11 Wednesday "2023-01" ].

(** Eleven products; the first two rows tie on revenue. *)
Definition df_products : list (Row Q) :=
  [ line 1 "Astoria" "Muffin" 1 (100 # 1)%Q 8 Monday "2023-01";
    line 2 "Astoria" "Latte" 1 (100 # 1)%Q 8 Monday "2023-01";
    line 3 "Astoria" "Americano" 1 (90 # 1)%Q 8 Monday "2023-01";
    line 4 "Astoria" "Brownie" 1 (80 # 1)%Q 8 Monday "2023-01";
    line 5 "Astoria" "Cappuccino" 1 (70 # 1)%Q 8 Monday "2023-01";
    line 6 "Astoria" "Donut" 1 (60 # 1)%Q 8 Monday "2023-01";
    line 7 "Astoria" "Espresso" 1 (50 # 1)%Q 8 Monday "2023-01";
    line 8 "Astoria" "Frappe" 1 (40 # 1)%Q 8 Monday "2023-01";
    line 9 "Astoria" "Granola" 1 (30 # 1)%Q 8 Monday "2023-01";
    line 10 "Astoria" "Hot Chocolate" 1 (20 # 1)%Q 8 Monday "2023-01";
    line 11 "Astoria" "Iced Tea" 1 (10 # 1)%Q 8 Monday "2023-01" ].

(** Three sales of 0.1, 0.2 and 0.3 in binary64: the first two on a Monday,
    the last two in February. *)
Definition df_float : list (Row float) :=
  [ line 1 "Astoria" "Latte" 1 0x1.999999999999ap-4%float
         9 Monday "2023-01";
    line 2 "Astoria" "Latte" 1 0x1.999999999999ap-3%float
         9 Monday "2023-02";
    line 3 "Astoria" "Latte" 1 0x1.3333333333333p-2%float
         9 Tuesday "2023-02" ].

(** The baskets of the specification's example. *)
Definition example_baskets : list (list string) :=
  [ ["A"; "B"]; ["A"; "B"]; ["A"; "C"]; ["B"; "C"]; ["A"; "B"; "C"] ].

(** Forty baskets: A is in 4 of them, C in 25, both in 3.  The lift of
    A -> C and of C -> A is 6/5 in exact arithmetic. *)
Definition baskets_boundary : list (list string) :=
  (repeat ["A"; "C"] 3 ++ [["A"]] ++ repeat ["C"] 22 ++ repeat ["D"] 14)%list.

(** Twelve baskets: A is in 8 of them, C in 8, both in 7.  The lift of
    A -> C is 1.3125 in exact arithmetic. *)
Definition baskets_rounding : list (list string) :=
  (repeat ["A"; "C"] 7 ++ [["A"]; ["C"]] ++ repeat ["D"] 3)%list.

(** Two sales of 2^62 pieces each. *)
Definition df_large_qty : list (Row Q) :=
  [ line 1 "Astoria" "Latte" (2 ^ 62) (1 # 1)%Q 9 Monday "2023-01";
    line 2 "Astoria" "Latte" (2 ^ 62) (1 # 1)%Q 9 Monday "2023-01" ].

#[local] Close Scope string_scope.


(* ================================================================== *)
(** * Vocabulary for the properties of the baskets and of the loader *)

(** The transaction [t] holds every item of [s]. *)
Definition contains (t : list string) (s : itemset) : bool :=
  forallb (fun x => mem x t) s.

(** The fraction of the transactions that hold every item of [s]. *)
Definition tx_support (txs : list (list string)) (s : itemset) : Q :=
  (inject_Z (Z.of_nat (List.length (filter (fun t => contains t s) txs)))
   / inject_Z (Z.of_nat (List.length txs)))%Q.

(** One row of a table: [pivot.loc[w]]. *)
Definition loc_row {V : Type} (t : Table V) (w : Weekday)
  : option (list (option V)) :=
  lookup w (combine (index t) (cells t)).

(** The line of the heat map of weekday [w]: the filled cells of a
    weekday that occurs in the rows, a line of [NaN] otherwise. *)
Definition pivot_line {V : Type} {N : Number V} (rows : list (Row V))
    (w : Weekday) : list (option V) :=
  if mem w (map (@jour_semaine V) rows)
  then map (fun h => Some match pivot_cell rows w h with
                          | Some v => v
                          | None => nzero
                          end)
           (unique_sorted (map (@heure V) rows))
  else repeat None (List.length (unique_sorted (map (@heure V) rows))).

(** The decimal digit of a number below ten. *)
Definition digit (n : Z) : ascii := ascii_of_nat (48 + Z.to_nat n).

(** [df["mois"] = df["transaction_date"].dt.to_period("M").astype(str)]:
    the year on four digits, a dash, the month on two digits. *)
Definition mois_bucket (year month : Z) : string :=
  String (digit (year / 1000 mod 10))
    (String (digit (year / 100 mod 10))
       (String (digit (year / 10 mod 10))
          (String (digit (year mod 10))
             (String "-"
                (String (digit (month / 10 mod 10))
                   (String (digit (month mod 10)) EmptyString)))))).

(** Chronological order of (year, month) pairs. *)
Definition month_before (a b : Z * Z) : Prop :=
  (fst a < fst b)%Z \/ (fst a = fst b /\ (snd a < snd b)%Z).


(* ================================================================== *)
(** * Laws of the instances *)

#[global] Instance Q_ExactNumber : ExactNumber Q.
Proof.
  split.
  - intros [a b] [c d] [e f]. unfold nadd; simpl. unfold Qplus; simpl.
    f_equal; [ rewrite !Pos2Z.inj_mul; ring | apply Pos.mul_assoc ].
  - intros [a b] [c d]. unfold nadd; simpl. unfold Qplus; simpl.
    f_equal; [ ring | apply Pos.mul_comm ].
  - intros [a b]. unfold nadd, nzero; simpl. unfold Qplus; simpl.
    f_equal. ring.
  - intros a b. unfold nleb; simpl. rewrite !Qle_bool_iff.
    destruct (Qlt_le_dec a b) as [H | H]; [ left; apply Qlt_le_weak, H | right; exact H ].
  - intros a b c. unfold nleb; simpl. rewrite !Qle_bool_iff. apply Qle_trans.
Qed.

Lemma string_ltb_lt (a b : string) :
  String.ltb a b = true <-> String_as_OT.lt a b.
Proof.
  unfold String.ltb. rewrite <- String_as_OT.cmp_lt. unfold String_as_OT.cmp.
  destruct (String.compare a b); split; congruence.
Qed.

#[global] Instance string_KeyLaws : KeyLaws string.
Proof.
  split; simpl.
  - apply String.eqb_eq.
  - intros a. unfold String.ltb.
    assert (E : String.compare a a = Eq)
      by (apply String_as_OT.cmp_eq; reflexivity).
    rewrite E. reflexivity.
  - intros a b c. rewrite !string_ltb_lt. apply String_as_OT.lt_trans.
  - intros a b. unfold String.ltb.
    destruct (String.compare a b) eqn:E.
    + right; left. apply String.compare_eq_iff, E.
    + left; reflexivity.
    + right; right. rewrite String.compare_antisym, E. reflexivity.
Qed.

#[global] Instance Z_KeyLaws : KeyLaws Z.
Proof.
  split; simpl.
  - apply Z.eqb_eq.
  - apply Z.ltb_irrefl.
  - intros a b c. rewrite !Z.ltb_lt. lia.
  - intros a b. rewrite !Z.ltb_lt. lia.
Qed.

#[global] Instance nat_KeyLaws : KeyLaws nat.
Proof.
  split; simpl.
  - apply Nat.eqb_eq.
  - apply Nat.ltb_irrefl.
  - intros a b c. rewrite !Nat.ltb_lt. lia.
  - intros a b. rewrite !Nat.ltb_lt. lia.
Qed.

Lemma day_name_inj (a b : Weekday) : day_name a = day_name b -> a = b.
Proof. destruct a, b; simpl; intros H; try reflexivity; discriminate H. Qed.

#[global] Instance Weekday_KeyLaws : KeyLaws Weekday.
Proof.
  split; simpl.
  - intros a b. rewrite String.eqb_eq. split.
    + apply day_name_inj.
    + intros ->. reflexivity.
  - intros a. exact (@key_ltb_irrefl string _ _ (day_name a)).
  - intros a b c.
    exact (@key_ltb_trans string _ _ (day_name a) (day_name b) (day_name c)).
  - intros a b.
    destruct (@key_ltb_total string _ _ (day_name a) (day_name b))
      as [H | [H | H]].
    + left; exact H.
    + right; left. apply day_name_inj, H.
    + right; right; exact H.
Qed.

(* ================================================================== *)
(** * Sorted distinct keys, lookup *)

Section KeyFacts.
Context {K : Type} {KK : Key K} {KL : KeyLaws K}.

Lemma key_eqb_refl (a : K) : key_eqb a a = true.
Proof. apply key_eqb_spec. reflexivity. Qed.

Lemma key_eqb_false (a b : K) : key_eqb a b = false <-> a <> b.
Proof.
  split.
  - intros H E. apply key_eqb_spec in E. congruence.
  - intros H. destruct (key_eqb a b) eqn:E; [ | reflexivity ].
    apply key_eqb_spec in E. contradiction.
Qed.

Lemma mem_In (k : K) (l : list K) : mem k l = true <-> In k l.
Proof.
  unfold mem. rewrite existsb_exists. split.
  - intros [x [Hx E]]. apply key_eqb_spec in E. subst. exact Hx.
  - intros H. exists k. split; [ exact H | apply key_eqb_refl ].
Qed.

Lemma insert_key_In (x k : K) (l : list K) :
  In x (insert_key k l) <-> x = k \/ In x l.
Proof.
  induction l as [ | h t IH ]; simpl.
  - intuition.
  - destruct (key_ltb k h); [ simpl; intuition | ].
    destruct (key_eqb k h) eqn:E.
    + apply key_eqb_spec in E. subst. simpl. intuition.
    + simpl. rewrite IH. intuition.
Qed.

Lemma unique_sorted_In (x : K) (l : list K) :
  In x (unique_sorted l) <-> In x l.
Proof.
  induction l as [ | h t IH ]; simpl.
  - reflexivity.
  - rewrite insert_key_In, IH. intuition.
Qed.

Lemma insert_key_sorted (k : K) (l : list K) :
  StronglySorted key_lt l -> StronglySorted key_lt (insert_key k l).
Proof.
  induction l as [ | h t IH ]; simpl; intros S.
  - constructor; constructor.
  - inversion S as [ | ? ? St Hh ]; subst.
    destruct (key_ltb k h) eqn:L.
    + constructor; [ exact S | ].
      constructor; [ exact L | ].
      rewrite Forall_forall in *. intros y Hy.
      apply (key_ltb_trans k h y L). apply Hh, Hy.
    + destruct (key_eqb k h) eqn:E; [ exact S | ].
      constructor; [ apply IH, St | ].
      rewrite Forall_forall in *. intros y Hy.
      apply insert_key_In in Hy. destruct Hy as [-> | Hy]; [ | apply Hh, Hy ].
      destruct (key_ltb_total k h) as [H | [H | H]].
      * congruence.
      * apply key_eqb_false in E. contradiction.
      * exact H.
Qed.

Lemma unique_sorted_sorted (l : list K) :
  StronglySorted key_lt (unique_sorted l).
Proof.
  induction l as [ | h t IH ]; simpl.
  - constructor.
  - apply insert_key_sorted, IH.
Qed.

Lemma sorted_NoDup (l : list K) : StronglySorted key_lt l -> NoDup l.
Proof.
  induction 1 as [ | h t St IH Hh ]; constructor; [ | exact IH ].
  intros Hin. rewrite Forall_forall in Hh. specialize (Hh h Hin).
  unfold key_lt in Hh. rewrite key_ltb_irrefl in Hh. discriminate.
Qed.

Lemma unique_sorted_NoDup (l : list K) : NoDup (unique_sorted l).
Proof. apply sorted_NoDup, unique_sorted_sorted. Qed.

(** Looking a key up in a table computed key by key. *)
Lemma lookup_map {A : Type} (f : K -> A) (k : K) (ks : list K) :
  lookup k (map (fun x => (x, f x)) ks)
  = if mem k ks then Some (f k) else None.
Proof.
  induction ks as [ | h t IH ]; simpl.
  - reflexivity.
  - destruct (key_eqb k h) eqn:E; simpl.
    + apply key_eqb_spec in E. subst. reflexivity.
    + exact IH.
Qed.

Lemma mem_unique_sorted (k : K) (l : list K) :
  mem k (unique_sorted l) = mem k l.
Proof.
  apply eq_true_iff_eq. rewrite !mem_In. apply unique_sorted_In.
Qed.
End KeyFacts.


(* ================================================================== *)
(** * The filter *)

Lemma subseq_nil_l {A : Type} (l : list A) : subseq [] l.
Proof. induction l; auto. Qed.

Lemma subseq_refl {A : Type} (l : list A) : subseq l l.
Proof. induction l; auto. Qed.

Lemma subseq_In {A : Type} (l1 l2 : list A) (x : A) :
  subseq l1 l2 -> In x l1 -> In x l2.
Proof.
  induction 1 as [ | y l1 l2 _ IH | y l1 l2 _ IH ]; simpl; intuition.
Qed.

Lemma subseq_filter {A : Type} (f : A -> bool) (l : list A) :
  subseq (filter f l) l.
Proof. induction l as [ | x l IH ]; simpl; [ | destruct (f x) ]; auto. Qed.

Lemma subseq_filter_greatest {A : Type} (f : A -> bool) (l1 l2 : list A) :
  subseq l1 l2 -> Forall (fun x => f x = true) l1 -> subseq l1 (filter f l2).
Proof.
  induction 1 as [ | x l1 l2 _ IH | x l1 l2 _ IH ]; simpl; intros F.
  - constructor.
  - destruct (f x); auto.
  - inversion F as [ | ? ? Hx F' ]; subst. rewrite Hx. auto.
Qed.

Lemma filter_none {A : Type} (f : A -> bool) (l : list A) :
  (forall x, In x l -> f x = false) -> filter f l = [].
Proof.
  induction l as [ | x l IH ]; simpl; intros H; [ reflexivity | ].
  rewrite (H x (or_introl eq_refl)). apply IH.
  intros y Hy. apply H. right. exact Hy.
Qed.

Lemma boolean_index_mask {A : Type} (f : A -> bool) (df : list A) :
  boolean_index df (map f df) = filter f df.
Proof.
  induction df as [ | r df IH ]; simpl; [ | rewrite IH ]; reflexivity.
Qed.

(** C10.  The filter keeps exactly the rows whose location and month are
    selected, in the order of the data set: the filtered rows form a
    subsequence of the data set, a row belongs to it exactly when it is a
    selected row of the data set, and every subsequence of the data set
    made of selected rows is a subsequence of the filtered rows. *)
Theorem df_filtered_order_preserving :
  forall (V : Type) (df : list (Row V)) (stores months : list string),
    let selected := fun r : Row V =>
      In (store_location r) stores /\ In (mois r) months in
    subseq (df_filtered df stores months) df
    /\ (forall r, In r (df_filtered df stores months)
                  <-> In r df /\ selected r)
    /\ (forall l, subseq l df /\ Forall selected l
                  <-> subseq l (df_filtered df stores months)).
Proof.
  intros V df stores months selected.
  unfold df_filtered, selection_mask. rewrite boolean_index_mask.
  set (keep := fun r : Row V =>
         isin (store_location r) stores && isin (mois r) months).
  assert (Hk : forall r, keep r = true <-> selected r).
  { intros r. unfold keep, selected, isin.
    rewrite andb_true_iff, !mem_In. reflexivity. }
  split; [ apply subseq_filter | split ].
  - intros r. rewrite filter_In, Hk. reflexivity.
  - intros l. split.
    + intros [S F]. apply subseq_filter_greatest; [ exact S | ].
      rewrite Forall_forall in *. intros r Hr. apply Hk, F, Hr.
    + intros S. split.
      * clear Hk. revert l S.
        induction df as [ | r df IH ]; simpl; intros l S.
        -- exact S.
        -- destruct (keep r).
           ++ inversion S; subst; auto.
           ++ auto.
      * rewrite Forall_forall. intros r Hr. apply Hk.
        apply (subseq_In r S) in Hr. apply filter_In in Hr. apply Hr.
Qed.

(* ================================================================== *)
(** * KPIs *)

Lemma nb_transac_nonneg {V : Type} (rows : list (Row V)) :
  (0 <= nb_transac rows)%Z.
Proof. unfold nb_transac. lia. Qed.

Lemma nb_transac_zero {V : Type} (rows : list (Row V)) :
  nb_transac rows = 0%Z <-> rows = [].
Proof.
  unfold nb_transac. destruct rows as [ | r rows ]; simpl.
  - intuition.
  - split; [ lia | discriminate ].
Qed.

Lemma ticket_moyen_value {V : Type} {N : Number V} (rows : list (Row V)) :
  ticket_moyen rows
  = Ok (if (0 <? nb_transac rows)%Z
        then ndiv (total_ca rows) (of_int (nb_transac rows))
        else of_int 0).
Proof.
  unfold ticket_moyen, true_divide.
  destruct (0 <? nb_transac rows)%Z eqn:E; [ | reflexivity ].
  apply Z.ltb_lt in E.
  assert (Hz : (nb_transac rows =? 0)%Z = false) by (apply Z.eqb_neq; lia).
  rewrite Hz. reflexivity.
Qed.

(** C8.  The average ticket is the revenue divided by the number of
    transactions when there is a transaction, and 0 otherwise; it is
    computed without a division by zero (no exception) in both cases. *)
Theorem ticket_moyen_guarded :
  forall (V : Type) (N : Number V) (rows : list (Row V)),
    ticket_moyen rows
    = Ok (if (0 <? nb_transac rows)%Z
          then ndiv (total_ca rows) (of_int (nb_transac rows))
          else of_int 0)
    /\ ((0 <? nb_transac rows)%Z = false <-> nb_transac rows = 0%Z).
Proof.
  intros V N rows. split; [ apply ticket_moyen_value | ].
  pose proof (nb_transac_nonneg rows) as Hn.
  rewrite Z.ltb_ge. lia.
Qed.

(* ================================================================== *)
(** * Revenue per weekday, heat map *)

Section Grouping.
Context {V : Type} {N : Number V}.

Lemma groupby_sum_lookup {K : Type} {KK : Key K} {KL : KeyLaws K}
    (key : Row V -> K) (rows : list (Row V)) (k : K) :
  lookup k (groupby_sum key rows)
  = if mem k (map key rows) then Some (group_total key rows k) else None.
Proof.
  unfold groupby_sum, group_total.
  rewrite (lookup_map
             (fun k => vsum (map CA (filter (fun r => key_eqb (key r) k) rows)))).
  rewrite mem_unique_sorted. reflexivity.
Qed.

Lemma ca_jour_entries (rows : list (Row V)) :
  ca_jour rows
  = map (fun w =>
           (w, if mem w (map (@jour_semaine V) rows)
               then Some (group_total (@jour_semaine V) rows w)
               else None))
        jour_order.
Proof.
  unfold ca_jour, reindex.
  apply map_ext. intros w. rewrite groupby_sum_lookup. reflexivity.
Qed.

(** C4 (amended).  The weekday series has the seven weekdays, Monday to
    Sunday, in this order; a weekday that occurs in the rows carries the
    revenue of its rows, and a weekday that does not occur carries the
    undefined value [NaN], not 0. *)
Theorem ca_jour_reindexed :
  forall rows : list (Row V),
    ca_jour rows
    = map (fun w =>
             (w, if mem w (map (@jour_semaine V) rows)
                 then Some (group_total (@jour_semaine V) rows w)
                 else None))
          [Monday; Tuesday; Wednesday; Thursday; Friday; Saturday; Sunday]
    /\ List.length (ca_jour rows) = 7%nat.
Proof.
  intros rows. split; [ apply ca_jour_entries | reflexivity ].
Qed.

Lemma combine_map {A B : Type} (f : A -> B) (l : list A) :
  combine l (map f l) = map (fun x => (x, f x)) l.
Proof. induction l as [ | x l IH ]; simpl; [ | rewrite IH ]; reflexivity. Qed.

Lemma pivot_loc (rows : list (Row V)) (w : Weekday) (h : Z) :
  In w (map (@jour_semaine V) rows) ->
  In h (map (@heure V) rows) ->
  loc (pivot rows) w h
  = Some (Some (match pivot_cell rows w h with
                | Some v => v
                | None => nzero
                end)).
Proof.
  intros Hw Hh.
  assert (Hj : In w jour_order) by (destruct w; simpl; tauto).
  unfold loc, pivot, reindex_rows, fillna0, pivot_table.
  cbv [index cells columns].
  rewrite (combine_map _ jour_order), lookup_map.
  apply mem_In in Hj. rewrite Hj.
  rewrite map_map, combine_map, lookup_map, mem_unique_sorted.
  apply mem_In in Hw. rewrite Hw.
  rewrite map_map, combine_map, lookup_map, mem_unique_sorted.
  apply mem_In in Hh. rewrite Hh.
  destruct (pivot_cell rows w h); reflexivity.
Qed.

(** C5 (amended).  For every set of rows the heat map has the seven
    weekdays in canonical order as rows and the hours that occur in the
    rows, ascending, as columns, every row with one cell per column; a cell
    whose weekday and hour both occur in the rows but never together is
    0. *)
Theorem pivot_missing_cell_zero :
  forall rows : list (Row V),
    index (pivot rows)
    = [Monday; Tuesday; Wednesday; Thursday; Friday; Saturday; Sunday]
    /\ columns (pivot rows) = unique_sorted (map (@heure V) rows)
    /\ StronglySorted Z.lt (columns (pivot rows))
    /\ (forall h, In h (columns (pivot rows)) <-> In h (map (@heure V) rows))
    /\ List.length (cells (pivot rows)) = 7
    /\ Forall (fun line => List.length line
                           = List.length (columns (pivot rows)))
              (cells (pivot rows))
    /\ (forall w h,
          In w (map (@jour_semaine V) rows) ->
          In h (map (@heure V) rows) ->
          (forall r, In r rows -> ~ (jour_semaine r = w /\ heure r = h)) ->
          loc (pivot rows) w h = Some (Some nzero)).
Proof.
  intros rows.
  split; [ reflexivity | split; [ reflexivity | ] ].
  split; [ | split; [ | split; [ | split ] ] ].
  - simpl.
    assert (S := unique_sorted_sorted (map (@heure V) rows)).
    induction S as [ | a l _ IH Ha ]; constructor; [ exact IH | ].
    rewrite Forall_forall in *. intros y Hy.
    apply Z.ltb_lt. exact (Ha y Hy).
  - intros h. simpl. apply unique_sorted_In.
  - reflexivity.
  - unfold pivot, reindex_rows, fillna0, pivot_table.
    cbv [index cells columns].
    apply Forall_forall. intros line Hin.
    apply in_map_iff in Hin. destruct Hin as [w [<- _]].
    rewrite map_map, combine_map, lookup_map.
    destruct (mem w (unique_sorted (map (@jour_semaine V) rows))).
    + rewrite !length_map. reflexivity.
    + apply repeat_length.
  - intros w h Hw Hh Hnone.
    rewrite (@pivot_loc rows w h Hw Hh). unfold pivot_cell.
    assert (E : filter (fun r => key_eqb (jour_semaine r) w
                                 && key_eqb (heure r) h) rows = []).
    { apply filter_none. intros r Hr.
      destruct (key_eqb (jour_semaine r) w && key_eqb (heure r) h) eqn:B;
        [ | reflexivity ].
      exfalso. apply andb_true_iff in B. destruct B as [B1 B2].
      apply (Hnone r Hr).
      split; [ apply (key_eqb_spec (K := Weekday)), B1
             | apply (key_eqb_spec (K := Z)), B2 ]. }
    rewrite E. reflexivity.
Qed.
End Grouping.


(* ================================================================== *)
(** * Conservation of the revenue across groupings *)

Section Conservation.
Context {V : Type} {N : Number V} {E : ExactNumber V}.

Lemma fold_left_nadd (l : list V) (a : V) :
  fold_left nadd l a = nadd a (fold_left nadd l nzero).
Proof.
  revert a. induction l as [ | x l IH ]; simpl; intros a.
  - rewrite nadd_comm, nadd_0_l. reflexivity.
  - rewrite (IH (nadd a x)), (IH (nadd nzero x)), nadd_0_l.
    symmetry. apply nadd_assoc.
Qed.

Lemma vsum_cons (x : V) (l : list V) : vsum (x :: l) = nadd x (vsum l).
Proof.
  unfold vsum; simpl. rewrite fold_left_nadd, nadd_0_l. reflexivity.
Qed.

Lemma vsum_zeros {A : Type} (f : A -> V) (l : list A) :
  (forall x, In x l -> f x = nzero) -> vsum (map f l) = nzero.
Proof.
  induction l as [ | x l IH ]; simpl; intros H; [ reflexivity | ].
  rewrite vsum_cons, (H x (or_introl eq_refl)), nadd_0_l.
  apply IH. intros y Hy. apply H. right. exact Hy.
Qed.

(** Adding [a] to the term of one key adds [a] to the sum. *)
Lemma vsum_add_at {K : Type} {KK : Key K} {KL : KeyLaws K}
    (f : K -> V) (a : V) (k0 : K) (ks : list K) :
  NoDup ks -> In k0 ks ->
  vsum (map (fun k => if key_eqb k0 k then nadd a (f k) else f k) ks)
  = nadd a (vsum (map f ks)).
Proof.
  induction 1 as [ | k ks Hk ND IH ]; simpl; intros Hin; [ contradiction | ].
  rewrite !vsum_cons. destruct (key_eqb k0 k) eqn:B.
  - apply key_eqb_spec in B. subst k0.
    rewrite <- nadd_assoc. do 3 f_equal.
    apply map_ext_in. intros y Hy.
    assert (B : key_eqb k y = false).
    { apply key_eqb_false. intros ->. contradiction. }
    rewrite B. reflexivity.
  - destruct Hin as [-> | Hin]; [ rewrite key_eqb_refl in B; discriminate | ].
    rewrite (IH Hin).
    rewrite !nadd_assoc. f_equal. apply nadd_comm.
Qed.

Lemma group_total_cons {K : Type} {KK : Key K} (key : Row V -> K)
    (r : Row V) (rows : list (Row V)) (k : K) :
  group_total key (r :: rows) k
  = if key_eqb (key r) k
    then nadd (CA r) (group_total key rows k)
    else group_total key rows k.
Proof.
  unfold group_total; simpl. destruct (key_eqb (key r) k); simpl.
  - apply vsum_cons.
  - reflexivity.
Qed.

(** The group totals over a duplicate-free list of keys that covers the
    rows add up to the total of the rows. *)
Lemma group_totals_sum {K : Type} {KK : Key K} {KL : KeyLaws K}
    (key : Row V -> K) (ks : list K) (rows : list (Row V)) :
  NoDup ks -> (forall r, In r rows -> In (key r) ks) ->
  vsum (map (group_total key rows) ks) = vsum (map CA rows).
Proof.
  intros ND. induction rows as [ | r rows IH ]; intros Hcov.
  - apply vsum_zeros. reflexivity.
  - simpl map at 2. rewrite vsum_cons.
    rewrite <- IH by (intros r' Hr'; apply Hcov; right; exact Hr').
    rewrite <- (vsum_add_at (group_total key rows) (CA r) (key r) ND)
      by (apply Hcov; left; reflexivity).
    f_equal. apply map_ext. intros k. apply group_total_cons.
Qed.

Lemma dropna_Some {A B : Type} (f : A -> B) (l : list A) :
  dropna (map (fun x => Some (f x)) l) = map f l.
Proof. induction l as [ | x l IH ]; simpl; [ | rewrite IH ]; reflexivity. Qed.

Lemma total_ca_vsum (rows : list (Row V)) : total_ca rows = vsum (map CA rows).
Proof. unfold total_ca, series_sum. rewrite dropna_Some. reflexivity. Qed.

Lemma series_sum_partial {A : Type} (p : A -> bool) (f : A -> V)
    (l : list A) :
  (forall x, p x = false -> f x = nzero) ->
  series_sum (map (fun x => if p x then Some (f x) else None) l)
  = vsum (map f l).
Proof.
  intros H. unfold series_sum.
  induction l as [ | x l IH ]; simpl; [ reflexivity | ].
  rewrite vsum_cons. destruct (p x) eqn:P; simpl.
  - rewrite vsum_cons, IH. reflexivity.
  - rewrite (H x P), nadd_0_l. exact IH.
Qed.

Lemma group_total_absent {K : Type} {KK : Key K} {KL : KeyLaws K}
    (key : Row V -> K) (rows : list (Row V)) (k : K) :
  mem k (map key rows) = false -> group_total key rows k = nzero.
Proof.
  intros H. unfold group_total. rewrite filter_none; [ reflexivity | ].
  intros r Hr. apply key_eqb_false. intros <-.
  assert (Hm : mem (key r) (map key rows) = true)
    by (apply mem_In, in_map, Hr).
  congruence.
Qed.

(** C6 (amended).  In exact arithmetic (addition associative and
    commutative) the revenues of the weekday series, summed over its
    defined entries, the revenues of the month series and the total revenue
    are equal. *)
Theorem revenue_conserved_exact :
  forall rows : list (Row V),
    series_sum (map snd (ca_jour rows)) = total_ca rows
    /\ series_sum (map (fun e => Some (snd e)) (ca_mois rows))
       = total_ca rows.
Proof.
  intros rows. rewrite total_ca_vsum. split.
  - rewrite ca_jour_entries, map_map; simpl snd.
    rewrite (series_sum_partial
               (fun w => mem w (map (@jour_semaine V) rows))
               (group_total (@jour_semaine V) rows)).
    + apply group_totals_sum.
      * repeat constructor; simpl; intuition discriminate.
      * intros r _. destruct (jour_semaine r); simpl; tauto.
    + intros w. apply group_total_absent.
  - unfold series_sum. rewrite dropna_Some.
    unfold ca_mois, groupby_sum. rewrite map_map; simpl snd.
    change (vsum (map (group_total (@mois V) rows)
                      (unique_sorted (map (@mois V) rows)))
            = vsum (map CA rows)).
    apply (group_totals_sum (@mois V)).
    + apply unique_sorted_NoDup.
    + intros r Hr. apply unique_sorted_In, in_map, Hr.
Qed.
End Conservation.


(* ================================================================== *)
(** * The ranking of products *)

Section Ranking.
Context {V : Type} {N : Number V} {E : ExactNumber V}.
Context {K : Type} {KK : Key K} {KL : KeyLaws K}.

Lemma insert_desc_In (z x : K * V) (l : list (K * V)) :
  In z (insert_desc x l) <-> z = x \/ In z l.
Proof.
  induction l as [ | y t IH ]; simpl.
  - intuition.
  - destruct (nleb (snd y) (snd x)); simpl; [ intuition | ].
    rewrite IH. intuition.
Qed.

Lemma insert_desc_Permutation (x : K * V) (l : list (K * V)) :
  Permutation (insert_desc x l) (x :: l).
Proof.
  induction l as [ | y t IH ]; simpl.
  - apply Permutation_refl.
  - destruct (nleb (snd y) (snd x)).
    + apply Permutation_refl.
    + eapply Permutation_trans; [ apply perm_skip, IH | apply perm_swap ].
Qed.

Lemma sort_desc_Permutation (s : list (K * V)) : Permutation (sort_desc s) s.
Proof.
  induction s as [ | x s IH ]; simpl.
  - constructor.
  - eapply Permutation_trans; [ apply insert_desc_Permutation | ].
    apply perm_skip, IH.
Qed.

Lemma insert_desc_sorted (x : K * V) (l : list (K * V)) :
  StronglySorted ranks_before l ->
  Forall (fun y => key_lt (fst x) (fst y)) l ->
  StronglySorted ranks_before (insert_desc x l).
Proof.
  induction l as [ | y t IH ]; simpl; intros S F.
  - constructor; constructor.
  - inversion S as [ | ? ? St Hy ]; subst.
    inversion F as [ | ? ? Fy Ft ]; subst.
    destruct (nleb (snd y) (snd x)) eqn:B.
    + constructor; [ exact S | ].
      constructor.
      * split; [ exact B | intros _; exact Fy ].
      * rewrite Forall_forall in *. intros z Hz. split.
        -- apply (nleb_trans _ (snd y) _); [ apply (Hy z Hz) | exact B ].
        -- intros _. apply Ft, Hz.
    + constructor; [ apply IH; assumption | ].
      rewrite Forall_forall in *. intros z Hz.
      apply insert_desc_In in Hz. destruct Hz as [-> | Hz]; [ | apply Hy, Hz ].
      split.
      * destruct (nleb_total (snd x) (snd y)) as [H | H]; congruence.
      * intros H. congruence.
Qed.

Lemma sort_desc_sorted (s : list (K * V)) :
  StronglySorted (fun a b => key_lt (fst a) (fst b)) s ->
  StronglySorted ranks_before (sort_desc s).
Proof.
  induction 1 as [ | x s Ss IH Hx ]; simpl.
  - constructor.
  - apply insert_desc_sorted; [ exact IH | ].
    rewrite Forall_forall in *. intros y Hy. apply Hx.
    apply (Permutation_in _ (sort_desc_Permutation s)), Hy.
Qed.

Lemma firstn_sorted {A : Type} (R : A -> A -> Prop) (n : nat) (l : list A) :
  StronglySorted R l -> StronglySorted R (firstn n l).
Proof.
  revert l. induction n as [ | n IH ]; intros l S; simpl.
  - constructor.
  - destruct l as [ | x l ]; [ constructor | ].
    inversion S as [ | ? ? Sl Hx ]; subst.
    constructor; [ apply IH, Sl | ].
    rewrite Forall_forall in *. intros y Hy. apply Hx.
    revert Hy. clear. revert l. induction n as [ | n IH ]; intros l; simpl.
    + contradiction.
    + destruct l as [ | z l ]; simpl; [ contradiction | ].
      intros [-> | H]; [ left; reflexivity | right; apply (IH l H) ].
Qed.

Lemma firstn_skipn_sorted {A : Type} (R : A -> A -> Prop) (n : nat)
    (l : list A) (x y : A) :
  StronglySorted R l -> In x (firstn n l) -> In y (skipn n l) -> R x y.
Proof.
  revert l. induction n as [ | n IH ]; intros l S; simpl.
  - contradiction.
  - destruct l as [ | z l ]; simpl; [ contradiction | ].
    inversion S as [ | ? ? Sl Hz ]; subst.
    intros [-> | Hx] Hy.
    + rewrite Forall_forall in Hz. apply Hz.
      rewrite <- (firstn_skipn n l). apply in_or_app. right. exact Hy.
    + apply (IH l Sl Hx Hy).
Qed.
End Ranking.

Section TopProducts.
Context {V : Type} {N : Number V} {E : ExactNumber V}.

Lemma groupby_sum_keys {K : Type} {KK : Key K} {KL : KeyLaws K}
    (key : Row V -> K) (rows : list (Row V)) :
  StronglySorted (fun a b : K * V => key_lt (fst a) (fst b))
                 (groupby_sum key rows).
Proof.
  unfold groupby_sum.
  assert (S := unique_sorted_sorted (map key rows)).
  induction S as [ | k ks _ IH Hk ]; simpl; constructor; [ exact IH | ].
  rewrite Forall_forall in *. intros y Hy.
  apply in_map_iff in Hy. destruct Hy as [k' [<- Hk']]. simpl.
  apply Hk, Hk'.
Qed.

(** C7 (amended).  The ranking holds the [n] products of highest revenue,
    each with the total revenue of its rows, in descending order of
    revenue; products that tie on revenue appear in ascending order of
    their names (the order of the grouped table), whatever the order in
    which the rows mention them. *)
Theorem top_products_ranking :
  forall (rows : list (Row V)) (n : nat),
    let table := groupby_sum (@product_detail V) rows in
    let ranking := nlargest n table in
    StronglySorted ranks_before ranking
    /\ List.length ranking = Nat.min n (List.length table)
    /\ (forall p v, In (p, v) ranking ->
          In p (map (@product_detail V) rows)
          /\ v = group_total (@product_detail V) rows p)
    /\ (forall x y, In x ranking -> In y table ->
          In y ranking \/ ranks_before x y)
    /\ top rows = nlargest 10 table.
Proof.
  intros rows n table ranking.
  assert (S : StronglySorted ranks_before (sort_desc table))
    by apply sort_desc_sorted, groupby_sum_keys.
  assert (P := sort_desc_Permutation table).
  split; [ apply firstn_sorted, S | split; [ | split; [ | split ] ] ].
  - unfold ranking, nlargest. rewrite length_firstn.
    rewrite (Permutation_length P). reflexivity.
  - intros p v Hin.
    assert (Ht : In (p, v) table).
    { apply (Permutation_in _ P). unfold ranking, nlargest in Hin.
      rewrite <- (firstn_skipn n (sort_desc table)).
      apply in_or_app. left. exact Hin. }
    unfold table, groupby_sum in Ht. apply in_map_iff in Ht.
    destruct Ht as [k [Hk Hin']]. inversion Hk; subst.
    split; [ apply unique_sorted_In, Hin' | reflexivity ].
  - intros x y Hx Hy.
    apply (Permutation_in _ (Permutation_sym P)) in Hy.
    rewrite <- (firstn_skipn n (sort_desc table)) in Hy.
    apply in_app_or in Hy. destruct Hy as [Hy | Hy].
    + left. exact Hy.
    + right.
      exact (@firstn_skipn_sorted _ ranks_before n (sort_desc table) x y
               S Hx Hy).
  - reflexivity.
Qed.
End TopProducts.


(* ================================================================== *)
(** * Frequent itemsets: what the miner reports *)

Lemma subseq_incl {A : Type} (l1 l2 : list A) : subseq l1 l2 -> incl l1 l2.
Proof. intros S x Hx. apply (subseq_In x S Hx). Qed.

Lemma subseq_Forall {A : Type} (P : A -> Prop) (l1 l2 : list A) :
  subseq l1 l2 -> Forall P l2 -> Forall P l1.
Proof.
  intros S F. rewrite Forall_forall in *. intros x Hx.
  apply F, (subseq_In x S Hx).
Qed.

Lemma subseq_sorted {A : Type} (R : A -> A -> Prop) (l1 l2 : list A) :
  subseq l1 l2 -> StronglySorted R l2 -> StronglySorted R l1.
Proof.
  induction 1 as [ | x l1 l2 S IH | x l1 l2 S IH ]; intros St.
  - constructor.
  - inversion St; subst. apply IH. assumption.
  - inversion St as [ | ? ? Sl Hx ]; subst.
    constructor; [ apply IH, Sl | apply (subseq_Forall S Hx) ].
Qed.

Lemma subseq_removelast {A : Type} (l : list A) : subseq (removelast l) l.
Proof.
  induction l as [ | x l IH ]; simpl; [ constructor | ].
  destruct l as [ | y l ]; [ repeat constructor | ].
  apply subseq_keep, IH.
Qed.

Lemma subseq_firstn {A : Type} (n : nat) (l : list A) : subseq (firstn n l) l.
Proof.
  revert l. induction n as [ | n IH ]; intros l; simpl.
  - apply subseq_nil_l.
  - destruct l as [ | x l ]; [ constructor | apply subseq_keep, IH ].
Qed.

Lemma subseq_map_inv {A B : Type} (f : A -> B) (l : list A) (t : list B) :
  subseq t (map f l) -> exists l', subseq l' l /\ t = map f l'.
Proof.
  revert t. induction l as [ | x l IH ]; simpl; intros t S.
  - inversion S; subst. exists []. split; constructor.
  - inversion S as [ | ? ? ? S' | ? t' ? S' ]; subst.
    + destruct (IH t S') as [l' [Hs Ht]]. exists l'.
      split; [ apply subseq_skip, Hs | exact Ht ].
    + destruct (IH t' S') as [l' [Hs Ht]]. exists (x :: l').
      split; [ apply subseq_keep, Hs | simpl; rewrite Ht; reflexivity ].
Qed.

Lemma sorted_lt_app (l : list nat) (x : nat) :
  StronglySorted lt l -> (forall y, In y l -> y < x) ->
  StronglySorted lt (l ++ [x]).
Proof.
  induction 1 as [ | a l S IH Ha ]; simpl; intros H.
  - constructor; constructor.
  - constructor.
    + apply IH. intros y Hy. apply H. right. exact Hy.
    + rewrite Forall_forall in *. intros y Hy.
      apply in_app_or in Hy. destruct Hy as [Hy | [<- | []]].
      * apply Ha, Hy.
      * apply H. left. reflexivity.
Qed.

Lemma sorted_lt_app_inv (l : list nat) (x y : nat) :
  StronglySorted lt (l ++ [x]) -> In y l -> y < x.
Proof.
  induction l as [ | a l IH ]; simpl; intros S Hy; [ contradiction | ].
  inversion S as [ | ? ? Sl Ha ]; subst.
  destruct Hy as [<- | Hy].
  - rewrite Forall_forall in Ha. apply Ha. apply in_or_app. right.
    left. reflexivity.
  - apply IH; assumption.
Qed.

Lemma sorted_lt_le_last (l : list nat) (d : nat) :
  StronglySorted lt l -> forall y, In y l -> y <= last l d.
Proof.
  induction 1 as [ | a l S IH Ha ]; intros y Hy; [ contradiction | ].
  destruct l as [ | b l ].
  - destruct Hy as [<- | []]. simpl. lia.
  - change (last (a :: b :: l) d) with (last (b :: l) d).
    destruct Hy as [<- | Hy]; [ | apply IH, Hy ].
    rewrite Forall_forall in Ha.
    assert (a < b) by (apply Ha; left; reflexivity).
    assert (b <= last (b :: l) d) by (apply IH; left; reflexivity).
    lia.
Qed.

Lemma last_In {A : Type} (l : list A) (d : A) : l <> [] -> In (last l d) l.
Proof.
  induction l as [ | x l IH ]; intros H; [ contradiction | ].
  destruct l as [ | y l ]; [ left; reflexivity | ].
  right. apply IH. discriminate.
Qed.

Lemma sorted_lt_length (l : list nat) (n : nat) :
  StronglySorted lt l -> Forall (fun j => j < n) l -> List.length l <= n.
Proof.
  intros S F.
  rewrite <- (length_seq n 0). apply NoDup_incl_length.
  - clear F. induction S as [ | a l S IH Ha ]; constructor; [ | exact IH ].
    intros Hin. rewrite Forall_forall in Ha. specialize (Ha a Hin). lia.
  - intros x Hx. rewrite Forall_forall in F. apply in_seq.
    specialize (F x Hx). lia.
Qed.

Lemma filter_length_le {A : Type} (f g : A -> bool) (l : list A) :
  (forall x, f x = true -> g x = true) ->
  List.length (filter f l) <= List.length (filter g l).
Proof.
  intros H. induction l as [ | x l IH ]; simpl; [ lia | ].
  destruct (f x) eqn:F.
  - rewrite (H x F). simpl. lia.
  - destruct (g x); simpl; lia.
Qed.

Section Support.
Variable X : list (list bool).
Variable min_support : Q.

Lemma row_has_incl (row : list bool) (s t : combo) :
  incl t s -> row_has row s = true -> row_has row t = true.
Proof.
  unfold row_has. rewrite !forallb_forall. intros I H j Hj.
  apply H, I, Hj.
Qed.

(** A part of an itemset is contained in at least as many baskets. *)
Lemma support_antimonotone (s t : combo) :
  incl t s -> (support X s <= support X t)%Q.
Proof.
  intros I. unfold support, Qdiv.
  apply Qmult_le_compat_r.
  - rewrite <- Zle_Qle. apply Nat2Z.inj_le. unfold count_rows.
    apply filter_length_le. intros row. apply row_has_incl, I.
  - apply Qinv_le_0_compat. rewrite <- (Zle_Qle 0). lia.
Qed.

Lemma is_frequent_incl (s t : combo) :
  incl t s ->
  is_frequent X min_support s = true -> is_frequent X min_support t = true.
Proof.
  unfold is_frequent. rewrite !Qle_bool_iff. intros I H.
  eapply Qle_trans; [ exact H | apply support_antimonotone, I ].
Qed.
End Support.

Section Levels.
Variable X : list (list bool).
Variable min_support : Q.
Variable ncols : nat.

#[local] Abbreviation good := (good X min_support ncols).
#[local] Abbreviation level_of := (level_of X min_support ncols).
#[local] Abbreviation next_level := (next_level X min_support).
#[local] Abbreviation found_upto := (found_upto X min_support ncols).

Lemma good_subseq (k : nat) (c c' : combo) :
  good k c -> subseq c' c -> good (List.length c') c'.
Proof.
  intros [_ [Hs [F Hq]]] Sub. repeat split.
  - apply (subseq_sorted Sub Hs).
  - apply (subseq_Forall Sub F).
  - apply (is_frequent_incl _ _ (subseq_incl Sub) Hq).
Qed.

Lemma good_length (k : nat) (c : combo) : good k c -> k <= ncols.
Proof.
  intros [L [Hs [F _]]]. rewrite <- L. apply sorted_lt_length; assumption.
Qed.

Lemma good_prefix (j k : nat) (c : combo) :
  good j c -> k <= j -> good k (firstn k c).
Proof.
  intros G Hk.
  assert (L : List.length (firstn k c) = k).
  { rewrite length_firstn. destruct G as [L _]. lia. }
  rewrite <- L at 1. apply (good_subseq G), subseq_firstn.
Qed.

Lemma generate_new_combinations_In (cur : list combo) (c : combo) :
  In c (generate_new_combinations cur)
  <-> exists old item,
        c = old ++ [item] /\ In old cur
        /\ (exists other, In other cur /\ In item other)
        /\ last old 0 < item.
Proof.
  unfold generate_new_combinations. rewrite in_flat_map. split.
  - intros [old [Ho Hc]]. apply in_map_iff in Hc.
    destruct Hc as [item [<- Hi]]. apply filter_In in Hi.
    destruct Hi as [Hi Hl]. apply (proj1 (unique_sorted_In _ _)) in Hi.
    apply in_concat in Hi. destruct Hi as [other [H1 H2]].
    exists old, item. repeat split; auto.
    + exists other. auto.
    + apply Nat.ltb_lt, Hl.
  - intros [old [item [-> [Ho [[other [H1 H2]] Hl]]]]].
    exists old. split; [ exact Ho | ].
    apply in_map_iff. exists item. split; [ reflexivity | ].
    apply filter_In. split.
    + apply unique_sorted_In, in_concat. exists other. auto.
    + apply Nat.ltb_lt, Hl.
Qed.

(** From the good itemsets of size [k] the candidate generation and the
    support filter produce exactly the good itemsets of size [k + 1]. *)
Lemma next_level_spec (k : nat) (cur : list combo) :
  1 <= k -> level_of k cur -> level_of (S k) (next_level cur).
Proof.
  intros Hk Hcur c. unfold next_level.
  rewrite filter_In, generate_new_combinations_In. split.
  - intros [[old [item [-> [Ho [[other [H1 H2]] Hl]]]]] Hq].
    apply Hcur in Ho. apply Hcur in H1.
    destruct Ho as [Lo [So [Fo _]]]. destruct H1 as [_ [_ [F1 _]]].
    repeat split.
    + rewrite length_app. simpl. lia.
    + apply sorted_lt_app; [ exact So | ]. intros y Hy.
      pose proof (sorted_lt_le_last 0 So y Hy). lia.
    + apply Forall_app. split; [ exact Fo | ].
      constructor; [ | constructor ].
      rewrite Forall_forall in F1. apply F1, H2.
    + exact Hq.
  - intros G. assert (G' := G). destruct G' as [L [Hs [F Hq]]].
    split; [ | exact Hq ].
    assert (Hne : c <> []) by (intros ->; discriminate).
    pose proof (app_removelast_last 0 Hne) as Hc.
    set (old := removelast c) in *. set (item := last c 0) in *.
    assert (Lold : List.length old = k).
    { apply (f_equal (@List.length nat)) in Hc.
      rewrite length_app in Hc. simpl in Hc. lia. }
    exists old, item. split; [ exact Hc | ]. repeat split.
    + apply Hcur. rewrite <- Lold.
      apply (good_subseq G). apply subseq_removelast.
    + exists (tl c). split.
      * apply Hcur.
        assert (Lt : List.length (tl c) = k)
          by (destruct c; simpl in *; [ discriminate | lia ]).
        rewrite <- Lt. apply (good_subseq G).
        destruct c; [ constructor | apply subseq_skip, subseq_refl ].
      * unfold item. destruct c as [ | a [ | b c ] ]; simpl in L.
        -- discriminate.
        -- lia.
        -- change (last (a :: b :: c) 0) with (last (b :: c) 0).
           apply last_In. discriminate.
    + rewrite Hc in Hs. eapply sorted_lt_app_inv; [ exact Hs | ].
      apply last_In. intros E. rewrite E in Lold. simpl in Lold. lia.
Qed.

Lemma apriori_loop_step (fuel : nat) (cur found : list combo) :
  apriori_loop (S fuel) X min_support cur found
  = match next_level cur with
    | [] => found
    | kept => apriori_loop fuel X min_support kept (found ++ kept)
    end.
Proof.
  simpl. unfold next_level.
  destruct (generate_new_combinations cur); reflexivity.
Qed.

(** The loop returns exactly the good itemsets of every size. *)
Lemma apriori_loop_spec (fuel k : nat) (cur found : list combo) :
  1 <= k -> ncols <= fuel + k ->
  level_of k cur -> found_upto k found ->
  forall c, In c (apriori_loop fuel X min_support cur found)
            <-> exists j, 1 <= j /\ good j c.
Proof.
  revert k cur found.
  induction fuel as [ | fuel IH ]; intros k cur found Hk Hf Hcur Hfound c.
  - simpl. rewrite (Hfound c). split.
    + intros [j [Hj G]]. exists j. split; [ lia | exact G ].
    + intros [j [Hj G]]. exists j. split; [ | exact G ].
      pose proof (good_length G). lia.
  - rewrite apriori_loop_step.
    pose proof (next_level_spec Hk Hcur) as Hnext.
    destruct (next_level cur) as [ | c0 kept ] eqn:En.
    + rewrite (Hfound c). split.
      * intros [j [Hj G]]. exists j. split; [ lia | exact G ].
      * intros [j [Hj G]]. exists j. split; [ | exact G ].
        destruct (Nat.le_gt_cases j k) as [Hle | Hgt]; [ lia | ].
        exfalso. apply (in_nil (a := firstn (S k) c)).
        apply Hnext. apply (good_prefix G). lia.
    + apply (IH (S k)); [ lia | lia | exact Hnext | ].
      intros c'. rewrite in_app_iff, (Hfound c'), (Hnext c'). split.
      * intros [[j [Hj G]] | G].
        -- exists j. split; [ lia | exact G ].
        -- exists (S k). split; [ lia | exact G ].
      * intros [j [Hj G]].
        destruct (Nat.eq_dec j (S k)) as [-> | Hne].
        -- right. exact G.
        -- left. exists j. split; [ lia | exact G ].
Qed.

(** The loop has stopped by itself when the fuel is the number of
    columns: more fuel gives the same table. *)
Lemma apriori_loop_fuel (fuel k : nat) (cur found : list combo) :
  1 <= k -> ncols <= fuel + k -> level_of k cur ->
  apriori_loop (S fuel) X min_support cur found
  = apriori_loop fuel X min_support cur found.
Proof.
  revert k cur found.
  induction fuel as [ | fuel IH ]; intros k cur found Hk Hf Hcur.
  - rewrite apriori_loop_step.
    pose proof (next_level_spec Hk Hcur) as Hnext.
    destruct (next_level cur) as [ | c0 kept ]; [ reflexivity | ].
    exfalso. assert (G : good (S k) c0) by (apply Hnext; left; reflexivity).
    pose proof (good_length G). lia.
  - rewrite (apriori_loop_step (S fuel)), (apriori_loop_step fuel).
    pose proof (next_level_spec Hk Hcur) as Hnext.
    destruct (next_level cur) as [ | c0 kept ]; [ reflexivity | ].
    apply (IH (S k)); [ lia | lia | exact Hnext ].
Qed.
End Levels.

Lemma level1_spec (X : list (list bool)) (min_support : Q) (ncols : nat) :
  level_of X min_support ncols 1
    (map (fun j => [j])
         (filter (fun j => is_frequent X min_support [j]) (seq 0 ncols))).
Proof.
  intros c. rewrite in_map_iff. split.
  - intros [j [<- Hj]]. apply filter_In in Hj. destruct Hj as [Hj Hq].
    apply in_seq in Hj. repeat split.
    + repeat constructor.
    + repeat constructor. lia.
    + exact Hq.
  - intros [L [_ [F Hq]]].
    destruct c as [ | j [ | j' c ] ]; try discriminate L.
    exists j. split; [ reflexivity | ].
    apply filter_In. split; [ | exact Hq ].
    apply in_seq. inversion F; subst. lia.
Qed.

(** The miner reports exactly the non-empty, strictly increasing tuples of
    columns whose support reaches the threshold. *)
Lemma frequent_combos_spec (b : Basket) (min_support : Q) (c : combo) :
  In c (frequent_combos b min_support)
  <-> c <> []
      /\ StronglySorted lt c
      /\ Forall (fun j => j < List.length (te_columns b)) c
      /\ is_frequent (te_ary b) min_support c = true.
Proof.
  unfold frequent_combos.
  pose proof (level1_spec (te_ary b) min_support
                          (List.length (te_columns b))) as H1.
  rewrite (@apriori_loop_spec (te_ary b) min_support
             (List.length (te_columns b)) (List.length (te_columns b)) 1
             _ _ (le_n 1)); [ | lia | exact H1 | ].
  - split.
    + intros [j [Hj [L G]]]. split; [ | exact G ].
      intros ->. simpl in L. lia.
    + intros [Hne G]. exists (List.length c). split.
      * destruct c; [ contradiction | simpl; lia ].
      * split; [ reflexivity | exact G ].
  - intros c'. rewrite (H1 c'). split.
    + intros G. exists 1. split; [ lia | exact G ].
    + intros [j [Hj G]]. replace 1 with j by lia. exact G.
Qed.

(** The number of columns is enough fuel for the loop. *)
Lemma frequent_combos_fuel (b : Basket) (min_support : Q) (extra : nat) :
  let X := te_ary b in
  let ncols := List.length (te_columns b) in
  let level1 :=
    map (fun j => [j])
        (filter (fun j => is_frequent X min_support [j]) (seq 0 ncols)) in
  apriori_loop (ncols + extra) X min_support level1 level1
  = frequent_combos b min_support.
Proof.
  intros X ncols level1. unfold frequent_combos. fold X ncols level1.
  induction extra as [ | extra IH ].
  - rewrite Nat.add_0_r. reflexivity.
  - rewrite Nat.add_succ_r, <- IH.
    apply (@apriori_loop_fuel X min_support ncols (ncols + extra) 1).
    + lia.
    + lia.
    + apply level1_spec.
Qed.

Lemma NoDup_map_nth {A : Type} (cols : list A) (d : A) (c : list nat) :
  NoDup cols -> NoDup c -> Forall (fun j => j < List.length cols) c ->
  NoDup (map (fun j => nth j cols d) c).
Proof.
  intros Hcols. induction 1 as [ | a c Ha Hc IH ]; intros F; simpl.
  - constructor.
  - inversion F as [ | ? ? Fa Fc ]; subst.
    constructor; [ | apply IH, Fc ].
    intros Hin. apply in_map_iff in Hin. destruct Hin as [j [Hj Hin]].
    rewrite Forall_forall in Fc.
    assert (j = a).
    { apply (proj1 (NoDup_nth cols d) Hcols); auto. }
    subst. contradiction.
Qed.

Lemma sorted_lt_NoDup (c : list nat) : StronglySorted lt c -> NoDup c.
Proof.
  induction 1 as [ | a l Hs IH Ha ]; constructor; [ | exact IH ].
  intros Hin. rewrite Forall_forall in Ha. specialize (Ha a Hin). lia.
Qed.

Lemma apriori_reported (b : Basket) (min_support : Q)
    (frequent : list (Q * itemset)) :
  apriori b min_support = Ok frequent ->
  map snd frequent = reported b min_support
  /\ forall sup u, In (sup, u) frequent -> (min_support <= sup)%Q.
Proof.
  unfold apriori. destruct (Qle_bool min_support 0); [ discriminate | ].
  intros H. inversion H; subst; clear H. split.
  - rewrite map_map. reflexivity.
  - intros sup u Hin. apply in_map_iff in Hin.
    destruct Hin as [c [Hc Hin]]. inversion Hc; subst.
    apply frequent_combos_spec in Hin. destruct Hin as [_ [_ [_ Hq]]].
    apply Qle_bool_iff, Hq.
Qed.

(** A non-empty part of a reported itemset, in column order, is
    reported. *)
Lemma reported_subseq (b : Basket) (min_support : Q) (s u : itemset) :
  In s (reported b min_support) -> subseq u s -> u <> [] ->
  In u (reported b min_support).
Proof.
  unfold reported. intros Hs Hsub Hne.
  apply in_map_iff in Hs. destruct Hs as [c [<- Hc]].
  apply frequent_combos_spec in Hc.
  destruct Hc as [_ [Hsorted [Hvalid Hfreq]]].
  destruct (subseq_map_inv _ _ Hsub) as [c' [Hc' ->]].
  apply in_map. apply frequent_combos_spec. split; [ | repeat split ].
  - intros ->. apply Hne. reflexivity.
  - apply (subseq_sorted Hc' Hsorted).
  - apply (subseq_Forall Hc' Hvalid).
  - apply (is_frequent_incl _ _ (subseq_incl Hc') Hfreq).
Qed.

(** The names of a reported itemset are distinct when the columns are. *)
Lemma reported_NoDup (b : Basket) (min_support : Q) (s : itemset) :
  NoDup (te_columns b) -> In s (reported b min_support) -> NoDup s.
Proof.
  unfold reported. intros Hcols Hs.
  apply in_map_iff in Hs. destruct Hs as [c [<- Hc]].
  apply frequent_combos_spec in Hc.
  destruct Hc as [_ [Hsorted [Hvalid _]]].
  apply NoDup_map_nth; [ exact Hcols | apply sorted_lt_NoDup, Hsorted | ].
  exact Hvalid.
Qed.

Lemma basket_columns_NoDup (txs : list (list string)) :
  NoDup (te_columns (basket txs)).
Proof. apply (unique_sorted_NoDup (K := string)). Qed.

(** C1.  Every non-empty subset of an itemset that the miner reports is
    reported too, with a support that reaches the threshold: no itemset is
    retained unless all its parts are frequent. *)
Theorem apriori_antimonotone :
  forall (txs : list (list string)) (min_support : Q)
         (frequent : list (Q * itemset)),
    apriori (basket txs) min_support = Ok frequent ->
    forall s t : itemset,
      In s (map snd frequent) ->
      t <> [] -> NoDup t -> incl t s ->
      exists sup u,
        In (sup, u) frequent /\ Permutation u t /\ (min_support <= sup)%Q.
Proof.
  intros txs min_support frequent Hap s t Hs Hne Hnd Hincl.
  destruct (@apriori_reported (basket txs) min_support frequent Hap)
    as [Hrep Hsup].
  rewrite Hrep in Hs.
  set (u := filter (fun x => mem x t) s).
  assert (Hin : forall x, In x u <-> In x t).
  { intros x. unfold u. rewrite filter_In, mem_In. split.
    - tauto.
    - intros H. split; [ apply Hincl, H | exact H ]. }
  assert (Hune : u <> []).
  { destruct t as [ | x t ]; [ contradiction | ].
    assert (Hx : In x u) by (apply Hin; left; reflexivity).
    intros E. rewrite E in Hx. exact Hx. }
  assert (Hu : In u (map snd frequent)).
  { rewrite Hrep.
    eapply reported_subseq; [ exact Hs | apply subseq_filter | exact Hune ]. }
  apply in_map_iff in Hu. destruct Hu as [[sup u'] [Eu Hu]].
  simpl in Eu. subst u'.
  exists sup, u. split; [ exact Hu | split; [ | apply (Hsup sup u Hu) ] ].
  apply NoDup_Permutation; [ | exact Hnd | exact Hin ].
  apply NoDup_filter.
  eapply reported_NoDup; [ apply basket_columns_NoDup | exact Hs ].
Qed.

(* ================================================================== *)
(** * Association rules: what the table shows *)

Lemma sequence_In {A : Type} (l : list (result A)) (r : list A) (a : A) :
  sequence l = Ok r -> In a r -> In (Ok a) l.
Proof.
  revert r. induction l as [ | m l IH ]; simpl; intros r H Ha.
  - inversion H; subst. contradiction.
  - destruct m as [x | e]; simpl in H; [ | discriminate ].
    destruct (sequence l) as [r' | e]; simpl in H; [ | discriminate ].
    inversion H; subst. destruct Ha as [-> | Ha].
    + left. reflexivity.
    + right. apply IH with (r := r'); [ reflexivity | exact Ha ].
Qed.

Lemma dropna_In {A : Type} (l : list (option A)) (a : A) :
  In a (dropna l) <-> In (Some a) l.
Proof.
  induction l as [ | [x | ] l IH ]; simpl.
  - reflexivity.
  - rewrite IH. split; intros [H | H]; auto.
    + left. congruence.
    + left. congruence.
  - rewrite IH. split; [ auto | intros [H | H]; [ discriminate | exact H ] ].
Qed.

Section RuleFacts.
Context {F : Type} {Fig : Figure F}.
Variable iter_order : itemset -> itemset.

(** A rule that [rules_of] keeps has passed the lift test, and its parts
    split the itemset. *)
Lemma rules_of_kept (d : list (Q * itemset)) (k : itemset) (sAC : Q)
    (l : list (option (Rule F))) (r : Rule F) :
  rules_of iter_order d k sAC = Ok l -> In (Some r) l ->
  fleb min_threshold (lift r) = true
  /\ rule_support r = of_support sAC
  /\ (forall x, In x k <-> In x (antecedents r) \/ In x (consequents r)).
Proof.
  unfold rules_of. intros H Hr.
  eapply sequence_In in Hr; [ | exact H ].
  apply in_flat_map in Hr. destruct Hr as [idx [_ Hr]].
  apply in_map_iff in Hr. destruct Hr as [c [Hr _]].
  cbv zeta in Hr.
  destruct (dict_get d (filter (fun x => mem x c) k)) as [sA | ];
    cbn [bind] in Hr; [ | discriminate ].
  destruct (dict_get d (filter (fun x => negb (mem x c)) k)) as [sC | ];
    cbn [bind] in Hr; [ | discriminate ].
  destruct (fleb min_threshold
              (fdiv (fdiv (of_support sAC) (of_support sA)) (of_support sC)))
    eqn:B; inversion Hr; subst;
    cbn [antecedents consequents rule_support confidence lift].
  split; [ exact B | split; [ reflexivity | ] ].
  intros x. rewrite !filter_In. destruct (mem x c); simpl; intuition.
Qed.

Lemma association_rules_lift (frequent : list (Q * itemset))
    (rules : list (Rule F)) (r : Rule F) :
  association_rules iter_order frequent = Ok rules -> In r rules ->
  fleb min_threshold (lift r) = true.
Proof.
  unfold association_rules. destruct frequent as [ | e0 f ]; [ discriminate | ].
  set (fr := e0 :: f).
  destruct (sequence (map (fun e => rules_of iter_order fr (snd e) (fst e)) fr))
    as [per | ] eqn:Hs; simpl; [ | discriminate ].
  intros H Hr. inversion H; subst.
  apply dropna_In, in_concat in Hr. destruct Hr as [l [Hl Hr]].
  eapply sequence_In in Hl; [ | exact Hs ].
  apply in_map_iff in Hl. destruct Hl as [e [He _]].
  eapply rules_of_kept; [ exact He | exact Hr ].
Qed.
End RuleFacts.

(** ** The rule generator finds every support it looks up *)

Lemma combinations_spec {A : Type} (r : nat) (l c : list A) :
  In c (combinations r l) -> List.length c = r /\ subseq c l.
Proof.
  revert r c. induction l as [ | x l IH ]; intros [ | r ] c; simpl.
  - intros [<- | []]. split; [ reflexivity | constructor ].
  - contradiction.
  - intros [<- | []]. split; [ reflexivity | apply subseq_nil_l ].
  - intros H. apply in_app_or in H. destruct H as [H | H].
    + apply in_map_iff in H. destruct H as [c' [<- H]].
      destruct (IH r c' H) as [L Hsub]. simpl.
      split; [ rewrite L; reflexivity | apply subseq_keep, Hsub ].
    + destruct (IH (S r) c H) as [L Hsub].
      split; [ exact L | apply subseq_skip, Hsub ].
Qed.

Lemma range_down_In (n idx : nat) :
  In idx (range_down n) -> 1 <= idx < n.
Proof.
  unfold range_down. rewrite <- in_rev, in_seq. lia.
Qed.

Lemma sequence_ok {A : Type} (l : list (result A)) :
  (forall m, In m l -> exists a, m = Ok a) -> exists r, sequence l = Ok r.
Proof.
  induction l as [ | m l IH ]; simpl; intros H.
  - exists []. reflexivity.
  - destruct (H m (or_introl eq_refl)) as [a ->].
    destruct IH as [r Hr]; [ intros m' Hm'; apply H; right; exact Hm' | ].
    rewrite Hr. simpl. exists (a :: r). reflexivity.
Qed.

Lemma itemset_eqb_refl (k : itemset) : itemset_eqb k k = true.
Proof.
  induction k as [ | x k IH ]; simpl; [ reflexivity | ].
  rewrite String.eqb_refl. exact IH.
Qed.

Lemma dict_get_ok (d : list (Q * itemset)) (k : itemset) :
  In k (map snd d) -> exists s, dict_get d k = Ok s.
Proof.
  induction d as [ | [s k'] d IH ]; simpl; intros H; [ contradiction | ].
  destruct (itemset_eqb k k') eqn:B; [ exists s; reflexivity | ].
  destruct H as [-> | H]; [ | apply IH, H ].
  rewrite itemset_eqb_refl in B. discriminate.
Qed.

Lemma filter_nil_inv {A : Type} (f : A -> bool) (l : list A) (x : A) :
  filter f l = [] -> In x l -> f x = false.
Proof.
  intros H Hx. destruct (f x) eqn:B; [ | reflexivity ].
  assert (Hin : In x (filter f l)) by (apply filter_In; auto).
  rewrite H in Hin. contradiction.
Qed.

Lemma association_rules_nonempty {F : Type} {Fig : Figure F}
    (iter_order : itemset -> itemset) (frequent : list (Q * itemset)) :
  frequent <> [] ->
  association_rules (F := F) iter_order frequent
  = (per_itemset <-
       sequence (map (fun e => rules_of iter_order frequent (snd e) (fst e))
                     frequent) ;;
     Ok (dropna (List.concat per_itemset))).
Proof.
  destruct frequent; [ contradiction | reflexivity ].
Qed.

Section RulesTotal.
Context {F : Type} {Fig : Figure F}.
Variable iter_order : itemset -> itemset.
Hypothesis iter_order_perm : forall l, Permutation (iter_order l) l.
Variable b : Basket.
Variable min_support : Q.
Variable frequent : list (Q * itemset).
Hypothesis frequent_reported : map snd frequent = reported b min_support.
Hypothesis columns_NoDup : NoDup (te_columns b).

Lemma rules_of_ok (k : itemset) (sAC : Q) :
  In k (reported b min_support) ->
  exists l, rules_of (F := F) iter_order frequent k sAC = Ok l.
Proof.
  intros Hk. unfold rules_of. apply sequence_ok. intros m Hm.
  apply in_flat_map in Hm. destruct Hm as [idx [Hidx Hm]].
  apply in_map_iff in Hm. destruct Hm as [c [<- Hc]].
  apply range_down_In in Hidx.
  apply combinations_spec in Hc. destruct Hc as [Lc Hsub].
  assert (Hck : forall x, In x c -> In x k).
  { intros x Hx. apply (Permutation_in _ (iter_order_perm k)).
    apply (subseq_In x Hsub Hx). }
  assert (Ha : In (filter (fun x => mem x c) k) (map snd frequent)).
  { rewrite frequent_reported.
    eapply reported_subseq; [ exact Hk | apply subseq_filter | ].
    destruct c as [ | x c ]; [ simpl in Lc; lia | ].
    intros E.
    pose proof (@filter_nil_inv _ _ _ x E (Hck x (or_introl eq_refl))) as Hf.
    assert (Ht : mem x (x :: c) = true) by (apply mem_In; left; reflexivity).
    congruence. }
  assert (Hb : In (filter (fun x => negb (mem x c)) k) (map snd frequent)).
  { rewrite frequent_reported.
    eapply reported_subseq; [ exact Hk | apply subseq_filter | ].
    intros E.
    assert (Hincl : incl k c).
    { intros x Hx. apply mem_In.
      pose proof (@filter_nil_inv _ _ _ x E Hx) as Hn.
      apply negb_false_iff in Hn. exact Hn. }
    pose proof (NoDup_incl_length
                  (@reported_NoDup b min_support k columns_NoDup Hk) Hincl).
    lia. }
  destruct (@dict_get_ok frequent _ Ha) as [sA ->].
  destruct (@dict_get_ok frequent _ Hb) as [sC ->].
  simpl. eexists. reflexivity.
Qed.

Lemma association_rules_ok :
  frequent <> [] ->
  exists rules, association_rules (F := F) iter_order frequent = Ok rules.
Proof.
  intros Hne. rewrite (association_rules_nonempty iter_order Hne).
  destruct (sequence_ok
              (map (fun e => rules_of iter_order frequent (snd e) (fst e))
                   frequent)) as [per Hper].
  - intros m Hm. apply in_map_iff in Hm. destruct Hm as [e [<- He]].
    apply rules_of_ok. rewrite <- frequent_reported. apply in_map, He.
  - rewrite Hper. simpl. eexists. reflexivity.
Qed.
End RulesTotal.

(** The callback returns exactly when some item is frequent in the
    filtered rows; otherwise it raises the rule generator's [ValueError].
    No other exception occurs. *)
Lemma update_dashboard_outcome (iter_order : itemset -> itemset)
    (df : list (Row Q)) (store_selection mois_selection : list string) :
  (forall l, Permutation (iter_order l) l) ->
  let rows := df_filtered df store_selection mois_selection in
  match frequent_combos (basket (transactions rows)) (2 # 100) with
  | [] =>
      update_dashboard iter_order df store_selection mois_selection
      = Raise (ValueError
          "The input DataFrame `df` containing the frequent itemsets is empty.")
  | _ :: _ =>
      exists out,
        update_dashboard iter_order df store_selection mois_selection = Ok out
  end.
Proof.
  intros Hperm rows. unfold update_dashboard. fold rows.
  rewrite ticket_moyen_value. cbn [bind].
  set (b := basket (transactions rows)).
  assert (Hap : apriori b (2 # 100)
                = Ok (map (fun c => (support (te_ary b) c,
                                     colnames (te_columns b) c))
                          (frequent_combos b (2 # 100)))) by reflexivity.
  rewrite Hap. cbn [bind].
  destruct (frequent_combos b (2 # 100)) as [ | c0 cs ] eqn:Ef.
  - reflexivity.
  - rewrite <- Ef in *.
    destruct (@association_rules_ok float binary64_Figure iter_order Hperm
                b (2 # 100) _
                (proj1 (apriori_reported _ _ Hap))
                (basket_columns_NoDup (transactions rows)))
      as [rules Hr].
    + rewrite Ef. discriminate.
    + rewrite Hr. cbn [bind]. eexists. reflexivity.
Qed.

Lemma rint_floor (q : Q) : (Qfloor q <= rint q)%Z.
Proof.
  unfold rint. cbv zeta.
  destruct (Qcompare (q - inject_Z (Qfloor q)) (1 # 2));
    [ destruct (Z.even (Qfloor q)) | | ]; lia.
Qed.

(** Rounding to three decimals does not take a value below 1.2. *)
Lemma round3_lift (q : Q) : (12 # 10 <= q)%Q -> (12 # 10 <= round3 q)%Q.
Proof.
  intros H. unfold round3.
  assert (Hz : (1200 <= rint (q * 1000))%Z).
  { eapply Z.le_trans; [ | apply rint_floor ].
    rewrite <- (Qfloor_Z 1200). apply Qfloor_resp_le.
    setoid_replace (inject_Z 1200) with ((12 # 10) * 1000)%Q by reflexivity.
    apply Qmult_le_compat_r; [ exact H | discriminate ]. }
  revert Hz. generalize (rint (q * 1000)). intros z Hz.
  unfold Qle, Qdiv, Qmult, Qinv, inject_Z; simpl. lia.
Qed.

Lemma firstn_Forall {A : Type} (P : A -> Prop) (n : nat) (l : list A) :
  Forall P l -> Forall P (firstn n l).
Proof.
  intros F. rewrite Forall_forall in *. intros x Hx. apply F.
  rewrite <- (firstn_skipn n l). apply in_or_app. left. exact Hx.
Qed.

(** The table of association rules is the head of the generator's list:
    its first ten rules in the order the rule generator emits them, every
    one with a binary64 lift that is at least the binary64 value of 1.2.
    Nothing reorders the rows. *)
Lemma panier_rules (iter_order : itemset -> itemset) (df : list (Row Q))
    (store_selection mois_selection : list string) (out : Outputs) :
  update_dashboard iter_order df store_selection mois_selection = Ok out ->
  exists frequent rules,
    apriori (basket (transactions
               (df_filtered df store_selection mois_selection))) (2 # 100)
      = Ok frequent
    /\ association_rules iter_order frequent = Ok rules
    /\ panier out = firstn 10 (map (table_row iter_order) rules)
    /\ List.length (panier out) <= 10
    /\ Forall (fun r => PrimFloat.leb 0x1.3333333333333p+0 (lift r) = true)
              rules.
Proof.
  intros H. unfold update_dashboard in H.
  set (rows := df_filtered df store_selection mois_selection) in *.
  destruct (ticket_moyen rows) as [ticket | ]; cbn [bind] in H;
    [ | discriminate ].
  destruct (apriori (basket (transactions rows)) (2 # 100))
    as [frequent | ] eqn:Ha; cbn [bind] in H; [ | discriminate ].
  destruct (association_rules iter_order frequent) as [rules | ] eqn:Hr;
    cbn [bind] in H; [ | discriminate ].
  inversion H; subst; simpl. exists frequent, rules.
  repeat split; auto.
  - unfold panier_table. rewrite length_firstn. lia.
  - rewrite Forall_forall. intros r Hin.
    change (fleb min_threshold (lift r) = true).
    eapply association_rules_lift; [ exact Hr | exact Hin ].
Qed.

(* ================================================================== *)
(** * An empty selection *)

Lemma boolean_index_nil_mask {A : Type} (df : list A) (mask : list bool) :
  Forall (fun b => b = false) mask -> boolean_index df mask = [].
Proof.
  revert mask. induction df as [ | r df IH ]; intros mask F; simpl.
  - reflexivity.
  - destruct mask as [ | b mask ]; [ reflexivity | ].
    inversion F; subst. apply IH. assumption.
Qed.

(** An empty selection of locations, or of months, keeps no row. *)
Lemma df_filtered_no_store {V : Type} (df : list (Row V))
    (mois_selection : list string) :
  df_filtered df [] mois_selection = [].
Proof.
  unfold df_filtered, selection_mask. apply boolean_index_nil_mask.
  apply Forall_forall. intros b Hb. apply in_map_iff in Hb.
  destruct Hb as [r [<- _]]. reflexivity.
Qed.

Lemma df_filtered_no_month {V : Type} (df : list (Row V))
    (store_selection : list string) :
  df_filtered df store_selection [] = [].
Proof.
  unfold df_filtered, selection_mask. apply boolean_index_nil_mask.
  apply Forall_forall. intros b Hb. apply in_map_iff in Hb.
  destruct Hb as [r [<- _]]. apply andb_false_r.
Qed.

(** C3 (what the code does).  When no row passes the filter, the miner
    finds no itemset and the rule generator rejects the empty table: the
    callback raises [ValueError] and delivers no output, where the claim
    asks for zero KPIs, empty series and an empty list of rules. *)
Theorem update_dashboard_empty_subset :
  forall (iter_order : itemset -> itemset) (df : list (Row Q))
         (store_selection mois_selection : list string),
    df_filtered df store_selection mois_selection = [] ->
    update_dashboard iter_order df store_selection mois_selection
    = Raise (ValueError
        "The input DataFrame `df` containing the frequent itemsets is empty.").
Proof.
  intros iter_order df stores months H.
  unfold update_dashboard. rewrite H. reflexivity.
Qed.

(* ================================================================== *)
(** * Determinism *)

Lemma mem_ext (x : string) (l1 l2 : list string) :
  (forall y, In y l1 <-> In y l2) -> mem x l1 = mem x l2.
Proof. intros H. apply eq_true_iff_eq. rewrite !mem_In. apply H. Qed.

Lemma df_filtered_ext {V : Type} (df : list (Row V))
    (s1 s2 m1 m2 : list string) :
  (forall x, In x s1 <-> In x s2) -> (forall x, In x m1 <-> In x m2) ->
  df_filtered df s1 m1 = df_filtered df s2 m2.
Proof.
  intros Hs Hm. unfold df_filtered, selection_mask, isin. f_equal.
  apply map_ext. intros r.
  rewrite (@mem_ext (store_location r) s1 s2 Hs).
  rewrite (@mem_ext (mois r) m1 m2 Hm). reflexivity.
Qed.

Lemma association_rules_ext {F : Type} {Fig : Figure F}
    (o1 o2 : itemset -> itemset) (frequent : list (Q * itemset)) :
  (forall l, o1 l = o2 l) ->
  association_rules (F := F) o1 frequent = association_rules o2 frequent.
Proof.
  intros H. unfold association_rules.
  destruct frequent as [ | e0 f ]; [ reflexivity | ].
  do 2 f_equal. apply map_ext. intros e. unfold rules_of. f_equal.
  apply flat_map_ext. intros idx. rewrite H. reflexivity.
Qed.

Lemma panier_table_ext {F : Type} {Fig : Figure F}
    (o1 o2 : itemset -> itemset) (rules : list (Rule F)) :
  (forall l, o1 l = o2 l) -> panier_table o1 rules = panier_table o2 rules.
Proof.
  intros H. unfold panier_table. f_equal. apply map_ext. intros r.
  unfold table_row, join. rewrite !H. reflexivity.
Qed.

(** ** The rules do not depend on the iteration order; their order does *)

Lemma combinations_0 {A : Type} (l : list A) : combinations 0 l = [[]].
Proof. destruct l; reflexivity. Qed.

Lemma mem_cons_ext (x : string) (c c' : itemset) :
  (forall z, mem z c = mem z c') ->
  forall z, mem z (x :: c) = mem z (x :: c').
Proof.
  intros H z.
  change (key_eqb z x || mem z c = key_eqb z x || mem z c').
  rewrite (H z). reflexivity.
Qed.

Lemma Permutation_map_pointwise {A B : Type} (f f' : A -> B) (l : list A) :
  (forall a, f a = f' a) -> Permutation (map f l) (map f' l).
Proof. intros H. rewrite (map_ext f f' H). apply Permutation_refl. Qed.

(** The combinations of a permuted list are the same sets of members, in
    another order: whatever is computed from the members of a combination
    alone is computed the same number of times. *)
Lemma combinations_Permutation {B : Type} (l1 l2 : itemset) :
  Permutation l1 l2 ->
  forall (r : nat) (g : itemset -> B),
    (forall c c', (forall z, mem z c = mem z c') -> g c = g c') ->
    Permutation (map g (combinations r l1)) (map g (combinations r l2)).
Proof.
  induction 1 as [ | x l l' _ IH | x y l | l l' l'' _ IH1 _ IH2 ];
    intros r g Hg.
  - apply Permutation_refl.
  - destruct r as [ | r ]; [ apply Permutation_refl | ].
    cbn [combinations]. rewrite !map_app, !map_map.
    apply Permutation_app.
    + apply (IH r (fun c => g (x :: c))).
      intros c c' Hc. apply Hg, mem_cons_ext, Hc.
    + apply IH, Hg.
  - destruct r as [ | [ | r ] ].
    + apply Permutation_refl.
    + cbn [combinations]. rewrite !combinations_0. cbn [map app].
      apply perm_swap.
    + cbn [combinations].
      repeat (rewrite map_app || rewrite map_map).
      rewrite <- !app_assoc. apply Permutation_app.
      * apply Permutation_map_pointwise. intros c. apply Hg. intros z.
        change (key_eqb z y || (key_eqb z x || mem z c)
                = key_eqb z x || (key_eqb z y || mem z c)).
        destruct (key_eqb z y), (key_eqb z x); reflexivity.
      * rewrite !app_assoc. apply Permutation_app_tail.
        apply Permutation_app_comm.
  - eapply Permutation_trans; [ apply IH1, Hg | apply IH2, Hg ].
Qed.

Lemma Permutation_flat_map_pointwise {A B : Type} (f f' : A -> list B)
    (l : list A) :
  (forall a, Permutation (f a) (f' a)) ->
  Permutation (flat_map f l) (flat_map f' l).
Proof.
  intros H. induction l as [ | a l IH ]; simpl;
    [ constructor | apply Permutation_app; auto ].
Qed.

Lemma sequence_Permutation {A : Type} (l l' : list (result A)) :
  Permutation l l' ->
  forall r, sequence l = Ok r ->
            exists r', sequence l' = Ok r' /\ Permutation r r'.
Proof.
  induction 1 as [ | m l l' _ IH | m1 m2 l | l l' l'' _ IH1 _ IH2 ];
    intros r H.
  - exists r. split; [ exact H | apply Permutation_refl ].
  - cbn [sequence] in *.
    destruct m as [a | e]; cbn [bind] in *; [ | discriminate ].
    destruct (sequence l) as [r0 | ]; cbn [bind] in H; [ | discriminate ].
    inversion H; subst. destruct (IH r0 eq_refl) as [r0' [E P]].
    rewrite E. cbn [bind]. exists (a :: r0').
    split; [ reflexivity | apply perm_skip, P ].
  - cbn [sequence] in *.
    destruct m2 as [a2 | ]; cbn [bind] in *; [ | discriminate ].
    destruct m1 as [a1 | ]; cbn [bind] in *; [ | discriminate ].
    destruct (sequence l) as [r0 | ]; cbn [bind] in *; [ | discriminate ].
    inversion H; subst. exists (a1 :: a2 :: r0).
    split; [ reflexivity | apply perm_swap ].
  - destruct (IH1 r H) as [r' [E P]]. destruct (IH2 r' E) as [r'' [E' P']].
    exists r''. split; [ exact E' | eapply Permutation_trans; eassumption ].
Qed.

Lemma dropna_Permutation {A : Type} (l l' : list (option A)) :
  Permutation l l' -> Permutation (dropna l) (dropna l').
Proof.
  induction 1 as [ | [a | ] l l' _ IH | [a | ] [b | ] l
                   | l l' l'' _ IH1 _ IH2 ]; simpl.
  - constructor.
  - apply perm_skip, IH.
  - exact IH.
  - apply perm_swap.
  - apply Permutation_refl.
  - apply Permutation_refl.
  - apply Permutation_refl.
  - eapply Permutation_trans; eassumption.
Qed.

Lemma concat_Permutation {A : Type} (ls ls' : list (list A)) :
  Forall2 (@Permutation A) ls ls' ->
  Permutation (List.concat ls) (List.concat ls').
Proof.
  induction 1; simpl; [ constructor | apply Permutation_app; assumption ].
Qed.

Lemma sequence_map_Forall2 {A B : Type} (R : B -> B -> Prop)
    (f1 f2 : A -> result B) (es : list A) :
  (forall e b1 b2, In e es -> f1 e = Ok b1 -> f2 e = Ok b2 -> R b1 b2) ->
  forall p1 p2,
    sequence (map f1 es) = Ok p1 -> sequence (map f2 es) = Ok p2 ->
    Forall2 R p1 p2.
Proof.
  induction es as [ | e es IH ]; simpl; intros HR p1 p2 A1 A2.
  - inversion A1; inversion A2; constructor.
  - destruct (f1 e) as [b1 | ] eqn:E1; cbn [bind] in A1; [ | discriminate ].
    destruct (sequence (map f1 es)) as [q1 | ]; cbn [bind] in A1;
      [ | discriminate ].
    destruct (f2 e) as [b2 | ] eqn:E2; cbn [bind] in A2; [ | discriminate ].
    destruct (sequence (map f2 es)) as [q2 | ]; cbn [bind] in A2;
      [ | discriminate ].
    inversion A1; inversion A2; subst. constructor.
    + apply (HR e); [ left; reflexivity | exact E1 | exact E2 ].
    + apply IH; [ | reflexivity | reflexivity ].
      intros e' c1 c2 Hin. apply HR. right. exact Hin.
Qed.

Section OrderIndependence.
Context {F : Type} {Fig : Figure F}.
Variables o1 o2 : itemset -> itemset.
Hypothesis orders : forall l, Permutation (o1 l) (o2 l).

(** The candidate rules of one itemset are the same under both iteration
    orders, up to their order. *)
Lemma rules_of_Permutation (d : list (Q * itemset)) (k : itemset) (sAC : Q)
    (l1 l2 : list (option (Rule F))) :
  rules_of o1 d k sAC = Ok l1 -> rules_of o2 d k sAC = Ok l2 ->
  Permutation l1 l2.
Proof.
  unfold rules_of. intros H1 H2.
  match type of H1 with
  | sequence ?c1 = _ =>
      match type of H2 with
      | sequence ?c2 = _ => assert (Pc : Permutation c1 c2)
      end
  end.
  { apply Permutation_flat_map_pointwise. intros idx.
    apply combinations_Permutation; [ apply orders | ].
    intros c c' Hc. cbv zeta.
    assert (Ea : filter (fun x => mem x c) k = filter (fun x => mem x c') k)
      by (apply filter_ext; exact Hc).
    assert (Ec : filter (fun x => negb (mem x c)) k
                 = filter (fun x => negb (mem x c')) k)
      by (apply filter_ext; intros x; rewrite (Hc x); reflexivity).
    rewrite Ea, Ec. reflexivity. }
  destruct (@sequence_Permutation _ _ _ Pc _ H1) as [r' [E P]].
  rewrite H2 in E. inversion E; subst. exact P.
Qed.

(** The rule generator yields the same rules under both iteration orders,
    up to their order in the list. *)
Lemma association_rules_Permutation (frequent : list (Q * itemset))
    (rules1 rules2 : list (Rule F)) :
  association_rules o1 frequent = Ok rules1 ->
  association_rules o2 frequent = Ok rules2 ->
  Permutation rules1 rules2.
Proof.
  unfold association_rules. destruct frequent as [ | e0 f ]; [ discriminate | ].
  set (fr := e0 :: f).
  destruct (sequence (map (fun e => rules_of o1 fr (snd e) (fst e)) fr))
    as [per1 | ] eqn:H1; cbn [bind]; [ | discriminate ].
  destruct (sequence (map (fun e => rules_of o2 fr (snd e) (fst e)) fr))
    as [per2 | ] eqn:H2; cbn [bind]; [ | discriminate ].
  intros E1 E2. inversion E1; inversion E2; subst.
  apply dropna_Permutation, concat_Permutation.
  eapply sequence_map_Forall2; [ | exact H1 | exact H2 ].
  intros e b1 b2 _ R1 R2. cbv beta in R1, R2.
  eapply rules_of_Permutation; [ exact R1 | exact R2 ].
Qed.
End OrderIndependence.

Lemma firstn_all_le {A : Type} (n : nat) (l : list A) :
  List.length l <= n -> firstn n l = l.
Proof.
  revert n. induction l as [ | x l IH ]; intros [ | n ] H; simpl in *;
    try reflexivity; [ lia | ].
  f_equal. apply IH. lia.
Qed.

(** C9 (amended).  For a data set and a selection, taken as sets of
    locations and of months, whether the callback returns or which exception
    it raises, the KPIs, the three revenue aggregates, the product ranking
    and the rules that the generator finds, with their figures, are the same
    whatever order the interpreter iterates over a frozenset in.  The order
    of the rules in the table depends on it, and so does the text of a rule;
    with at most ten rules the two tables hold the same figures.  With the
    same iteration order the results are equal. *)
Theorem update_dashboard_deterministic :
  forall (o1 o2 : itemset -> itemset) (df : list (Row Q))
         (s1 s2 m1 m2 : list string),
    (forall l, Permutation (o1 l) l) ->
    (forall l, Permutation (o2 l) l) ->
    (forall x, In x s1 <-> In x s2) ->
    (forall x, In x m1 <-> In x m2) ->
    (forall e, update_dashboard o1 df s1 m1 = Raise e
               <-> update_dashboard o2 df s2 m2 = Raise e)
    /\ ((exists out1, update_dashboard o1 df s1 m1 = Ok out1)
        <-> (exists out2, update_dashboard o2 df s2 m2 = Ok out2))
    /\ (forall out1 out2,
          update_dashboard o1 df s1 m1 = Ok out1 ->
          update_dashboard o2 df s2 m2 = Ok out2 ->
          kpis out1 = kpis out2
          /\ fig_mois out1 = fig_mois out2
          /\ fig_jour out1 = fig_jour out2
          /\ fig_heatmap out1 = fig_heatmap out2
          /\ fig_top out1 = fig_top out2
          /\ (exists frequent rules1 rules2,
                apriori (basket (transactions (df_filtered df s1 m1)))
                        (2 # 100) = Ok frequent
                /\ association_rules o1 frequent = Ok rules1
                /\ association_rules o2 frequent = Ok rules2
                /\ Permutation rules1 rules2
                /\ panier out1 = firstn 10 (map (table_row o1) rules1)
                /\ panier out2 = firstn 10 (map (table_row o2) rules2)
                /\ (List.length rules1 <= 10 ->
                    Permutation
                      (map (fun row => (t_support row, t_confidence row,
                                        t_lift row)) (panier out1))
                      (map (fun row => (t_support row, t_confidence row,
                                        t_lift row)) (panier out2))))
          /\ ((forall l, o1 l = o2 l) -> out1 = out2)).
Proof.
  intros o1 o2 df s1 s2 m1 m2 P1 P2 Hs Hm.
  pose proof (@update_dashboard_outcome o1 df s1 m1 P1) as O1.
  pose proof (@update_dashboard_outcome o2 df s2 m2 P2) as O2.
  cbv zeta in O1, O2.
  rewrite (@df_filtered_ext Q df s1 s2 m1 m2 Hs Hm) in *.
  assert (P12 : forall l, Permutation (o1 l) (o2 l)).
  { intros l. eapply Permutation_trans; [ apply P1 | ].
    apply Permutation_sym, P2. }
  split; [ | split ].
  - intros e.
    destruct (frequent_combos
                (basket (transactions (df_filtered df s2 m2))) (2 # 100)).
    + rewrite O1, O2. reflexivity.
    + destruct O1 as [out1 ->]. destruct O2 as [out2 ->].
      split; discriminate.
  - destruct (frequent_combos
                (basket (transactions (df_filtered df s2 m2))) (2 # 100)).
    + rewrite O1, O2. split; intros [out H]; discriminate.
    + split; intros _; assumption.
  - clear O1 O2. intros out1 out2 H1 H2.
    unfold update_dashboard in H1, H2.
    rewrite (@df_filtered_ext Q df s1 s2 m1 m2 Hs Hm) in H1.
    set (rows := df_filtered df s2 m2) in *.
    destruct (ticket_moyen rows) as [ticket | ]; cbn [bind] in H1, H2;
      [ | discriminate ].
    destruct (apriori (basket (transactions rows)) (2 # 100))
      as [frequent | ]; cbn [bind] in H1, H2; [ | discriminate ].
    destruct (association_rules o1 frequent) as [rules1 | ] eqn:R1;
      cbn [bind] in H1; [ | discriminate ].
    destruct (association_rules o2 frequent) as [rules2 | ] eqn:R2;
      cbn [bind] in H2; [ | discriminate ].
    inversion H1; inversion H2; subst; cbn [kpis fig_mois fig_jour
      fig_heatmap fig_top panier].
    pose proof (@association_rules_Permutation float binary64_Figure
                  o1 o2 P12 frequent rules1 rules2 R1 R2) as PR.
    repeat split.
    + exists frequent, rules1, rules2.
      repeat split; auto.
      intros Hlen. unfold panier_table.
      rewrite (@firstn_all_le _ 10 (map (table_row o1) rules1))
        by (rewrite length_map; exact Hlen).
      rewrite (@firstn_all_le _ 10 (map (table_row o2) rules2))
        by (rewrite length_map, <- (Permutation_length PR); exact Hlen).
      rewrite !map_map. cbn [table_row t_support t_confidence t_lift].
      apply Permutation_map, PR.
    + intros Ho. rewrite (@association_rules_ext _ _ o1 o2 frequent Ho) in R1.
      rewrite R1 in R2. inversion R2; subst.
      rewrite (@panier_table_ext _ _ o1 o2 rules2 Ho). reflexivity.
Qed.


(* ================================================================== *)
(** * The claims on the worked data sets *)

#[local] Open Scope string_scope.

(* ------------------------------------------------------------------ *)
(** ** The specification's examples *)

(** Five baskets over A, B, C with threshold 0.4: the three items and the
    three pairs are frequent, with the supports of the example. *)
Example apriori_example :
  apriori (basket example_baskets) (4 # 10)%Q
  = Ok [ (4 # 5, ["A"]); (4 # 5, ["B"]); (3 # 5, ["C"]);
         (3 # 5, ["A"; "B"]); (2 # 5, ["A"; "C"]); (2 # 5, ["B"; "C"]) ]%Q.
Proof. reflexivity. Qed.

(** No rule of the example reaches the lift 1.2 (A => B has 0.9375). *)
Example association_rules_example :
  (frequent <- apriori (basket example_baskets) (4 # 10)%Q ;;
   association_rules (F := float) (fun k => k) frequent)
  = Ok [].
Proof. vm_compute. reflexivity. Qed.

(** A lift of exactly 6/5.  In binary64 the lift of A -> C comes out as
    1.1999999999999997 and the rule is dropped, the lift of C -> A comes
    out as 1.2 and the rule is kept; in exact arithmetic both are kept. *)
Example association_rules_boundary :
  (frequent <- apriori (basket baskets_boundary) (2 # 100)%Q ;;
   association_rules (F := float) (fun k => k) frequent)
  = Ok [ {| antecedents := ["C"]; consequents := ["A"];
            rule_support := 0x1.3333333333333p-4%float;
            confidence := 0x1.eb851eb851eb8p-4%float;
            lift := 0x1.3333333333333p+0%float |} ]
  /\ (frequent <- apriori (basket baskets_boundary) (2 # 100)%Q ;;
      rules <- association_rules (F := Q) (fun k => k) frequent ;;
      Ok (map (fun r => (antecedents r, consequents r)) rules))
     = Ok [ (["A"], ["C"]); (["C"], ["A"]) ].
Proof. split; vm_compute; reflexivity. Qed.

(** A lift of exactly 1.3125.  In binary64 it comes out as
    1.3125000000000002 and is displayed as 1.313; in exact arithmetic the
    half is rounded to the even digit, 1.312. *)
Example panier_table_rounding :
  (frequent <- apriori (basket baskets_rounding) (2 # 100)%Q ;;
   rules <- association_rules (F := float) (fun k => k) frequent ;;
   Ok (map t_lift (panier_table (fun k => k) rules)))
  = Ok [ 0x1.5020c49ba5e35p+0%float; 0x1.5020c49ba5e35p+0%float ]
  /\ (frequent <- apriori (basket baskets_rounding) (2 # 100)%Q ;;
      rules <- association_rules (F := Q) (fun k => k) frequent ;;
      Ok (map t_lift (panier_table (fun k => k) rules)))
     = Ok [ (1312 # 1000)%Q; (1312 # 1000)%Q ].
Proof. split; vm_compute; reflexivity. Qed.

(** The quantity total is an [int64]: two sales of 2^62 pieces add up to
    -2^63. *)
Example total_qty_wraps :
  total_qty df_large_qty = (- 2 ^ 63)%Z.
Proof. reflexivity. Qed.

(** The two best of Latte 100, Tea 50, Muffin 100. *)
Example nlargest_example :
  nlargest 2 (groupby_sum (@product_detail Q)
                [ line 1 "Astoria" "Latte" 1 (100 # 1)%Q 8 Monday "2023-01";
                  line 2 "Astoria" "Tea" 1 (50 # 1)%Q 8 Monday "2023-01";
                  line 3 "Astoria" "Muffin" 1 (100 # 1)%Q 8 Monday "2023-01" ])
  = [ ("Latte", (100 # 1)%Q); ("Muffin", (100 # 1)%Q) ].
Proof. reflexivity. Qed.

(* ------------------------------------------------------------------ *)
(** ** C1 *)

Lemma apriori_antimonotone_witness :
  exists sup u,
    In (sup, u)
       [ (4 # 5, ["A"]); (4 # 5, ["B"]); (3 # 5, ["C"]);
         (3 # 5, ["A"; "B"]); (2 # 5, ["A"; "C"]); (2 # 5, ["B"; "C"]) ]%Q
    /\ Permutation u ["B"] /\ (4 # 10 <= sup)%Q.
Proof.
  apply (@apriori_antimonotone example_baskets (4 # 10)%Q _
           (eq_refl : apriori (basket example_baskets) (4 # 10)%Q = Ok _)
           ["A"; "B"] ["B"]).
  - simpl. tauto.
  - discriminate.
  - repeat constructor. simpl. tauto.
  - intros x [<- | []]. simpl. tauto.
Defined.

(* ------------------------------------------------------------------ *)
(** ** C2 *)

(** C2 (what the code does).  On the five baskets {Bagel, Cocoa} twice,
    {Latte, Muffin}, {Bagel} and {Tea} the callback returns a table that is
    the head of the rule generator's list, in the order the generator
    emits the rules: the two rules of {Bagel, Cocoa}, displayed lift 1.667,
    come before the two rules of {Latte, Muffin}, displayed lift 5.  The
    table is not in descending order of lift, whichever way the interpreter
    iterates over a pair; the claim asks for descending lift. *)
Theorem panier_not_sorted_by_lift :
  (exists out frequent rules,
      update_dashboard (fun k => k) df_baskets ["Astoria"] ["2023-01"] = Ok out
      /\ apriori (basket (transactions
                    (df_filtered df_baskets ["Astoria"] ["2023-01"])))
                 (2 # 100) = Ok frequent
      /\ association_rules (fun k => k) frequent = Ok rules
      /\ panier out = firstn 10 (map (table_row (fun k => k)) rules)
      /\ map produits (panier out)
         = [ "Bagel" ++ arrow ++ "Cocoa"; "Cocoa" ++ arrow ++ "Bagel";
             "Latte" ++ arrow ++ "Muffin"; "Muffin" ++ arrow ++ "Latte" ]
      /\ map t_lift (panier out)
         = [ 0x1.aac083126e979p+0; 0x1.aac083126e979p+0;
             0x1.4p+2; 0x1.4p+2 ]%float
      /\ ~ StronglySorted
             (fun a b => PrimFloat.leb (t_lift b) (t_lift a) = true)
             (panier out))
  /\ (exists out,
      update_dashboard (@rev string) df_baskets ["Astoria"] ["2023-01"]
      = Ok out
      /\ map t_lift (panier out)
         = [ 0x1.aac083126e979p+0; 0x1.aac083126e979p+0;
             0x1.4p+2; 0x1.4p+2 ]%float
      /\ ~ StronglySorted
             (fun a b => PrimFloat.leb (t_lift b) (t_lift a) = true)
             (panier out)).
Proof.
  split.
  - eexists. eexists. eexists.
    split; [ vm_compute; reflexivity | ].
    split; [ vm_compute; reflexivity | ].
    split; [ vm_compute; reflexivity | ].
    split; [ vm_compute; reflexivity | ].
    split; [ vm_compute; reflexivity | ].
    split; [ vm_compute; reflexivity | ].
    intros S. inversion S as [ | ? ? _ F ]; subst.
    inversion F as [ | ? ? _ F' ]; subst. inversion F' as [ | ? ? H _ ]; subst.
    vm_compute in H. discriminate H.
  - eexists. split; [ vm_compute; reflexivity | ].
    split; [ vm_compute; reflexivity | ].
    intros S. inversion S as [ | ? ? _ F ]; subst.
    inversion F as [ | ? ? _ F' ]; subst. inversion F' as [ | ? ? H _ ]; subst.
    vm_compute in H. discriminate H.
Qed.

(* ------------------------------------------------------------------ *)
(** ** C3 *)

Lemma update_dashboard_empty_subset_witness :
  update_dashboard (fun k => k) df_baskets [] ["2023-01"]
  = Raise (ValueError
      "The input DataFrame `df` containing the frequent itemsets is empty.").
Proof.
  apply (@update_dashboard_empty_subset (fun k => k) df_baskets [] ["2023-01"]).
  reflexivity.
Defined.

(* ------------------------------------------------------------------ *)
(** ** C4 *)

(** Against the zero stated in C4: with a single sale on a Monday, Tuesday
    has no row and its entry of the weekday series is [NaN], not 0. *)
Lemma ca_jour_absent_day_nan :
  (forall r, In r df_one_sale -> jour_semaine r <> Tuesday)
  /\ ca_jour df_one_sale
     = [ (Monday, Some (70 # 10)%Q); (Tuesday, None); (Wednesday, None);
         (Thursday, None); (Friday, None); (Saturday, None); (Sunday, None) ]
  /\ ~ In (Tuesday, Some 0%Q) (ca_jour df_one_sale).
Proof.
  split; [ | split ].
  - intros r [<- | []]. discriminate.
  - reflexivity.
  - simpl. intros H.
    repeat (destruct H as [H | H]; [ discriminate H | ]). exact H.
Qed.

(* ------------------------------------------------------------------ *)
(** ** C5 *)

(** Against the columns and zeros stated in C5: with a single sale on a
    Monday at 9, the heat map has the one column 9 instead of the columns 0
    to 23, and the cell of Tuesday in that column is [NaN]. *)
Lemma pivot_columns_present_hours :
  columns (pivot df_one_sale) = [9%Z]
  /\ columns (pivot df_one_sale) <> map Z.of_nat (seq 0 24)
  /\ loc (pivot df_one_sale) Monday 10 = None
  /\ loc (pivot df_one_sale) Tuesday 9 = Some None.
Proof.
  split; [ reflexivity | split; [ discriminate | split; reflexivity ] ].
Qed.

Lemma pivot_missing_cell_zero_witness :
  loc (pivot df_two_sales) Monday 10 = Some (Some 0%Q).
Proof.
  apply (@pivot_missing_cell_zero Q Q_Number df_two_sales).
  - simpl. tauto.
  - simpl. tauto.
  - intros r [<- | [<- | []]] [H1 H2]; discriminate.
Defined.

(* ------------------------------------------------------------------ *)
(** ** C6 *)

(** Against the equalities stated in C6: in binary64 the sums differ.  The
    weekday series is (0.1 + 0.2, 0.3) and sums to 0.6000000000000001, the
    month series is (0.1, 0.2 + 0.3) and sums to 0.6. *)
Lemma revenue_sums_differ_binary64 :
  series_sum (map snd (ca_jour df_float)) = 0x1.3333333333334p-1%float
  /\ series_sum (map (fun e => Some (snd e)) (ca_mois df_float))
     = 0x1.3333333333333p-1%float
  /\ total_ca df_float = 0x1.3333333333334p-1%float
  /\ PrimFloat.eqb
       (series_sum (map snd (ca_jour df_float)))
       (series_sum (map (fun e => Some (snd e)) (ca_mois df_float)))
     = false
  /\ PrimFloat.eqb
       (series_sum (map (fun e => Some (snd e)) (ca_mois df_float)))
       (total_ca df_float)
     = false.
Proof.
  repeat split; vm_compute; reflexivity.
Qed.

Lemma revenue_conserved_exact_witness :
  series_sum (map snd (ca_jour df_baskets)) = total_ca df_baskets
  /\ series_sum (map (fun e => Some (snd e)) (ca_mois df_baskets))
     = total_ca df_baskets.
Proof.
  exact (@revenue_conserved_exact Q Q_Number Q_ExactNumber df_baskets).
Defined.

(* ------------------------------------------------------------------ *)
(** ** C7 *)

(** Against the tie-break stated in C7: Muffin and Latte tie on revenue
    and the rows mention Muffin first, yet Latte is ranked first. *)
Lemma top_tie_not_in_encounter_order :
  map (@product_detail Q) (firstn 2 df_products) = ["Muffin"; "Latte"]
  /\ group_total (@product_detail Q) df_products "Muffin"
     = group_total (@product_detail Q) df_products "Latte"
  /\ map fst (top df_products)
     = [ "Latte"; "Muffin"; "Americano"; "Brownie"; "Cappuccino"; "Donut";
         "Espresso"; "Frappe"; "Granola"; "Hot Chocolate" ]
  /\ firstn 2 (top df_products)
     = [ ("Latte", (100 # 1)%Q); ("Muffin", (100 # 1)%Q) ].
Proof.
  repeat split; vm_compute; reflexivity.
Qed.

Lemma top_products_ranking_witness :
  let table := groupby_sum (@product_detail Q) df_products in
  let ranking := nlargest 10 table in
  StronglySorted ranks_before ranking
  /\ List.length ranking = Nat.min 10 (List.length table)
  /\ (forall p v, In (p, v) ranking ->
        In p (map (@product_detail Q) df_products)
        /\ v = group_total (@product_detail Q) df_products p)
  /\ (forall x y, In x ranking -> In y table ->
        In y ranking \/ ranks_before x y)
  /\ top df_products = nlargest 10 table.
Proof.
  exact (@top_products_ranking Q Q_Number Q_ExactNumber df_products 10).
Defined.

(* ------------------------------------------------------------------ *)
(** ** C9 *)

(** Against the independence stated in C9: two iteration orders of a
    frozenset, both listing its members once, give different tables for the
    same data set and selection: the two rules of a pair swap places. *)
Lemma update_dashboard_depends_on_iteration_order :
  (forall l : itemset, Permutation ((fun k => k) l) l)
  /\ (forall l : itemset, Permutation (rev l) l)
  /\ exists out1 out2,
       update_dashboard (fun k => k) df_baskets ["Astoria"] ["2023-01"]
       = Ok out1
       /\ update_dashboard (@rev string) df_baskets ["Astoria"] ["2023-01"]
          = Ok out2
       /\ map produits (panier out1)
          = [ "Bagel" ++ arrow ++ "Cocoa"; "Cocoa" ++ arrow ++ "Bagel";
              "Latte" ++ arrow ++ "Muffin"; "Muffin" ++ arrow ++ "Latte" ]
       /\ map produits (panier out2)
          = [ "Cocoa" ++ arrow ++ "Bagel"; "Bagel" ++ arrow ++ "Cocoa";
              "Muffin" ++ arrow ++ "Latte"; "Latte" ++ arrow ++ "Muffin" ]
       /\ out1 <> out2.
Proof.
  split; [ intros l; apply Permutation_refl | ].
  split; [ intros l; apply Permutation_sym, Permutation_rev | ].
  eexists. eexists.
  split; [ vm_compute; reflexivity | ].
  split; [ vm_compute; reflexivity | ].
  split; [ reflexivity | split; [ reflexivity | ] ].
  intros H. apply (f_equal (fun o => map produits (panier o))) in H.
  vm_compute in H. discriminate H.
Qed.

Lemma update_dashboard_deterministic_witness :
  exists out1 out2,
    update_dashboard (fun k => k) df_baskets
      ["Astoria"; "Chelsea"] ["2023-01"] = Ok out1
    /\ update_dashboard (@rev string) df_baskets
         ["Chelsea"; "Astoria"; "Astoria"] ["2023-01"; "2023-01"] = Ok out2
    /\ kpis out1 = kpis out2
    /\ fig_mois out1 = fig_mois out2
    /\ fig_jour out1 = fig_jour out2
    /\ fig_heatmap out1 = fig_heatmap out2
    /\ fig_top out1 = fig_top out2
    /\ Permutation
         (map (fun row => (t_support row, t_confidence row, t_lift row))
              (panier out1))
         (map (fun row => (t_support row, t_confidence row, t_lift row))
              (panier out2)).
Proof.
  assert (Hs : forall x, In x ["Astoria"; "Chelsea"]
                         <-> In x ["Chelsea"; "Astoria"; "Astoria"])
    by (intros x; simpl; tauto).
  assert (Hm : forall x, In x ["2023-01"] <-> In x ["2023-01"; "2023-01"])
    by (intros x; simpl; tauto).
  destruct (@update_dashboard_deterministic (fun k => k) (@rev string)
              df_baskets
              ["Astoria"; "Chelsea"] ["Chelsea"; "Astoria"; "Astoria"]
              ["2023-01"] ["2023-01"; "2023-01"]
              (fun l => Permutation_refl l)
              (fun l => Permutation_sym (Permutation_rev l)) Hs Hm)
    as [_ [_ H]].
  destruct (update_dashboard (fun k => k) df_baskets
              ["Astoria"; "Chelsea"] ["2023-01"]) as [out1 | ] eqn:E1;
    [ | vm_compute in E1; discriminate E1 ].
  destruct (update_dashboard (@rev string) df_baskets
              ["Chelsea"; "Astoria"; "Astoria"] ["2023-01"; "2023-01"])
    as [out2 | ] eqn:E2; [ | vm_compute in E2; discriminate E2 ].
  exists out1, out2.
  split; [ reflexivity | split; [ reflexivity | ] ].
  destruct (H out1 out2 eq_refl eq_refl)
    as [Hk [Hmo [Hj [Hh [Ht [[frequent [rules1 [rules2 Hr]]] _]]]]]].
  repeat (split; [ assumption | ]).
  destruct Hr as [A1 [R1 [_ [_ [_ [_ Hfig]]]]]].
  apply Hfig.
  vm_compute in A1. inversion A1; subst frequent.
  vm_compute in R1. inversion R1; subst rules1.
  cbn [List.length]. lia.
Defined.


(* ================================================================== *)
(** * Further properties of the callback's code *)

#[local] Close Scope string_scope.

(** ** The filter and the drop-down defaults *)

Lemma unique_In {K : Type} {KK : Key K} {KL : KeyLaws K} (x : K)
    (l : list K) :
  In x (unique l) <-> In x l.
Proof.
  induction l as [ | h t IH ]; simpl; [ reflexivity | ].
  rewrite filter_In, IH, negb_true_iff, key_eqb_false. split.
  - intros [H | [H _]]; auto.
  - intros [H | H]; [ left; exact H | ].
    destruct (key_eqb x h) eqn:B.
    + left. symmetry. apply key_eqb_spec, B.
    + right. split; [ exact H | apply key_eqb_false, B ].
Qed.

Lemma unique_NoDup {K : Type} {KK : Key K} {KL : KeyLaws K} (l : list K) :
  NoDup (unique l).
Proof.
  induction l as [ | h t IH ]; simpl; constructor.
  - rewrite filter_In, negb_true_iff, key_eqb_false. intros [_ H].
    apply H. reflexivity.
  - apply NoDup_filter, IH.
Qed.

Lemma filter_all {A : Type} (f : A -> bool) (l : list A) :
  (forall x, In x l -> f x = true) -> filter f l = l.
Proof.
  induction l as [ | x l IH ]; simpl; intros H; [ reflexivity | ].
  rewrite (H x (or_introl eq_refl)). f_equal. apply IH.
  intros y Hy. apply H. right. exact Hy.
Qed.

Lemma df_filtered_filter {V : Type} (df : list (Row V))
    (stores months : list string) :
  df_filtered df stores months
  = filter (fun r => isin (store_location r) stores && isin (mois r) months)
           df.
Proof. unfold df_filtered, selection_mask. apply boolean_index_mask. Qed.

(** X1.  With the drop-downs' initial values, all the locations and all the
    months of the data set, the filter keeps the whole data set. *)
Theorem default_selection_keeps_all :
  forall (V : Type) (df : list (Row V)),
    df_filtered df (unique (map (@store_location V) df))
                   (unique (map (@mois V) df))
    = df.
Proof.
  intros V df. rewrite df_filtered_filter. apply filter_all.
  intros r Hr. unfold isin. apply andb_true_iff. split.
  - apply mem_In, unique_In, in_map, Hr.
  - apply mem_In, unique_In, in_map, Hr.
Qed.

Lemma subseq_filter_imp {A : Type} (f g : A -> bool) (l : list A) :
  (forall x, f x = true -> g x = true) -> subseq (filter f l) (filter g l).
Proof.
  intros H. induction l as [ | x l IH ]; simpl; [ constructor | ].
  destruct (f x) eqn:F.
  - rewrite (H x F). apply subseq_keep, IH.
  - destruct (g x); [ apply subseq_skip, IH | exact IH ].
Qed.

(** X2.  Selecting more locations or more months keeps every row that was
    kept before, in the same order: the smaller selection's rows are a
    subsequence of the larger selection's. *)
Theorem df_filtered_monotone :
  forall (V : Type) (df : list (Row V)) (s1 s2 m1 m2 : list string),
    incl s1 s2 -> incl m1 m2 ->
    subseq (df_filtered df s1 m1) (df_filtered df s2 m2).
Proof.
  intros V df s1 s2 m1 m2 Hs Hm. rewrite !df_filtered_filter.
  apply subseq_filter_imp. intros r. unfold isin.
  rewrite !andb_true_iff, !mem_In. intros [H1 H2].
  split; [ apply Hs, H1 | apply Hm, H2 ].
Qed.


(** ** Transactions and KPIs *)

Lemma unique_length_sorted {K : Type} {KK : Key K} {KL : KeyLaws K}
    (l : list K) :
  List.length (unique l) = List.length (unique_sorted l).
Proof.
  apply Permutation_length, NoDup_Permutation.
  - apply unique_NoDup.
  - apply unique_sorted_NoDup.
  - intros x. rewrite unique_In, unique_sorted_In. reflexivity.
Qed.

Lemma filter_filter {A : Type} (f g : A -> bool) (l : list A) :
  filter f (filter g l) = filter (fun x => f x && g x) l.
Proof.
  induction l as [ | x l IH ]; simpl; [ reflexivity | ].
  destruct (g x); simpl.
  - rewrite andb_true_r. destruct (f x); rewrite IH; reflexivity.
  - rewrite andb_false_r. exact IH.
Qed.

Lemma filter_split_Permutation {A : Type} (f : A -> bool) (l : list A) :
  Permutation (filter f l ++ filter (fun x => negb (f x)) l) l.
Proof.
  induction l as [ | x l IH ]; simpl; [ constructor | ].
  destruct (f x); simpl.
  - apply perm_skip, IH.
  - apply Permutation_sym, Permutation_cons_app, Permutation_sym, IH.
Qed.

Lemma flat_map_ext_In {A B : Type} (f g : A -> list B) (l : list A) :
  (forall a, In a l -> f a = g a) -> flat_map f l = flat_map g l.
Proof.
  induction l as [ | a l IH ]; simpl; intros H; [ reflexivity | ].
  rewrite (H a (or_introl eq_refl)). f_equal. apply IH.
  intros b Hb. apply H. right. exact Hb.
Qed.

(** Grouping by key cuts a list into pieces that together hold every
    entry once. *)
Lemma groups_Permutation {A K : Type} {KK : Key K} {KL : KeyLaws K}
    (key : A -> K) (ks : list K) :
  NoDup ks ->
  forall l : list A,
    (forall x, In x l -> In (key x) ks) ->
    Permutation (flat_map (fun k => filter (fun x => key_eqb (key x) k) l) ks)
                l.
Proof.
  induction 1 as [ | k ks Hk ND IH ]; intros l Hcov.
  - destruct l as [ | x l ]; [ constructor | ].
    destruct (Hcov x (or_introl eq_refl)).
  - simpl.
    set (rest := filter (fun x => negb (key_eqb (key x) k)) l).
    assert (E : flat_map (fun k' => filter (fun x => key_eqb (key x) k') l) ks
                = flat_map (fun k' => filter (fun x => key_eqb (key x) k') rest)
                           ks).
    { apply flat_map_ext_In. intros k' Hk'. unfold rest.
      rewrite filter_filter. apply filter_ext. intros x.
      destruct (key_eqb (key x) k') eqn:B; [ | reflexivity ].
      apply key_eqb_spec in B. subst k'.
      assert (Hne : key_eqb (key x) k = false).
      { apply key_eqb_false. intros E. rewrite E in Hk'. contradiction. }
      rewrite Hne. reflexivity. }
    rewrite E.
    eapply Permutation_trans; [ | apply (filter_split_Permutation
                                     (fun x => key_eqb (key x) k) l) ].
    apply Permutation_app_head. apply IH.
    intros x Hx. unfold rest in Hx. apply filter_In in Hx.
    destruct Hx as [Hx Hne]. apply negb_true_iff, key_eqb_false in Hne.
    destruct (Hcov x Hx) as [E' | Hin]; [ | exact Hin ].
    exfalso. apply Hne. symmetry. exact E'.
Qed.

Lemma concat_map_map {A B C : Type} (g : B -> C) (F : A -> list B)
    (l : list A) :
  List.concat (map (fun a => map g (F a)) l) = map g (flat_map F l).
Proof.
  induction l as [ | a l IH ]; simpl; [ reflexivity | ].
  rewrite map_app, IH. reflexivity.
Qed.

(** X3.  The number of transactions shown as KPI is the number of baskets
    handed to the miner, one boolean row each, and no basket is empty. *)
Theorem nb_transac_counts_baskets :
  forall (V : Type) (rows : list (Row V)),
    nb_transac rows = Z.of_nat (List.length (transactions rows))
    /\ List.length (te_ary (basket (transactions rows)))
       = List.length (transactions rows)
    /\ Forall (fun t => t <> []) (transactions rows).
Proof.
  intros V rows. split; [ | split ].
  - unfold nb_transac, transactions.
    rewrite length_map, unique_length_sorted. reflexivity.
  - unfold basket, te_transform; simpl. apply length_map.
  - unfold transactions. apply Forall_forall. intros t Ht.
    apply in_map_iff in Ht. destruct Ht as [id [<- Hid]].
    apply (proj1 (unique_sorted_In _ _)) in Hid.
    apply in_map_iff in Hid. destruct Hid as [r [<- Hr]].
    intros E. apply map_eq_nil in E.
    assert (Hin : In r (filter (fun r' => key_eqb (transaction_id r')
                                            (transaction_id r)) rows)).
    { apply filter_In. split; [ exact Hr | apply key_eqb_refl ]. }
    rewrite E in Hin. exact Hin.
Qed.

(** X4.  The baskets together hold the product of every row exactly once:
    grouping by transaction loses no line and repeats none. *)
Theorem transactions_partition :
  forall (V : Type) (rows : list (Row V)),
    Permutation (List.concat (transactions rows))
                (map (@product_detail V) rows).
Proof.
  intros V rows. unfold transactions.
  rewrite (concat_map_map (@product_detail V)
             (fun id => filter (fun r => key_eqb (transaction_id r) id) rows)).
  apply Permutation_map.
  apply (groups_Permutation (@transaction_id V)).
  - apply unique_sorted_NoDup.
  - intros r Hr. apply unique_sorted_In, in_map, Hr.
Qed.

Lemma incl_unique_length {K : Type} {KK : Key K} {KL : KeyLaws K}
    (l1 l2 : list K) :
  incl l1 l2 -> List.length (unique l1) <= List.length (unique l2).
Proof.
  intros H. apply NoDup_incl_length; [ apply unique_NoDup | ].
  intros x Hx. apply unique_In, H, unique_In, Hx.
Qed.

(** X5.  Filtering never raises the number of transactions, and there are
    never more transactions than rows. *)
Theorem nb_transac_filtered_le :
  forall (V : Type) (df : list (Row V)) (stores months : list string),
    (nb_transac (df_filtered df stores months) <= nb_transac df)%Z
    /\ (nb_transac df <= Z.of_nat (List.length df))%Z.
Proof.
  intros V df stores months. unfold nb_transac. split.
  - apply Nat2Z.inj_le, incl_unique_length.
    intros id Hid. apply in_map_iff in Hid. destruct Hid as [r [<- Hr]].
    apply in_map. rewrite df_filtered_filter in Hr.
    apply filter_In in Hr. apply Hr.
  - apply Nat2Z.inj_le.
    rewrite <- (length_map (@transaction_id V) df).
    apply NoDup_incl_length; [ apply unique_NoDup | ].
    intros x Hx. apply unique_In, Hx.
Qed.

(** X6.  When there is at least one row, the average ticket times the
    number of transactions gives back the total revenue. *)
Theorem ticket_moyen_times_count :
  forall (rows : list (Row Q)) (ticket : Q),
    rows <> [] ->
    ticket_moyen rows = Ok ticket ->
    (ticket * inject_Z (nb_transac rows) == total_ca rows)%Q.
Proof.
  intros rows ticket Hne H. rewrite ticket_moyen_value in H.
  assert (Hpos : (0 < nb_transac rows)%Z).
  { pose proof (nb_transac_nonneg rows).
    assert (nb_transac rows <> 0%Z)
      by (intros E; apply nb_transac_zero in E; contradiction).
    lia. }
  apply Z.ltb_lt in Hpos. rewrite Hpos in H. inversion H; subst.
  simpl. rewrite Qmult_comm. apply Qmult_div_r.
  apply Z.ltb_lt in Hpos. intros E.
  apply (Qeq_bool_neq (inject_Z (nb_transac rows)) 0); [ | exact E ].
  unfold Qeq_bool, inject_Z; simpl. apply Z.eqb_neq. lia.
Qed.

(** ** The one-hot encoding *)

Lemma sorted_same_elements {K : Type} {KK : Key K} {KL : KeyLaws K}
    (l1 l2 : list K) :
  StronglySorted key_lt l1 -> StronglySorted key_lt l2 ->
  (forall x, In x l1 <-> In x l2) -> l1 = l2.
Proof.
  intros S1. revert l2.
  induction S1 as [ | a l1 S1 IH Ha ]; intros l2 S2 Hin.
  - destruct l2 as [ | b l2 ]; [ reflexivity | ].
    destruct (proj2 (Hin b) (or_introl eq_refl)).
  - destruct S2 as [ | b l2 S2 Hb ].
    + destruct (proj1 (Hin a) (or_introl eq_refl)).
    + rewrite Forall_forall in Ha, Hb.
      assert (Eab : a = b).
      { destruct (proj1 (Hin a) (or_introl eq_refl)) as [E | Ha2];
          [ symmetry; exact E | ].
        destruct (proj2 (Hin b) (or_introl eq_refl)) as [E | Hb1];
          [ exact E | ].
        exfalso. pose proof (key_ltb_trans _ _ _ (Ha b Hb1) (Hb a Ha2)) as C.
        rewrite key_ltb_irrefl in C. discriminate. }
      subst b. f_equal. apply IH; [ exact S2 | ].
      intros x. split; intros Hx.
      * destruct (proj1 (Hin x) (or_intror Hx)) as [E | H]; [ | exact H ].
        exfalso. subst x. pose proof (Ha a Hx) as C. unfold key_lt in C.
        rewrite key_ltb_irrefl in C. discriminate.
      * destruct (proj2 (Hin x) (or_intror Hx)) as [E | H]; [ | exact H ].
        exfalso. subst x. pose proof (Hb a Hx) as C. unfold key_lt in C.
        rewrite key_ltb_irrefl in C. discriminate.
Qed.

Lemma Forall2_map_r {A B : Type} (P : A -> B -> Prop) (f : A -> B)
    (l : list A) :
  (forall x, In x l -> P x (f x)) -> Forall2 P l (map f l).
Proof.
  induction l as [ | x l IH ]; simpl; intros H; constructor.
  - apply H. left. reflexivity.
  - apply IH. intros y Hy. apply H. right. exact Hy.
Qed.

Lemma te_fit_In (txs : list (list string)) (c : string) :
  In c (te_fit txs) <-> exists t, In t txs /\ In c t.
Proof. unfold te_fit. rewrite unique_sorted_In. apply in_concat. Qed.

(** X7.  The encoder's columns are the distinct items of the transactions
    in ascending order, and every transaction can be read back from its
    boolean row: the columns marked [True] are its distinct items. *)
Theorem te_encoding_round_trip :
  forall txs : list (list string),
    let b := basket txs in
    StronglySorted key_lt (te_columns b)
    /\ (forall c, In c (te_columns b) <-> exists t, In t txs /\ In c t)
    /\ Forall2 (fun t row =>
                  List.length row = List.length (te_columns b)
                  /\ boolean_index (te_columns b) row = unique_sorted t)
               txs (te_ary b).
Proof.
  intros txs b. split; [ | split ].
  - apply (unique_sorted_sorted (K := string)).
  - apply te_fit_In.
  - unfold b, basket, te_transform; simpl. apply Forall2_map_r.
    intros t Ht. split; [ apply length_map | ].
    rewrite boolean_index_mask. apply sorted_same_elements.
    + apply (subseq_sorted (subseq_filter _ _)).
      apply (unique_sorted_sorted (K := string)).
    + apply unique_sorted_sorted.
    + intros c. rewrite filter_In, mem_In, unique_sorted_In, te_fit_In.
      split; [ tauto | ]. intros Hc. split; [ | exact Hc ].
      exists t. split; assumption.
Qed.

(** ** What a support is *)

Lemma forallb_map {A B : Type} (p : B -> bool) (g : A -> B) (l : list A) :
  forallb p (map g l) = forallb (fun x => p (g x)) l.
Proof.
  induction l as [ | x l IH ]; simpl; [ | rewrite IH ]; reflexivity.
Qed.

Lemma filter_map_length {A B : Type} (p : B -> bool) (g : A -> B)
    (l : list A) :
  List.length (filter p (map g l))
  = List.length (filter (fun x => p (g x)) l).
Proof.
  induction l as [ | x l IH ]; simpl; [ reflexivity | ].
  destruct (p (g x)); simpl; rewrite IH; reflexivity.
Qed.

Lemma forallb_ext_In {A : Type} (p q : A -> bool) (l : list A) :
  (forall x, In x l -> p x = q x) -> forallb p l = forallb q l.
Proof.
  induction l as [ | x l IH ]; simpl; intros H; [ reflexivity | ].
  rewrite (H x (or_introl eq_refl)). f_equal. apply IH.
  intros y Hy. apply H. right. exact Hy.
Qed.

Lemma row_has_contains (cols : list string) (t : list string) (c : combo) :
  Forall (fun j => j < List.length cols) c ->
  row_has (map (fun col => mem col t) cols) c = contains t (colnames cols c).
Proof.
  intros F. unfold row_has, contains, colnames. rewrite forallb_map.
  apply forallb_ext_In. intros j Hj.
  rewrite Forall_forall in F. specialize (F j Hj).
  rewrite (nth_indep _ false (mem EmptyString t))
    by (rewrite length_map; exact F).
  apply (map_nth (fun col => mem col t)).
Qed.

(** The support the miner computes on the boolean table is the fraction of
    the transactions that hold the items. *)
Lemma basket_support (txs : list (list string)) (c : combo) :
  Forall (fun j => j < List.length (te_columns (basket txs))) c ->
  support (te_ary (basket txs)) c
  = tx_support txs (colnames (te_columns (basket txs)) c).
Proof.
  intros F. unfold support, tx_support, count_rows.
  unfold basket, te_transform; simpl.
  rewrite filter_map_length, length_map. do 4 f_equal.
  apply filter_ext. intros t. apply row_has_contains, F.
Qed.

Lemma tx_support_le_1 (txs : list (list string)) (s : itemset) :
  (tx_support txs s <= 1)%Q.
Proof.
  unfold tx_support.
  assert (Hle : List.length (filter (fun t => contains t s) txs)
                <= List.length txs).
  { clear. induction txs as [ | t txs IH ]; simpl; [ lia | ].
    destruct (contains t s); simpl; lia. }
  destruct txs as [ | t0 txs ].
  - simpl. discriminate.
  - apply Qle_shift_div_r.
    + rewrite <- (Zlt_Qlt 0). simpl List.length. lia.
    + rewrite Qmult_1_l, <- Zle_Qle. lia.
Qed.

Lemma apriori_entries (b : Basket) (min_support : Q)
    (frequent : list (Q * itemset)) :
  apriori b min_support = Ok frequent ->
  (0 < min_support)%Q
  /\ forall sup s,
       In (sup, s) frequent
       <-> exists c, In c (frequent_combos b min_support)
                     /\ sup = support (te_ary b) c
                     /\ s = colnames (te_columns b) c.
Proof.
  unfold apriori. destruct (Qle_bool min_support 0) eqn:B; [ discriminate | ].
  intros H. inversion H; subst; clear H. split.
  - apply Qnot_le_lt. intros Hle. apply Qle_bool_iff in Hle. congruence.
  - intros sup s. rewrite in_map_iff. split.
    + intros [c [Hc Hin]]. inversion Hc; subst. exists c. auto.
    + intros [c [Hin [-> ->]]]. exists c. auto.
Qed.

Lemma apriori_entry_meaning (txs : list (list string)) (min_support : Q)
    (frequent : list (Q * itemset)) (sup : Q) (s : itemset) :
  apriori (basket txs) min_support = Ok frequent ->
  In (sup, s) frequent ->
  sup = tx_support txs s
  /\ (min_support <= sup)%Q /\ (sup <= 1)%Q
  /\ s <> [] /\ NoDup s.
Proof.
  intros Hap Hin.
  destruct (@apriori_entries (basket txs) min_support frequent Hap)
    as [_ Hent].
  apply Hent in Hin. destruct Hin as [c [Hc [-> ->]]].
  assert (Hs : In (colnames (te_columns (basket txs)) c)
                  (reported (basket txs) min_support))
    by (apply in_map, Hc).
  apply frequent_combos_spec in Hc.
  destruct Hc as [Hne [Hsorted [Hvalid Hfreq]]].
  split; [ apply basket_support, Hvalid | split; [ | split; [ | split ] ] ].
  - apply Qle_bool_iff, Hfreq.
  - rewrite (basket_support txs Hvalid). apply tx_support_le_1.
  - destruct c; [ contradiction | discriminate ].
  - eapply reported_NoDup; [ apply basket_columns_NoDup | exact Hs ].
Qed.

(** X8.  The support reported with an itemset is the fraction of the
    transactions that contain all its items; it lies between the threshold
    and 1, and the itemset is non-empty and without repetition. *)
Theorem apriori_support_meaning :
  forall (txs : list (list string)) (min_support : Q)
         (frequent : list (Q * itemset)),
    apriori (basket txs) min_support = Ok frequent ->
    forall (sup : Q) (s : itemset),
      In (sup, s) frequent ->
      sup = tx_support txs s
      /\ (min_support <= sup)%Q /\ (sup <= 1)%Q
      /\ s <> [] /\ NoDup s.
Proof.
  intros txs min_support frequent Hap sup s Hin.
  apply (@apriori_entry_meaning txs min_support frequent sup s Hap Hin).
Qed.

(** ** Completeness of the miner *)

Lemma sorted_lt_map_S (c : list nat) :
  StronglySorted lt c -> StronglySorted lt (map S c).
Proof.
  induction 1 as [ | a c Hs IH Ha ]; simpl; constructor; [ exact IH | ].
  rewrite Forall_forall in *. intros y Hy.
  apply in_map_iff in Hy. destruct Hy as [j [<- Hj]].
  specialize (Ha j Hj). lia.
Qed.

(** A subsequence of the columns is read off by increasing positions. *)
Lemma subseq_indices {A : Type} (d : A) (u cols : list A) :
  subseq u cols ->
  exists c, StronglySorted lt c
            /\ Forall (fun j => j < List.length cols) c
            /\ map (fun j => nth j cols d) c = u.
Proof.
  induction 1 as [ | x u cols _ IH | x u cols _ IH ].
  - exists []. repeat split; constructor.
  - destruct IH as [c [Hs [Hv Hm]]]. exists (map S c). split; [ | split ].
    + apply sorted_lt_map_S, Hs.
    + rewrite Forall_forall in *. intros j Hj.
      apply in_map_iff in Hj. destruct Hj as [i [<- Hi]].
      specialize (Hv i Hi). simpl. lia.
    + rewrite map_map. exact Hm.
  - destruct IH as [c [Hs [Hv Hm]]]. exists (0 :: map S c).
    split; [ | split ].
    + constructor; [ apply sorted_lt_map_S, Hs | ].
      rewrite Forall_forall. intros j Hj.
      apply in_map_iff in Hj. destruct Hj as [i [<- _]]. lia.
    + constructor; [ simpl; lia | ].
      rewrite Forall_forall in *. intros j Hj.
      apply in_map_iff in Hj. destruct Hj as [i [<- Hi]].
      specialize (Hv i Hi). simpl. lia.
    + simpl. rewrite map_map. f_equal. exact Hm.
Qed.

Lemma contains_In (t : list string) (s : itemset) :
  contains t s = true <-> incl s t.
Proof.
  unfold contains. rewrite forallb_forall. split.
  - intros H x Hx. apply mem_In, H, Hx.
  - intros H x Hx. apply mem_In, H, Hx.
Qed.

Lemma tx_support_ext (txs : list (list string)) (s1 s2 : itemset) :
  (forall x, In x s1 <-> In x s2) -> tx_support txs s1 = tx_support txs s2.
Proof.
  intros H. unfold tx_support. do 4 f_equal. apply filter_ext. intros t.
  apply eq_true_iff_eq. rewrite !contains_In. split; intros I x Hx.
  - apply I, H, Hx.
  - apply I, H, Hx.
Qed.

Lemma tx_support_pos (txs : list (list string)) (s : itemset) :
  (0 < tx_support txs s)%Q -> exists t, In t txs /\ incl s t.
Proof.
  unfold tx_support. intros H.
  destruct (filter (fun t => contains t s) txs) as [ | t l ] eqn:E.
  - exfalso. simpl in H. unfold Qdiv in H. rewrite Qmult_0_l in H.
    apply (Qlt_irrefl 0), H.
  - assert (Hin : In t (filter (fun t => contains t s) txs))
      by (rewrite E; left; reflexivity).
    apply filter_In in Hin. destruct Hin as [Hin Hc].
    exists t. split; [ exact Hin | apply contains_In, Hc ].
Qed.

(** Every non-empty set of items that enough transactions hold is among the
    reported itemsets. *)
Lemma reported_complete (txs : list (list string)) (min_support : Q)
    (t : itemset) :
  (0 < min_support)%Q -> t <> [] -> NoDup t ->
  (min_support <= tx_support txs t)%Q ->
  exists c,
    In c (frequent_combos (basket txs) min_support)
    /\ Permutation (colnames (te_columns (basket txs)) c) t
    /\ support (te_ary (basket txs)) c = tx_support txs t.
Proof.
  intros Hmin Hne Hnd Hsup.
  set (cols := te_columns (basket txs)).
  destruct (@tx_support_pos txs t) as [tx [Htx Hincl]];
    [ eapply Qlt_le_trans; eassumption | ].
  assert (Hcols : forall x, In x t -> In x cols).
  { intros x Hx. apply te_fit_In. exists tx. split; [ exact Htx | ].
    apply Hincl, Hx. }
  set (u := filter (fun x => mem x t) cols).
  assert (Hu : forall x, In x u <-> In x t).
  { intros x. unfold u. rewrite filter_In, mem_In. split; [ tauto | ].
    intros Hx. split; [ apply Hcols, Hx | exact Hx ]. }
  destruct (@subseq_indices string EmptyString u cols (subseq_filter _ _))
    as [c [Hs [Hv Hm]]].
  assert (Hsupc : support (te_ary (basket txs)) c = tx_support txs t).
  { rewrite (basket_support txs Hv). fold cols. unfold colnames.
    rewrite Hm. apply tx_support_ext, Hu. }
  exists c. split; [ | split ].
  - apply frequent_combos_spec. split; [ | split; [ | split ] ].
    + intros ->. simpl in Hm.
      destruct t as [ | x t ]; [ contradiction | ].
      assert (Hx : In x u) by (apply Hu; left; reflexivity).
      rewrite <- Hm in Hx. exact Hx.
    + exact Hs.
    + exact Hv.
    + unfold is_frequent. rewrite Hsupc. apply Qle_bool_iff, Hsup.
  - fold cols. unfold colnames. rewrite Hm.
    apply NoDup_Permutation; [ | exact Hnd | exact Hu ].
    apply NoDup_filter. apply basket_columns_NoDup.
  - exact Hsupc.
Qed.

(** X9.  The miner is complete: every non-empty set of distinct items that
    is contained in at least the threshold's fraction of the transactions
    is reported, with that fraction as its support. *)
Theorem apriori_complete :
  forall (txs : list (list string)) (min_support : Q)
         (frequent : list (Q * itemset)) (t : itemset),
    apriori (basket txs) min_support = Ok frequent ->
    t <> [] -> NoDup t ->
    (min_support <= tx_support txs t)%Q ->
    exists u, In (tx_support txs t, u) frequent /\ Permutation u t.
Proof.
  intros txs min_support frequent t Hap Hne Hnd Hsup.
  destruct (@apriori_entries (basket txs) min_support frequent Hap)
    as [Hmin Hent].
  destruct (@reported_complete txs min_support t Hmin Hne Hnd Hsup)
    as [c [Hc [Hp Hs]]].
  exists (colnames (te_columns (basket txs)) c). split; [ | exact Hp ].
  apply Hent. exists c. split; [ exact Hc | split; [ | reflexivity ] ].
  symmetry. exact Hs.
Qed.

(** ** When the callback returns *)

Lemma frequent_combos_item (txs : list (list string)) (min_support : Q) :
  (0 < min_support)%Q ->
  (frequent_combos (basket txs) min_support <> []
   <-> exists p, (min_support <= tx_support txs [p])%Q).
Proof.
  intros Hmin. split.
  - intros Hne.
    destruct (frequent_combos (basket txs) min_support) as [ | c cs ] eqn:E;
      [ contradiction | ].
    assert (Hc : In c (frequent_combos (basket txs) min_support))
      by (rewrite E; left; reflexivity).
    apply frequent_combos_spec in Hc.
    destruct Hc as [Hc [_ [Hv Hf]]].
    destruct c as [ | j c ]; [ contradiction | ].
    exists (nth j (te_columns (basket txs)) EmptyString).
    assert (Hvj : Forall (fun i => i < List.length (te_columns (basket txs)))
                         [j]).
    { inversion Hv; subst. repeat constructor. assumption. }
    change [nth j (te_columns (basket txs)) EmptyString]
      with (colnames (te_columns (basket txs)) [j]).
    rewrite <- (basket_support txs Hvj).
    apply Qle_bool_iff.
    eapply is_frequent_incl; [ | exact Hf ].
    intros x [<- | []]. left. reflexivity.
  - intros [p Hp] E.
    destruct (@reported_complete txs min_support [p] Hmin) as [c [Hc _]].
    + discriminate.
    + repeat constructor. intros [].
    + exact Hp.
    + rewrite E in Hc. exact Hc.
Qed.

Lemma update_dashboard_returns_iff (iter_order : itemset -> itemset)
    (df : list (Row Q)) (store_selection mois_selection : list string) :
  (forall l, Permutation (iter_order l) l) ->
  let txs := transactions (df_filtered df store_selection mois_selection) in
  ((exists out,
       update_dashboard iter_order df store_selection mois_selection = Ok out)
   <-> exists p, (2 # 100 <= tx_support txs [p])%Q)
  /\ ((forall p, ~ (2 # 100 <= tx_support txs [p])%Q) ->
      update_dashboard iter_order df store_selection mois_selection
      = Raise (ValueError
          "The input DataFrame `df` containing the frequent itemsets is empty.")).
Proof.
  intros Hperm txs.
  pose proof (@update_dashboard_outcome iter_order df store_selection
                mois_selection Hperm) as Hout.
  cbv zeta in Hout. fold txs in Hout.
  assert (Hmin : (0 < 2 # 100)%Q) by reflexivity.
  pose proof (@frequent_combos_item txs (2 # 100) Hmin) as Hitem.
  destruct (frequent_combos (basket txs) (2 # 100)) as [ | c cs ].
  - split.
    + split.
      * intros [out Ho]. rewrite Hout in Ho. discriminate.
      * intros Hp. apply Hitem in Hp. contradiction.
    + intros _. exact Hout.
  - assert (Hp : exists p, (2 # 100 <= tx_support txs [p])%Q)
      by (apply Hitem; discriminate).
    split.
    + split; [ intros _; exact Hp | intros _; exact Hout ].
    + intros Hno. destruct Hp as [p Hp]. destruct (Hno p Hp).
Qed.

(** X10.  The callback returns exactly when some product is in at least 2 %
    of the baskets of the filtered rows; when none is, it raises the rule
    generator's [ValueError].  (For an iteration order that lists every
    member of a frozenset once.) *)
Theorem update_dashboard_returns_when_frequent :
  forall (iter_order : itemset -> itemset) (df : list (Row Q))
         (store_selection mois_selection : list string),
    (forall l, Permutation (iter_order l) l) ->
    let txs := transactions (df_filtered df store_selection mois_selection) in
    ((exists out,
         update_dashboard iter_order df store_selection mois_selection
         = Ok out)
     <-> exists p, (2 # 100 <= tx_support txs [p])%Q)
    /\ ((forall p, ~ (2 # 100 <= tx_support txs [p])%Q) ->
        update_dashboard iter_order df store_selection mois_selection
        = Raise (ValueError
            "The input DataFrame `df` containing the frequent itemsets is empty.")).
Proof.
  intros iter_order df store_selection mois_selection Hperm.
  apply update_dashboard_returns_iff, Hperm.
Qed.

Lemma nb_transac_counts_baskets_aux {V : Type} (rows : list (Row V)) :
  nb_transac rows = Z.of_nat (List.length (transactions rows))
  /\ forall r, In r rows ->
       In (map (@product_detail V)
               (filter (fun r' => key_eqb (transaction_id r')
                                          (transaction_id r)) rows))
          (transactions rows).
Proof.
  split.
  - unfold nb_transac, transactions.
    rewrite length_map, unique_length_sorted. reflexivity.
  - intros r Hr. unfold transactions.
    apply (in_map (fun id =>
                     map (@product_detail V)
                         (filter (fun r' => key_eqb (transaction_id r') id)
                                 rows))).
    apply unique_sorted_In, in_map, Hr.
Qed.

Lemma tx_support_first_row (rows : list (Row Q)) (r : Row Q) :
  In r rows ->
  (nb_transac rows <= 50)%Z ->
  (2 # 100 <= tx_support (transactions rows) [product_detail r])%Q.
Proof.
  intros Hr Hn.
  destruct (@nb_transac_counts_baskets_aux Q rows) as [Hlen Htx].
  unfold tx_support.
  set (n := List.length (transactions rows)) in *.
  set (cnt := List.length
                (filter (fun t => contains t [product_detail r])
                        (transactions rows))).
  assert (Hcnt : 1 <= cnt).
  { unfold cnt.
    assert (Hin : In (map (@product_detail Q)
                          (filter (fun r' => key_eqb (transaction_id r')
                                                     (transaction_id r)) rows))
                     (filter (fun t => contains t [product_detail r])
                             (transactions rows))).
    { apply filter_In. split.
      - apply Htx, Hr.
      - apply contains_In. intros x [<- | []]. apply in_map.
        apply filter_In. split; [ exact Hr | apply key_eqb_refl ]. }
    destruct (filter (fun t => contains t [product_detail r])
                     (transactions rows)); [ contradiction | simpl; lia ]. }
  assert (Hnpos : 1 <= n).
  { unfold n. pose proof (Htx r Hr) as H.
    destruct (transactions rows); [ contradiction | simpl; lia ]. }
  rewrite Hlen in Hn. clearbody n cnt.
  apply Qle_shift_div_l.
  - rewrite <- (Zlt_Qlt 0). lia.
  - unfold Qle, Qmult, inject_Z. cbn [Qnum Qden].
    change (2 * Z.of_nat n * 1 <= Z.of_nat cnt * 100)%Z. lia.
Qed.

(** X11.  On a non-empty filtered subset with at most 50 transactions every
    product is in at least 2 % of the baskets, so the callback returns:
    the [ValueError] of the rule generator needs more than 50
    transactions or none. *)
Theorem update_dashboard_small_subset :
  forall (iter_order : itemset -> itemset) (df : list (Row Q))
         (store_selection mois_selection : list string),
    (forall l, Permutation (iter_order l) l) ->
    df_filtered df store_selection mois_selection <> [] ->
    (nb_transac (df_filtered df store_selection mois_selection) <= 50)%Z ->
    exists out,
      update_dashboard iter_order df store_selection mois_selection = Ok out.
Proof.
  intros iter_order df store_selection mois_selection Hperm Hne Hn.
  apply (proj1 (@update_dashboard_returns_iff iter_order df store_selection
                  mois_selection Hperm)).
  destruct (df_filtered df store_selection mois_selection) as [ | r rows ]
    eqn:E; [ contradiction | ].
  exists (product_detail r).
  apply tx_support_first_row; [ left; reflexivity | exact Hn ].
Qed.

(** ** The association rules *)

Lemma itemset_eqb_eq (a b : itemset) : itemset_eqb a b = true -> a = b.
Proof.
  revert b. induction a as [ | x a IH ]; intros [ | y b ]; simpl;
    try discriminate; [ reflexivity | ].
  rewrite andb_true_iff, String.eqb_eq. intros [-> H]. f_equal. apply IH, H.
Qed.

Lemma dict_get_In (d : list (Q * itemset)) (k : itemset) (s : Q) :
  dict_get d k = Ok s -> In (s, k) d.
Proof.
  induction d as [ | [s' k'] d IH ]; simpl; [ discriminate | ].
  destruct (itemset_eqb k k') eqn:B.
  - intros H. inversion H; subst. apply itemset_eqb_eq in B. subst.
    left. reflexivity.
  - intros H. right. apply IH, H.
Qed.

(** Where a rule of the generator comes from: an entry of the table of
    itemsets and a combination of its members. *)
Lemma association_rules_In {F : Type} {Fig : Figure F}
    (iter_order : itemset -> itemset)
    (frequent : list (Q * itemset)) (rules : list (Rule F)) (r : Rule F) :
  association_rules iter_order frequent = Ok rules -> In r rules ->
  exists sAC k c sA sC,
    In (sAC, k) frequent
    /\ antecedents r = filter (fun x => mem x c) k
    /\ consequents r = filter (fun x => negb (mem x c)) k
    /\ In (sA, antecedents r) frequent
    /\ In (sC, consequents r) frequent
    /\ rule_support r = of_support sAC
    /\ confidence r = fdiv (of_support sAC) (of_support sA)
    /\ lift r = fdiv (fdiv (of_support sAC) (of_support sA)) (of_support sC)
    /\ fleb min_threshold (lift r) = true.
Proof.
  unfold association_rules. destruct frequent as [ | e0 f ]; [ discriminate | ].
  set (fr := e0 :: f).
  destruct (sequence (map (fun e => rules_of iter_order fr (snd e) (fst e)) fr))
    as [per | ] eqn:Hs; cbn [bind]; [ | discriminate ].
  intros H Hr. inversion H; subst; clear H.
  apply dropna_In, in_concat in Hr. destruct Hr as [l [Hl Hr]].
  eapply sequence_In in Hl; [ | exact Hs ].
  apply in_map_iff in Hl. destruct Hl as [[sAC k] [He Hin]].
  simpl in He. unfold rules_of in He.
  eapply sequence_In in Hr; [ | exact He ].
  apply in_flat_map in Hr. destruct Hr as [idx [_ Hr]].
  apply in_map_iff in Hr. destruct Hr as [c [Hr _]].
  cbv zeta in Hr.
  destruct (dict_get fr (filter (fun x => mem x c) k)) as [sA | ] eqn:Ha;
    cbn [bind] in Hr; [ | discriminate ].
  destruct (dict_get fr (filter (fun x => negb (mem x c)) k)) as [sC | ] eqn:Hc;
    cbn [bind] in Hr; [ | discriminate ].
  destruct (fleb min_threshold
              (fdiv (fdiv (of_support sAC) (of_support sA)) (of_support sC)))
    eqn:B; inversion Hr; subst;
    cbn [antecedents consequents rule_support confidence lift].
  exists sAC, k, c, sA, sC. repeat split; auto.
  - apply dict_get_In, Ha.
  - apply dict_get_In, Hc.
Qed.

(** The same in exact arithmetic. *)
Lemma association_rules_In_exact (iter_order : itemset -> itemset)
    (frequent : list (Q * itemset)) (rules : list (Rule Q)) (r : Rule Q) :
  association_rules iter_order frequent = Ok rules -> In r rules ->
  exists sAC k c sA sC,
    In (sAC, k) frequent
    /\ antecedents r = filter (fun x => mem x c) k
    /\ consequents r = filter (fun x => negb (mem x c)) k
    /\ In (sA, antecedents r) frequent
    /\ In (sC, consequents r) frequent
    /\ rule_support r = sAC
    /\ confidence r = (sAC / sA)%Q
    /\ lift r = (sAC / sA / sC)%Q
    /\ (12 # 10 <= lift r)%Q.
Proof.
  intros H Hr.
  destruct (@association_rules_In Q Q_Figure iter_order frequent rules r H Hr)
    as [sAC [k [c [sA [sC [Hk [Ea [Ec [Ha [Hc [Es [Econf [El Hl]]]]]]]]]]]]].
  exists sAC, k, c, sA, sC. repeat split; auto.
  apply Qle_bool_iff. exact Hl.
Qed.

Lemma tx_support_antimonotone (txs : list (list string)) (s t : itemset) :
  incl t s -> (tx_support txs s <= tx_support txs t)%Q.
Proof.
  intros I. unfold tx_support, Qdiv. apply Qmult_le_compat_r.
  - rewrite <- Zle_Qle. apply Nat2Z.inj_le, filter_length_le.
    intros tx. rewrite !contains_In. intros H x Hx. apply H, I, Hx.
  - apply Qinv_le_0_compat. rewrite <- (Zle_Qle 0). lia.
Qed.

(** X12.  Every rule of the generator, in binary64 as in exact
    arithmetic, splits a reported itemset into a non-empty antecedent and
    a non-empty consequent without a common item, and the rule's support
    is the support of the fraction of the transactions that hold all the
    items of both. *)
Theorem association_rules_structure :
  forall (F : Type) (Fig : Figure F)
         (iter_order : itemset -> itemset) (txs : list (list string))
         (min_support : Q) (frequent : list (Q * itemset))
         (rules : list (Rule F)) (r : Rule F),
    apriori (basket txs) min_support = Ok frequent ->
    association_rules iter_order frequent = Ok rules ->
    In r rules ->
    antecedents r <> [] /\ consequents r <> []
    /\ (forall x, In x (antecedents r) -> ~ In x (consequents r))
    /\ (exists sAC k, In (sAC, k) frequent
                      /\ rule_support r = of_support sAC
                      /\ forall x, In x k
                                   <-> In x (antecedents r)
                                       \/ In x (consequents r))
    /\ rule_support r
       = of_support (tx_support txs (antecedents r ++ consequents r)).
Proof.
  intros F Fig iter_order txs min_support frequent rules r Hap Hrules Hr.
  destruct (@association_rules_In F Fig iter_order frequent rules r Hrules Hr)
    as [sAC [k [c [sA [sC [Hk [Ea [Ec [Ha [Hc [Es _]]]]]]]]]]].
  assert (Hsplit : forall x, In x k
                             <-> In x (antecedents r) \/ In x (consequents r)).
  { intros x. rewrite Ea, Ec, !filter_In.
    destruct (mem x c); simpl; intuition. }
  split; [ apply (@apriori_entry_meaning txs min_support frequent _ _ Hap Ha) | ].
  split; [ apply (@apriori_entry_meaning txs min_support frequent _ _ Hap Hc) | ].
  split; [ | split ].
  - intros x. rewrite Ea, Ec, !filter_In. intros [_ H1] [_ H2].
    rewrite H1 in H2. discriminate.
  - exists sAC, k. split; [ exact Hk | split; [ exact Es | exact Hsplit ] ].
  - rewrite Es. f_equal.
    destruct (@apriori_entry_meaning txs min_support frequent _ _ Hap Hk) as [-> _].
    apply tx_support_ext. intros x. rewrite in_app_iff. apply Hsplit.
Qed.

(** X13.  In exact arithmetic the confidence of a rule is the support of
    the whole itemset divided by the support of the antecedent and lies in
    (0, 1]; the lift is the confidence divided by the support of the
    consequent and is at least 1.2. *)
Theorem association_rules_confidence :
  forall (iter_order : itemset -> itemset) (txs : list (list string))
         (min_support : Q) (frequent : list (Q * itemset))
         (rules : list (Rule Q)) (r : Rule Q),
    apriori (basket txs) min_support = Ok frequent ->
    association_rules iter_order frequent = Ok rules ->
    In r rules ->
    confidence r
    = (rule_support r / tx_support txs (antecedents r))%Q
    /\ (0 < confidence r)%Q /\ (confidence r <= 1)%Q
    /\ lift r = (confidence r / tx_support txs (consequents r))%Q
    /\ (12 # 10 <= lift r)%Q.
Proof.
  intros iter_order txs min_support frequent rules r Hap Hrules Hr.
  destruct (@association_rules_In_exact iter_order frequent rules r Hrules Hr)
    as [sAC [k [c [sA [sC [Hk [Ea [Ec [Ha [Hc [Es [Econf [El Hl]]]]]]]]]]]]].
  destruct (@apriori_entries (basket txs) min_support frequent Hap)
    as [Hmin _].
  destruct (@apriori_entry_meaning txs min_support frequent _ _ Hap Hk) as [EsAC [HminAC _]].
  destruct (@apriori_entry_meaning txs min_support frequent _ _ Hap Ha) as [EsA _].
  destruct (@apriori_entry_meaning txs min_support frequent _ _ Hap Hc) as [EsC _].
  assert (Hle : (sAC <= sA)%Q).
  { rewrite EsAC, EsA. apply tx_support_antimonotone.
    intros x. rewrite Ea, filter_In. tauto. }
  assert (HposAC : (0 < sAC)%Q) by (eapply Qlt_le_trans; eassumption).
  assert (HposA : (0 < sA)%Q) by (eapply Qlt_le_trans; eassumption).
  rewrite Es, Econf, El, <- EsA, <- EsC.
  split; [ reflexivity | split; [ | split; [ | split ] ] ].
  - apply Qlt_shift_div_l; [ exact HposA | ]. rewrite Qmult_0_l. exact HposAC.
  - apply Qle_shift_div_r; [ exact HposA | ]. rewrite Qmult_1_l. exact Hle.
  - reflexivity.
  - rewrite <- El. exact Hl.
Qed.

(** ** The heat map and the weekday series *)

Section HeatMap.
Context {V : Type} {N : Number V} {E : ExactNumber V}.

Lemma vsum_app (l1 l2 : list V) : vsum (l1 ++ l2) = nadd (vsum l1) (vsum l2).
Proof.
  induction l1 as [ | x l1 IH ]; simpl.
  - change (vsum []) with (@nzero V N). rewrite nadd_0_l. reflexivity.
  - rewrite !vsum_cons, IH. apply nadd_assoc.
Qed.

Lemma dropna_app {A : Type} (l1 l2 : list (option A)) :
  dropna (l1 ++ l2) = dropna l1 ++ dropna l2.
Proof.
  induction l1 as [ | [a | ] l1 IH ]; simpl; [ | rewrite IH | ]; auto.
Qed.

Lemma series_sum_concat (ls : list (list (option V))) :
  series_sum (List.concat ls) = vsum (map series_sum ls).
Proof.
  unfold series_sum. induction ls as [ | l ls IH ]; simpl; [ reflexivity | ].
  rewrite dropna_app, vsum_app, IH, vsum_cons. reflexivity.
Qed.

Lemma dropna_repeat_None {A : Type} (n : nat) :
  dropna (repeat (@None A) n) = [].
Proof. induction n as [ | n IH ]; simpl; [ | rewrite IH ]; reflexivity. Qed.

(** The value shown in a cell: the revenue of the rows of that weekday
    and hour. *)
Lemma pivot_cell_value (rows : list (Row V)) (w : Weekday) (h : Z) :
  match pivot_cell rows w h with Some v => v | None => nzero end
  = group_total (@heure V)
      (filter (fun r => key_eqb (jour_semaine r) w) rows) h.
Proof.
  unfold pivot_cell, group_total. rewrite filter_filter.
  rewrite (filter_ext
             (fun r => key_eqb (jour_semaine r) w && key_eqb (heure r) h)
             (fun r => key_eqb (heure r) h && key_eqb (jour_semaine r) w))
    by (intros r; apply andb_comm).
  destruct (filter _ rows); reflexivity.
Qed.

Lemma pivot_cells (rows : list (Row V)) :
  cells (pivot rows) = map (pivot_line rows) jour_order.
Proof.
  unfold pivot, reindex_rows, fillna0, pivot_table.
  cbv [index cells columns]. apply map_ext. intros w.
  rewrite map_map, combine_map, lookup_map, mem_unique_sorted.
  unfold pivot_line. destruct (mem w (map (@jour_semaine V) rows));
    [ | reflexivity ].
  rewrite map_map. apply map_ext. intros h.
  destruct (pivot_cell rows w h); reflexivity.
Qed.

Lemma pivot_line_sum (rows : list (Row V)) (w : Weekday) :
  series_sum (pivot_line rows w) = group_total (@jour_semaine V) rows w.
Proof.
  unfold pivot_line.
  destruct (mem w (map (@jour_semaine V) rows)) eqn:M.
  - unfold series_sum.
    rewrite (dropna_Some
               (fun h => match pivot_cell rows w h with
                         | Some v => v
                         | None => nzero
                         end)).
    rewrite (map_ext _ _ (pivot_cell_value rows w)).
    apply (group_totals_sum (@heure V)).
    + apply unique_sorted_NoDup.
    + intros r Hr. apply filter_In in Hr.
      apply unique_sorted_In, in_map, Hr.
  - unfold series_sum. rewrite dropna_repeat_None.
    symmetry. apply group_total_absent, M.
Qed.

Lemma pivot_loc_row (rows : list (Row V)) (w : Weekday) :
  loc_row (pivot rows) w = Some (pivot_line rows w).
Proof.
  unfold loc_row. rewrite pivot_cells.
  change (index (pivot rows)) with (@jour_order).
  rewrite combine_map, lookup_map.
  assert (Hj : mem w jour_order = true)
    by (apply mem_In; destruct w; simpl; tauto).
  rewrite Hj. reflexivity.
Qed.

(** X14.  In exact arithmetic every row of the heat map of a weekday that
    occurs in the subset has one cell per column and adds up to that
    weekday's entry of the weekday series. *)
Theorem heatmap_row_sums_to_weekday :
  forall (rows : list (Row V)) (w : Weekday),
    In w (map (@jour_semaine V) rows) ->
    exists line,
      loc_row (pivot rows) w = Some line
      /\ List.length line = List.length (columns (pivot rows))
      /\ lookup w (ca_jour rows) = Some (Some (series_sum line)).
Proof.
  intros rows w Hw. exists (pivot_line rows w).
  apply mem_In in Hw.
  split; [ apply pivot_loc_row | split ].
  - unfold pivot_line. rewrite Hw. rewrite length_map. reflexivity.
  - rewrite pivot_line_sum, ca_jour_entries, lookup_map, Hw.
    assert (Hj : mem w jour_order = true)
      by (apply mem_In; destruct w; simpl; tauto).
    rewrite Hj. reflexivity.
Qed.

(** X15.  In exact arithmetic the defined cells of the heat map add up to
    the total revenue, and the heat map has seven rows. *)
Theorem heatmap_sums_to_total :
  forall rows : list (Row V),
    series_sum (List.concat (cells (pivot rows))) = total_ca rows
    /\ List.length (cells (pivot rows)) = 7.
Proof.
  intros rows. rewrite pivot_cells. split; [ | reflexivity ].
  rewrite series_sum_concat, map_map.
  rewrite (map_ext _ _ (pivot_line_sum rows)).
  rewrite total_ca_vsum. apply group_totals_sum.
  - repeat constructor; simpl; intuition discriminate.
  - intros r _. destruct (jour_semaine r); simpl; tauto.
Qed.
End HeatMap.

(** ** The month series *)

Lemma digit_compare (a b : Z) :
  (0 <= a <= 9)%Z -> (0 <= b <= 9)%Z ->
  Ascii.compare (digit a) (digit b) = (a ?= b)%Z.
Proof.
  intros Ha Hb.
  assert (Ea : (a = 0 \/ a = 1 \/ a = 2 \/ a = 3 \/ a = 4 \/ a = 5 \/ a = 6
                \/ a = 7 \/ a = 8 \/ a = 9)%Z) by lia.
  assert (Eb : (b = 0 \/ b = 1 \/ b = 2 \/ b = 3 \/ b = 4 \/ b = 5 \/ b = 6
                \/ b = 7 \/ b = 8 \/ b = 9)%Z) by lia.
  repeat (destruct Ea as [-> | Ea]); try subst a;
    repeat (destruct Eb as [-> | Eb]); try subst b; reflexivity.
Qed.

(** Buckets compare as strings the way their months compare in time. *)
Lemma mois_bucket_compare (y1 m1 y2 m2 : Z) :
  (0 <= y1 <= 9999)%Z -> (1 <= m1 <= 12)%Z ->
  (0 <= y2 <= 9999)%Z -> (1 <= m2 <= 12)%Z ->
  String.compare (mois_bucket y1 m1) (mois_bucket y2 m2)
  = match (y1 ?= y2)%Z with Eq => (m1 ?= m2)%Z | c => c end.
Proof.
  intros Hy1 Hm1 Hy2 Hm2. unfold mois_bucket. cbn [String.compare].
  rewrite !digit_compare by (Z.div_mod_to_equations; lia).
  change (Ascii.compare "-" "-") with Eq.
  repeat match goal with
         | |- context [(?a ?= ?b)%Z] => destruct (Z.compare_spec a b)
         end;
    try reflexivity; exfalso; Z.div_mod_to_equations; lia.
Qed.

Lemma mois_bucket_ltb (y1 m1 y2 m2 : Z) :
  (0 <= y1 <= 9999)%Z -> (1 <= m1 <= 12)%Z ->
  (0 <= y2 <= 9999)%Z -> (1 <= m2 <= 12)%Z ->
  (key_ltb (mois_bucket y1 m1) (mois_bucket y2 m2) = true
   <-> month_before (y1, m1) (y2, m2))
  /\ (mois_bucket y1 m1 = mois_bucket y2 m2 <-> y1 = y2 /\ m1 = m2).
Proof.
  intros Hy1 Hm1 Hy2 Hm2.
  pose proof (mois_bucket_compare Hy1 Hm1 Hy2 Hm2) as C.
  unfold month_before; simpl fst; simpl snd. split.
  - simpl key_ltb. unfold String.ltb. rewrite C.
    destruct (Z.compare_spec y1 y2); [ destruct (Z.compare_spec m1 m2) | | ];
      split; try discriminate; try lia; reflexivity.
  - rewrite <- String_as_OT.cmp_eq. unfold String_as_OT.cmp. rewrite C.
    destruct (Z.compare_spec y1 y2); [ destruct (Z.compare_spec m1 m2) | | ];
      split; try discriminate; try lia; reflexivity.
Qed.

(** X16.  The month bucket of the loader, the year on four digits, a dash
    and the month on two digits, orders as a string the way the months
    order in time, and two months have the same bucket only when they are
    the same month. *)
Theorem mois_bucket_chronological :
  forall y1 m1 y2 m2 : Z,
    (0 <= y1 <= 9999)%Z -> (1 <= m1 <= 12)%Z ->
    (0 <= y2 <= 9999)%Z -> (1 <= m2 <= 12)%Z ->
    (key_ltb (mois_bucket y1 m1) (mois_bucket y2 m2) = true
     <-> month_before (y1, m1) (y2, m2))
    /\ (mois_bucket y1 m1 = mois_bucket y2 m2 <-> y1 = y2 /\ m1 = m2).
Proof.
  intros y1 m1 y2 m2 Hy1 Hm1 Hy2 Hm2.
  apply mois_bucket_ltb; assumption.
Qed.

Lemma groupby_sum_sorted {V : Type} {N : Number V} {K : Type} {KK : Key K}
    {KL : KeyLaws K} (key : Row V -> K) (rows : list (Row V)) :
  StronglySorted (fun a b : K * V => key_lt (fst a) (fst b))
                 (groupby_sum key rows).
Proof.
  unfold groupby_sum.
  assert (S := unique_sorted_sorted (map key rows)).
  induction S as [ | k ks _ IH Hk ]; simpl; constructor; [ exact IH | ].
  rewrite Forall_forall in *. intros y Hy.
  apply in_map_iff in Hy. destruct Hy as [k' [<- Hk']]. simpl.
  apply Hk, Hk'.
Qed.

Lemma StronglySorted_impl {A : Type} (R R' : A -> A -> Prop) (l : list A) :
  StronglySorted R l -> (forall a b, R a b -> R' a b) -> StronglySorted R' l.
Proof.
  intros S H. induction S as [ | a l _ IH Ha ]; constructor; [ exact IH | ].
  rewrite Forall_forall in *. intros b Hb. apply H, Ha, Hb.
Qed.

(** X17.  The month series lists exactly the months that occur in the
    subset, each once with the revenue of its rows, and in chronological
    order: an entry stands before another exactly as its month comes
    earlier (for buckets as the loader writes them). *)
Theorem ca_mois_chronological :
  forall (V : Type) (N : Number V) (rows : list (Row V)),
    (forall m, In m (map fst (ca_mois rows)) <-> In m (map (@mois V) rows))
    /\ NoDup (map fst (ca_mois rows))
    /\ (forall m v, In (m, v) (ca_mois rows)
                    -> v = group_total (@mois V) rows m)
    /\ StronglySorted
         (fun a b =>
            forall y1 m1 y2 m2 : Z,
              (0 <= y1 <= 9999)%Z -> (1 <= m1 <= 12)%Z ->
              (0 <= y2 <= 9999)%Z -> (1 <= m2 <= 12)%Z ->
              fst a = mois_bucket y1 m1 -> fst b = mois_bucket y2 m2 ->
              month_before (y1, m1) (y2, m2))
         (ca_mois rows).
Proof.
  intros V N rows.
  assert (Hkeys : map fst (ca_mois rows) = unique_sorted (map (@mois V) rows)).
  { unfold ca_mois, groupby_sum. rewrite map_map. simpl. apply map_id. }
  split; [ | split; [ | split ] ].
  - intros m. rewrite Hkeys. apply unique_sorted_In.
  - rewrite Hkeys. apply unique_sorted_NoDup.
  - intros m v Hin. unfold ca_mois, groupby_sum in Hin.
    apply in_map_iff in Hin. destruct Hin as [k [Hk _]].
    inversion Hk; subst. reflexivity.
  - eapply StronglySorted_impl;
      [ exact (groupby_sum_sorted (@mois V) rows) | ].
    intros a b Hab y1 m1 y2 m2 Hy1 Hm1 Hy2 Hm2 Ea Eb.
    apply (mois_bucket_ltb Hy1 Hm1 Hy2 Hm2).
    rewrite <- Ea, <- Eb. exact Hab.
Qed.

(** ** Rounding of the displayed figures *)




(** ** Non-negative sales *)

Lemma subseq_map {A B : Type} (f : A -> B) (l1 l2 : list A) :
  subseq l1 l2 -> subseq (map f l1) (map f l2).
Proof. induction 1; simpl; constructor; assumption. Qed.

Lemma vsum_Q_cons (x : Q) (l : list Q) : vsum (x :: l) = (x + vsum l)%Q.
Proof. apply (@vsum_cons Q Q_Number Q_ExactNumber). Qed.

Lemma vsum_Q_subseq (l1 l2 : list Q) :
  subseq l1 l2 -> Forall (fun x => (0 <= x)%Q) l2 ->
  (0 <= vsum l1)%Q /\ (vsum l1 <= vsum l2)%Q.
Proof.
  induction 1 as [ | x l1 l2 _ IH | x l1 l2 _ IH ]; intros F.
  - split; apply Qle_refl.
  - inversion F as [ | ? ? Hx F' ]; subst. destruct (IH F') as [H0 H1].
    split; [ exact H0 | ]. rewrite vsum_Q_cons.
    revert H0 H1 Hx. generalize (vsum l1), (vsum l2). intros a b. lra.
  - inversion F as [ | ? ? Hx F' ]; subst. destruct (IH F') as [H0 H1].
    rewrite !vsum_Q_cons.
    revert H0 H1 Hx. generalize (vsum l1), (vsum l2). intros a b. split; lra.
Qed.

Lemma fold_left_Zadd (l : list Z) (a : Z) :
  fold_left Z.add l a = (a + fold_left Z.add l 0)%Z.
Proof.
  revert a. induction l as [ | x l IH ]; simpl; intros a; [ lia | ].
  rewrite (IH (a + x)%Z), (IH x). lia.
Qed.

Lemma Zsum_subseq (l1 l2 : list Z) :
  subseq l1 l2 -> Forall (fun x => (0 <= x)%Z) l2 ->
  (0 <= fold_left Z.add l1 0 <= fold_left Z.add l2 0)%Z.
Proof.
  induction 1 as [ | x l1 l2 _ IH | x l1 l2 _ IH ]; intros F; simpl.
  - lia.
  - inversion F; subst. rewrite (fold_left_Zadd l2 x).
    specialize (IH ltac:(assumption)). lia.
  - inversion F; subst. rewrite (fold_left_Zadd l1 x), (fold_left_Zadd l2 x).
    specialize (IH ltac:(assumption)). lia.
Qed.

(** A value in the range of [int64] is not changed by the wrap-around. *)
Lemma wrap_int64_small (z : Z) :
  (- 2 ^ 63 <= z < 2 ^ 63)%Z -> wrap_int64 z = z.
Proof.
  unfold wrap_int64. change (2 ^ 64)%Z with (2 * 2 ^ 63)%Z.
  assert (Hp : (0 < 2 ^ 63)%Z) by reflexivity.
  revert Hp. generalize (2 ^ 63)%Z. intros p Hp H.
  rewrite Z.mod_small; lia.
Qed.

(** The [int64] sum of non-negative quantities that add up to less than
    [2^63] is their sum. *)
Lemma fold_left_add_int64 (l : list Z) (a : Z) :
  (0 <= a)%Z -> Forall (fun x => (0 <= x)%Z) l ->
  (a + fold_left Z.add l 0 < 2 ^ 63)%Z ->
  fold_left add_int64 l a = (a + fold_left Z.add l 0)%Z.
Proof.
  revert a. induction l as [ | x l IH ]; intros a Ha F Hlt; simpl.
  - lia.
  - inversion F as [ | ? ? Hx F' ]; subst.
    simpl in Hlt. rewrite (fold_left_Zadd l x) in Hlt.
    assert (Hl : (0 <= fold_left Z.add l 0)%Z)
      by (apply (@Zsum_subseq l l); [ apply subseq_refl | exact F' ]).
    unfold add_int64 at 2. rewrite wrap_int64_small by lia.
    rewrite IH; [ | lia | exact F' | lia ].
    rewrite (fold_left_Zadd l x). lia.
Qed.

Lemma CA_nonneg (r : Row Q) :
  (0 <= transaction_qty r)%Z -> (0 <= unit_price r)%Q -> (0 <= CA r)%Q.
Proof.
  intros Hq Hp. unfold CA; simpl. apply Qmult_le_0_compat; [ | exact Hp ].
  rewrite <- (Zle_Qle 0). exact Hq.
Qed.

(** X19.  When no quantity and no price of the data set is negative and
    the quantities of the data set add up to less than 2^63, so that the
    [int64] total does not wrap around, the quantity of a filtered subset
    lies between 0 and that of the whole data set; in exact arithmetic the
    revenue of the subset lies between 0 and that of the data set, and
    every month's revenue between 0 and the subset's revenue. *)
Theorem filtered_totals_bounded :
  forall (df : list (Row Q)) (stores months : list string),
    Forall (fun r => (0 <= transaction_qty r)%Z /\ (0 <= unit_price r)%Q) df ->
    (fold_left Z.add (map (@transaction_qty Q) df) 0 < 2 ^ 63)%Z ->
    let rows := df_filtered df stores months in
    ((0 <= total_ca rows)%Q /\ (total_ca rows <= total_ca df)%Q)
    /\ (0 <= total_qty rows <= total_qty df)%Z
    /\ (forall m v, In (m, v) (ca_mois rows) ->
          (0 <= v)%Q /\ (v <= total_ca rows)%Q).
Proof.
  intros df stores months Hdf Hfit rows.
  assert (Hsub : subseq rows df).
  { unfold rows. rewrite df_filtered_filter. apply subseq_filter. }
  assert (Hca : Forall (fun x => (0 <= x)%Q) (map CA df)).
  { rewrite Forall_forall in *. intros x Hx.
    apply in_map_iff in Hx. destruct Hx as [r [<- Hr]].
    destruct (Hdf r Hr). apply CA_nonneg; assumption. }
  assert (Hcar : Forall (fun x => (0 <= x)%Q) (map CA rows)).
  { apply (subseq_Forall (subseq_map CA Hsub) Hca). }
  assert (Hq : Forall (fun x => (0 <= x)%Z) (map (@transaction_qty Q) df)).
  { rewrite Forall_forall in *. intros x Hx.
    apply in_map_iff in Hx. destruct Hx as [r [<- Hr]].
    destruct (Hdf r Hr). assumption. }
  assert (Hqsub : subseq (map (@transaction_qty Q) rows)
                         (map (@transaction_qty Q) df))
    by (apply subseq_map, Hsub).
  pose proof (Zsum_subseq Hqsub Hq) as Hsum.
  rewrite !total_ca_vsum.
  split; [ | split ].
  - apply vsum_Q_subseq; [ apply subseq_map, Hsub | exact Hca ].
  - unfold total_qty.
    rewrite (@fold_left_add_int64 (map (@transaction_qty Q) rows) 0);
      [ | lia | exact (subseq_Forall Hqsub Hq) | lia ].
    rewrite (@fold_left_add_int64 (map (@transaction_qty Q) df) 0);
      [ | lia | exact Hq | lia ].
    lia.
  - intros m v Hin. unfold ca_mois, groupby_sum in Hin.
    apply in_map_iff in Hin. destruct Hin as [k [Hk _]].
    inversion Hk; subst. unfold group_total.
    apply vsum_Q_subseq; [ apply subseq_map, subseq_filter | exact Hcar ].
Qed.

(** ** The table of itemsets has no repetition *)

Lemma NoDup_map_inj_In {A B : Type} (f : A -> B) (l : list A) :
  NoDup l -> (forall x y, In x l -> In y l -> f x = f y -> x = y) ->
  NoDup (map f l).
Proof.
  induction 1 as [ | a l Ha ND IH ]; simpl; intros Hinj; constructor.
  - intros Hin. apply in_map_iff in Hin. destruct Hin as [b [Hb Hin]].
    assert (b = a) by (apply Hinj; auto).
    subst. contradiction.
  - apply IH. intros x y Hx Hy. apply Hinj; right; assumption.
Qed.

Lemma NoDup_flat_map {A B : Type} (f : A -> list B) (l : list A) :
  NoDup l -> (forall x, In x l -> NoDup (f x)) ->
  (forall x y z, In x l -> In y l -> In z (f x) -> In z (f y) -> x = y) ->
  NoDup (flat_map f l).
Proof.
  induction 1 as [ | a l Ha ND IH ]; simpl; intros Hf Hdis; [ constructor | ].
  apply NoDup_app.
  - apply Hf. left. reflexivity.
  - apply IH.
    + intros x Hx. apply Hf. right. exact Hx.
    + intros x y z Hx Hy. apply Hdis; right; assumption.
  - intros z Hz Hz'. apply in_flat_map in Hz'. destruct Hz' as [y [Hy Hzy]].
    assert (a = y) by (apply (Hdis a y z); auto).
    subst. contradiction.
Qed.

Lemma generate_new_combinations_NoDup (cur : list combo) :
  NoDup cur -> NoDup (generate_new_combinations cur).
Proof.
  intros ND. unfold generate_new_combinations. apply NoDup_flat_map.
  - exact ND.
  - intros old _. apply NoDup_map_inj_In.
    + apply NoDup_filter, unique_sorted_NoDup.
    + intros i j _ _ H. apply app_inj_tail in H. apply H.
  - intros old old' z _ _ Hz Hz'.
    apply in_map_iff in Hz. destruct Hz as [i [<- _]].
    apply in_map_iff in Hz'. destruct Hz' as [j [H _]].
    apply app_inj_tail in H. symmetry. apply H.
Qed.

Lemma generate_new_combinations_length (k : nat) (cur : list combo) :
  Forall (fun c => List.length c = k) cur ->
  Forall (fun c => List.length c = S k) (generate_new_combinations cur).
Proof.
  intros F. rewrite Forall_forall in *. intros c Hc.
  apply generate_new_combinations_In in Hc.
  destruct Hc as [old [item [-> [Ho _]]]].
  rewrite length_app, (F old Ho). simpl. lia.
Qed.

(** The loop keeps its table free of repetition and ordered by size. *)
Lemma apriori_loop_NoDup (X : list (list bool)) (min_support : Q)
    (fuel k : nat) (cur found : list combo) :
  NoDup cur -> Forall (fun c => List.length c = k) cur ->
  NoDup found -> Forall (fun c => List.length c <= k) found ->
  StronglySorted (fun a b => List.length a <= List.length b) found ->
  NoDup (apriori_loop fuel X min_support cur found)
  /\ StronglySorted (fun a b => List.length a <= List.length b)
                    (apriori_loop fuel X min_support cur found).
Proof.
  revert k cur found.
  induction fuel as [ | fuel IH ]; intros k cur found Hc Hk Hf Hfk Hs.
  - simpl. split; assumption.
  - rewrite apriori_loop_step.
    assert (Hn : NoDup (next_level X min_support cur))
      by (apply NoDup_filter, generate_new_combinations_NoDup, Hc).
    assert (Hnk : Forall (fun c => List.length c = S k)
                         (next_level X min_support cur)).
    { apply (subseq_Forall (subseq_filter _ _)).
      apply generate_new_combinations_length, Hk. }
    destruct (next_level X min_support cur) as [ | c0 kept ];
      [ split; assumption | ].
    rewrite Forall_forall in Hfk, Hnk.
    apply (IH (S k)).
    + exact Hn.
    + apply Forall_forall, Hnk.
    + apply NoDup_app; [ exact Hf | exact Hn | ].
      intros c H1 H2. specialize (Hfk c H1). specialize (Hnk c H2). lia.
    + apply Forall_forall. intros c Hin. apply in_app_or in Hin.
      destruct Hin as [H | H]; [ specialize (Hfk c H) | specialize (Hnk c H) ];
        lia.
    + clear IH Hf Hn Hc Hk.
      induction Hs as [ | a found Hs IHs Ha ]; simpl.
      * generalize dependent (c0 :: kept). intros l Hl.
        induction l as [ | x l IHl ]; constructor.
        -- apply IHl. intros y Hy. apply Hl. right. exact Hy.
        -- apply Forall_forall. intros y Hy.
           rewrite (Hl x (or_introl eq_refl)), (Hl y (or_intror Hy)). lia.
      * constructor.
        -- apply IHs. intros y Hy. apply Hfk. right. exact Hy.
        -- apply Forall_forall. intros y Hy. apply in_app_or in Hy.
           destruct Hy as [Hy | Hy].
           ++ rewrite Forall_forall in Ha. apply Ha, Hy.
           ++ rewrite (Hnk y Hy). specialize (Hfk a (or_introl eq_refl)). lia.
Qed.

Lemma frequent_combos_NoDup (b : Basket) (min_support : Q) :
  NoDup (frequent_combos b min_support)
  /\ StronglySorted (fun a c => List.length a <= List.length c)
                    (frequent_combos b min_support).
Proof.
  unfold frequent_combos.
  set (level1 := map (fun j => [j])
                     (filter (fun j => is_frequent (te_ary b) min_support [j])
                             (seq 0 (List.length (te_columns b))))).
  assert (ND : NoDup level1).
  { apply NoDup_map_inj_In; [ apply NoDup_filter, seq_NoDup | ].
    intros x y _ _ H. inversion H. reflexivity. }
  assert (L1 : Forall (fun c => List.length c = 1) level1).
  { apply Forall_forall. intros c Hc. apply in_map_iff in Hc.
    destruct Hc as [j [<- _]]. reflexivity. }
  apply (@apriori_loop_NoDup (te_ary b) min_support _ 1); auto.
  - apply Forall_forall. intros c Hc. rewrite Forall_forall in L1.
    rewrite (L1 c Hc). lia.
  - clear ND. induction level1 as [ | x l IHl ]; constructor.
    + apply IHl. inversion L1; assumption.
    + inversion L1 as [ | ? ? Hx Hl ]; subst.
      rewrite Forall_forall in *. intros y Hy. rewrite Hx, (Hl y Hy). lia.
Qed.

Lemma colnames_inj (cols : list string) (c1 c2 : combo) :
  NoDup cols ->
  Forall (fun j => j < List.length cols) c1 ->
  Forall (fun j => j < List.length cols) c2 ->
  colnames cols c1 = colnames cols c2 -> c1 = c2.
Proof.
  intros ND. revert c2.
  induction c1 as [ | a c1 IH ]; intros [ | b c2 ] F1 F2; simpl;
    try discriminate; [ reflexivity | ].
  intros H. inversion H as [[Hab Hrest]].
  inversion F1; subst. inversion F2; subst. f_equal.
  - apply (proj1 (NoDup_nth cols EmptyString) ND); assumption.
  - apply IH; assumption.
Qed.

(** X20.  The table of frequent itemsets lists no itemset twice and lists
    the itemsets by increasing size. *)
Theorem apriori_no_repetition :
  forall (txs : list (list string)) (min_support : Q)
         (frequent : list (Q * itemset)),
    apriori (basket txs) min_support = Ok frequent ->
    NoDup (map snd frequent)
    /\ StronglySorted
         (fun a b => List.length (snd a) <= List.length (snd b)) frequent.
Proof.
  intros txs min_support frequent Hap. unfold apriori in Hap.
  destruct (Qle_bool min_support 0); [ discriminate | ].
  inversion Hap; subst; clear Hap.
  destruct (frequent_combos_NoDup (basket txs) min_support) as [ND Hs].
  assert (Hv : forall c, In c (frequent_combos (basket txs) min_support) ->
                 Forall (fun j => j < List.length (te_columns (basket txs))) c).
  { intros c Hc. apply frequent_combos_spec in Hc. apply Hc. }
  split.
  - rewrite map_map. simpl. apply NoDup_map_inj_In; [ exact ND | ].
    intros c1 c2 H1 H2.
    apply colnames_inj; [ apply basket_columns_NoDup | auto | auto ].
  - clear ND Hv.
    induction Hs as [ | a l Hs IH Ha ]; simpl; constructor; [ exact IH | ].
    rewrite Forall_forall in *. intros y Hy.
    apply in_map_iff in Hy. destruct Hy as [c [<- Hc]]. simpl.
    unfold colnames. rewrite !length_map. apply Ha, Hc.
Qed.

(** ** The figures of a rule in binary64 *)

(** The binary64 support of an itemset is the rounded quotient of the
    number of transactions that hold it by the number of transactions. *)
Lemma support_binary64_tx_support (txs : list (list string)) (s : itemset) :
  txs <> [] ->
  support_binary64 (tx_support txs s)
  = PrimFloat.div
      (float_of_Z
         (Z.of_nat (List.length (filter (fun t => contains t s) txs))))
      (float_of_Z (Z.of_nat (List.length txs))).
Proof.
  intros Hne. unfold support_binary64, tx_support.
  destruct txs as [ | t txs ]; [ contradiction | ].
  generalize (Z.of_nat (List.length (filter (fun t0 => contains t0 s)
                                            (t :: txs)))).
  intros c. cbn [List.length].
  change (Z.of_nat (S (List.length txs)))
    with (Zpos (Pos.of_succ_nat (List.length txs))).
  unfold Qdiv, Qinv, Qmult, inject_Z. cbn [Qnum Qden Pos.mul].
  rewrite Z.mul_1_r. reflexivity.
Qed.

(** X23.  The figures of every rule that the program lists are computed in
    binary64 from basket counts: the support is the count of the
    transactions holding antecedent and consequent divided by the number
    of transactions, the confidence is that support divided by the support
    of the antecedent, the lift is the confidence divided by the support
    of the consequent, and the lift is at least the binary64 value of
    1.2. *)
Theorem association_rules_binary64 :
  forall (iter_order : itemset -> itemset) (txs : list (list string))
         (min_support : Q) (frequent : list (Q * itemset))
         (rules : list (Rule float)) (r : Rule float),
    apriori (basket txs) min_support = Ok frequent ->
    association_rules iter_order frequent = Ok rules ->
    In r rules ->
    let n := float_of_Z (Z.of_nat (List.length txs)) in
    let count := fun s : itemset =>
      float_of_Z
        (Z.of_nat (List.length (filter (fun t => contains t s) txs))) in
    rule_support r
    = PrimFloat.div (count (antecedents r ++ consequents r)) n
    /\ confidence r
       = PrimFloat.div (rule_support r)
                       (PrimFloat.div (count (antecedents r)) n)
    /\ lift r
       = PrimFloat.div (confidence r)
                       (PrimFloat.div (count (consequents r)) n)
    /\ PrimFloat.leb 0x1.3333333333333p+0 (lift r) = true.
Proof.
  intros iter_order txs min_support frequent rules r Hap Hrules Hr n count.
  destruct (@association_rules_In float binary64_Figure iter_order frequent
              rules r Hrules Hr)
    as [sAC [k [c [sA [sC [Hk [Ea [Ec [Ha [Hc [Es [Econf [El Hl]]]]]]]]]]]]].
  destruct (@apriori_entries (basket txs) min_support frequent Hap)
    as [Hmin _].
  destruct (@apriori_entry_meaning txs min_support frequent _ _ Hap Hk)
    as [EsAC [HminAC _]].
  destruct (@apriori_entry_meaning txs min_support frequent _ _ Hap Ha)
    as [EsA _].
  destruct (@apriori_entry_meaning txs min_support frequent _ _ Hap Hc)
    as [EsC _].
  assert (Hne : txs <> []).
  { assert (Hpos : (0 < tx_support txs k)%Q)
      by (rewrite <- EsAC; eapply Qlt_le_trans; eassumption).
    apply tx_support_pos in Hpos. destruct Hpos as [t [Ht _]].
    intros E. rewrite E in Ht. contradiction. }
  assert (Ek : tx_support txs k
               = tx_support txs (antecedents r ++ consequents r)).
  { apply tx_support_ext. intros x. rewrite in_app_iff, Ea, Ec, !filter_In.
    destruct (mem x c); simpl; intuition. }
  assert (E1 : rule_support r
               = PrimFloat.div (count (antecedents r ++ consequents r)) n).
  { rewrite Es, EsAC, Ek.
    exact (@support_binary64_tx_support txs _ Hne). }
  split; [ exact E1 | split; [ | split ] ].
  - rewrite Econf, Es. cbn [fdiv of_support binary64_Figure].
    rewrite EsA, (@support_binary64_tx_support txs (antecedents r) Hne).
    reflexivity.
  - rewrite El, Econf. cbn [fdiv of_support binary64_Figure].
    rewrite EsC, (@support_binary64_tx_support txs (consequents r) Hne).
    reflexivity.
  - exact Hl.
Qed.

(** ** When no rule is found *)

Lemma transactions_single_product {V : Type} (rows : list (Row V)) :
  (forall r1 r2, In r1 rows -> In r2 rows ->
                 transaction_id r1 = transaction_id r2 ->
                 product_detail r1 = product_detail r2) ->
  forall t a b, In t (transactions rows) -> In a t -> In b t -> a = b.
Proof.
  intros H t a b Ht Ha Hb. unfold transactions in Ht.
  apply in_map_iff in Ht. destruct Ht as [id [<- _]].
  apply in_map_iff in Ha. destruct Ha as [r1 [<- H1]].
  apply in_map_iff in Hb. destruct Hb as [r2 [<- H2]].
  apply filter_In in H1. destruct H1 as [I1 E1].
  apply filter_In in H2. destruct H2 as [I2 E2].
  apply (key_eqb_spec (K := Z)) in E1. apply (key_eqb_spec (K := Z)) in E2.
  apply H; [ exact I1 | exact I2 | congruence ].
Qed.

(** X22.  When no transaction of the filtered subset holds two different
    products and the callback returns, no rule is found: the rule table is
    empty and the page shows the text of the [else] branch. *)
Theorem single_product_transactions_no_rule :
  forall (iter_order : itemset -> itemset) (df : list (Row Q))
         (store_selection mois_selection : list string) (out : Outputs),
    (forall r1 r2,
        In r1 (df_filtered df store_selection mois_selection) ->
        In r2 (df_filtered df store_selection mois_selection) ->
        transaction_id r1 = transaction_id r2 ->
        product_detail r1 = product_detail r2) ->
    update_dashboard iter_order df store_selection mois_selection = Ok out ->
    panier out = [].
Proof.
  intros iter_order df stores months out Hsingle H.
  unfold update_dashboard in H.
  set (rows := df_filtered df stores months) in *.
  destruct (ticket_moyen rows) as [ticket | ]; cbn [bind] in H;
    [ | discriminate ].
  destruct (apriori (basket (transactions rows)) (2 # 100))
    as [frequent | ] eqn:Hap; cbn [bind] in H; [ | discriminate ].
  destruct (association_rules iter_order frequent) as [rules | ] eqn:Hrules;
    cbn [bind] in H; [ | discriminate ].
  inversion H; subst; simpl.
  destruct rules as [ | r rules ]; [ reflexivity | exfalso ].
  destruct (@association_rules_In float binary64_Figure iter_order frequent
              (r :: rules) r Hrules (or_introl eq_refl))
    as [sAC [k [c [sA [sC [Hk [Ea [Ec [Ha [Hc _]]]]]]]]]].
  destruct (@apriori_entry_meaning _ _ _ _ _ Hap Hk) as [EsAC [Hmin _]].
  destruct (@apriori_entry_meaning _ _ _ _ _ Hap Ha) as [_ [_ [_ [Hna _]]]].
  destruct (@apriori_entry_meaning _ _ _ _ _ Hap Hc) as [_ [_ [_ [Hnc _]]]].
  assert (Hpos : (0 < tx_support (transactions rows) k)%Q).
  { rewrite <- EsAC. eapply Qlt_le_trans; [ | exact Hmin ]. reflexivity. }
  apply tx_support_pos in Hpos. destruct Hpos as [t [Ht Hkt]].
  destruct (antecedents r) as [ | a la ] eqn:EA; [ congruence | ].
  destruct (consequents r) as [ | b lb ] eqn:EC; [ congruence | ].
  assert (Ia : In a (filter (fun x => mem x c) k))
    by (rewrite <- Ea; left; reflexivity).
  assert (Ib : In b (filter (fun x => negb (mem x c)) k))
    by (rewrite <- Ec; left; reflexivity).
  apply filter_In in Ia. destruct Ia as [Ia Ma].
  apply filter_In in Ib. destruct Ib as [Ib Mb].
  assert (a = b).
  { apply (@transactions_single_product Q rows Hsingle t);
      [ exact Ht | apply Hkt, Ia | apply Hkt, Ib ]. }
  subst b. rewrite Ma in Mb. discriminate.
Qed.

(* ================================================================== *)
(** * The further properties on the worked data sets *)

#[local] Open Scope string_scope.

Lemma df_filtered_monotone_witness :
  subseq (df_filtered df_baskets ["Astoria"] ["2023-01"])
         (df_filtered df_baskets ["Astoria"; "Chelsea"] ["2023-01"; "2023-02"]).
Proof.
  apply (@df_filtered_monotone Q df_baskets
           ["Astoria"] ["Astoria"; "Chelsea"] ["2023-01"] ["2023-01"; "2023-02"]).
  - intros x H. simpl in *. tauto.
  - intros x H. simpl in *. tauto.
Defined.

Lemma ticket_moyen_times_count_witness :
  exists ticket,
    ticket_moyen df_baskets = Ok ticket
    /\ (ticket * inject_Z (nb_transac df_baskets) == total_ca df_baskets)%Q.
Proof.
  eexists. split.
  - vm_compute. reflexivity.
  - apply (@ticket_moyen_times_count df_baskets).
    + discriminate.
    + vm_compute. reflexivity.
Defined.

Lemma apriori_support_meaning_witness :
  (3 # 5)%Q = tx_support example_baskets ["A"; "B"]
  /\ (4 # 10 <= 3 # 5)%Q /\ (3 # 5 <= 1)%Q
  /\ ["A"; "B"] <> [] /\ NoDup ["A"; "B"].
Proof.
  eapply (@apriori_support_meaning example_baskets (4 # 10)%Q).
  - vm_compute. reflexivity.
  - vm_compute. tauto.
Defined.

Lemma apriori_complete_witness :
  exists frequent,
    apriori (basket example_baskets) (4 # 10) = Ok frequent
    /\ exists u, In (tx_support example_baskets ["B"; "A"], u) frequent
                 /\ Permutation u ["B"; "A"].
Proof.
  eexists. split.
  - vm_compute. reflexivity.
  - apply (@apriori_complete example_baskets (4 # 10)%Q _ ["B"; "A"]).
    + vm_compute. reflexivity.
    + discriminate.
    + repeat constructor; simpl; intuition discriminate.
    + vm_compute. discriminate.
Defined.

Lemma update_dashboard_returns_when_frequent_witness :
  ((exists out,
       update_dashboard (fun k => k) df_baskets ["Astoria"] ["2023-01"]
       = Ok out)
   <-> exists p,
         (2 # 100 <= tx_support
                       (transactions
                          (df_filtered df_baskets ["Astoria"] ["2023-01"]))
                       [p])%Q)
  /\ ((forall p,
         ~ (2 # 100 <= tx_support
                         (transactions
                            (df_filtered df_baskets ["Astoria"] ["2023-01"]))
                         [p])%Q) ->
      update_dashboard (fun k => k) df_baskets ["Astoria"] ["2023-01"]
      = Raise (ValueError
          "The input DataFrame `df` containing the frequent itemsets is empty.")).
Proof.
  exact (@update_dashboard_returns_when_frequent (fun k => k) df_baskets
           ["Astoria"] ["2023-01"] (fun l => Permutation_refl l)).
Defined.

Lemma update_dashboard_small_subset_witness :
  exists out,
    update_dashboard (fun k => k) df_baskets ["Astoria"] ["2023-01"] = Ok out.
Proof.
  apply (@update_dashboard_small_subset (fun k => k) df_baskets
           ["Astoria"] ["2023-01"]).
  - intros l. apply Permutation_refl.
  - vm_compute. discriminate.
  - vm_compute. discriminate.
Defined.

Lemma association_rules_structure_witness :
  exists frequent (rules : list (Rule float)) r,
    apriori (basket (transactions df_baskets)) (2 # 100) = Ok frequent
    /\ association_rules (fun k => k) frequent = Ok rules
    /\ In r rules
    /\ antecedents r <> [] /\ consequents r <> []
    /\ (forall x, In x (antecedents r) -> ~ In x (consequents r))
    /\ (exists sAC k, In (sAC, k) frequent
                      /\ rule_support r = of_support sAC
                      /\ forall x, In x k
                                   <-> In x (antecedents r)
                                       \/ In x (consequents r))
    /\ rule_support r
       = of_support (tx_support (transactions df_baskets)
                                (antecedents r ++ consequents r)%list).
Proof.
  eexists. eexists. eexists.
  split; [ vm_compute; reflexivity | ].
  split; [ vm_compute; reflexivity | ].
  split; [ vm_compute; left; reflexivity | ].
  eapply (@association_rules_structure float binary64_Figure (fun k => k)
            (transactions df_baskets) (2 # 100)%Q).
  - vm_compute. reflexivity.
  - vm_compute. reflexivity.
  - vm_compute. left. reflexivity.
Defined.

Lemma association_rules_confidence_witness :
  exists frequent (rules : list (Rule Q)) r,
    apriori (basket (transactions df_baskets)) (2 # 100) = Ok frequent
    /\ association_rules (fun k => k) frequent = Ok rules
    /\ In r rules
    /\ confidence r
       = (rule_support r
          / tx_support (transactions df_baskets) (antecedents r))%Q
    /\ (0 < confidence r)%Q /\ (confidence r <= 1)%Q
    /\ lift r
       = (confidence r
          / tx_support (transactions df_baskets) (consequents r))%Q
    /\ (12 # 10 <= lift r)%Q.
Proof.
  eexists. eexists. eexists.
  split; [ vm_compute; reflexivity | ].
  split; [ vm_compute; reflexivity | ].
  split; [ vm_compute; left; reflexivity | ].
  eapply (@association_rules_confidence (fun k => k) (transactions df_baskets)
            (2 # 100)%Q).
  - vm_compute. reflexivity.
  - vm_compute. reflexivity.
  - vm_compute. left. reflexivity.
Defined.

Lemma heatmap_row_sums_to_weekday_witness :
  exists line,
    loc_row (pivot df_two_sales) Monday = Some line
    /\ List.length line = List.length (columns (pivot df_two_sales))
    /\ lookup Monday (ca_jour df_two_sales) = Some (Some (series_sum line)).
Proof.
  apply (@heatmap_row_sums_to_weekday Q Q_Number Q_ExactNumber
           df_two_sales Monday).
  simpl. left. reflexivity.
Defined.

Lemma heatmap_sums_to_total_witness :
  series_sum (List.concat (cells (pivot df_two_sales))) = total_ca df_two_sales
  /\ List.length (cells (pivot df_two_sales)) = 7.
Proof.
  exact (@heatmap_sums_to_total Q Q_Number Q_ExactNumber df_two_sales).
Defined.

Lemma mois_bucket_chronological_witness :
  (key_ltb (mois_bucket 2023 4) (mois_bucket 2023 11) = true
   <-> month_before (2023, 4)%Z (2023, 11)%Z)
  /\ (mois_bucket 2023 4 = mois_bucket 2023 11
      <-> 2023%Z = 2023%Z /\ 4%Z = 11%Z).
Proof.
  apply (@mois_bucket_chronological 2023 4 2023 11); lia.
Defined.

Lemma filtered_totals_bounded_witness :
  ((0 <= total_ca (df_filtered df_baskets ["Astoria"] ["2023-01"]))%Q
   /\ (total_ca (df_filtered df_baskets ["Astoria"] ["2023-01"])
       <= total_ca df_baskets)%Q)
  /\ (0 <= total_qty (df_filtered df_baskets ["Astoria"] ["2023-01"])
      <= total_qty df_baskets)%Z
  /\ (forall m v,
        In (m, v) (ca_mois (df_filtered df_baskets ["Astoria"] ["2023-01"])) ->
        (0 <= v)%Q
        /\ (v <= total_ca (df_filtered df_baskets ["Astoria"] ["2023-01"]))%Q).
Proof.
  apply (@filtered_totals_bounded df_baskets ["Astoria"] ["2023-01"]).
  - repeat (apply Forall_cons; [ split; vm_compute; discriminate | ]).
    apply Forall_nil.
  - reflexivity.
Defined.

Lemma apriori_no_repetition_witness :
  exists frequent,
    apriori (basket example_baskets) (4 # 10) = Ok frequent
    /\ NoDup (map snd frequent)
    /\ StronglySorted
         (fun a b => List.length (snd a) <= List.length (snd b)) frequent.
Proof.
  eexists. split.
  - vm_compute. reflexivity.
  - apply (@apriori_no_repetition example_baskets (4 # 10)%Q).
    vm_compute. reflexivity.
Defined.

Lemma single_product_transactions_no_rule_witness :
  exists out,
    update_dashboard (fun k => k) df_two_sales ["Astoria"] ["2023-01"] = Ok out
    /\ panier out = [].
Proof.
  eexists. split.
  - vm_compute. reflexivity.
  - apply (@single_product_transactions_no_rule (fun k => k) df_two_sales
             ["Astoria"] ["2023-01"]).
    + intros r1 r2 H1 H2.
      vm_compute in H1. vm_compute in H2.
      destruct H1 as [<- | [<- | []]]; destruct H2 as [<- | [<- | []]];
        vm_compute; congruence.
    + vm_compute. reflexivity.
Defined.

(** The months of the worked data sets are buckets of the loader, so the
    chronological order of the month series applies to them. *)
Example mois_bucket_example :
  mois_bucket 2023 1 = "2023-01"
  /\ map fst (ca_mois df_float) = [mois_bucket 2023 1; mois_bucket 2023 2].
Proof. split; vm_compute; reflexivity. Qed.

Lemma association_rules_binary64_witness :
  exists frequent (rules : list (Rule float)) r,
    apriori (basket (transactions df_baskets)) (2 # 100) = Ok frequent
    /\ association_rules (fun k => k) frequent = Ok rules
    /\ In r rules
    /\ rule_support r
       = PrimFloat.div
           (float_of_Z
              (Z.of_nat
                 (List.length
                    (filter (fun t => contains t
                                        (antecedents r ++ consequents r)%list)
                            (transactions df_baskets)))))
           (float_of_Z (Z.of_nat (List.length (transactions df_baskets))))
    /\ confidence r
       = PrimFloat.div (rule_support r)
           (PrimFloat.div
              (float_of_Z
                 (Z.of_nat
                    (List.length
                       (filter (fun t => contains t (antecedents r))
                               (transactions df_baskets)))))
              (float_of_Z (Z.of_nat (List.length (transactions df_baskets)))))
    /\ lift r
       = PrimFloat.div (confidence r)
           (PrimFloat.div
              (float_of_Z
                 (Z.of_nat
                    (List.length
                       (filter (fun t => contains t (consequents r))
                               (transactions df_baskets)))))
              (float_of_Z (Z.of_nat (List.length (transactions df_baskets)))))
    /\ PrimFloat.leb 0x1.3333333333333p+0 (lift r) = true.
Proof.
  eexists. eexists. eexists.
  split; [ vm_compute; reflexivity | ].
  split; [ vm_compute; reflexivity | ].
  split; [ vm_compute; left; reflexivity | ].
  eapply (@association_rules_binary64 (fun k => k) (transactions df_baskets)
            (2 # 100)%Q).
  - vm_compute. reflexivity.
  - vm_compute. reflexivity.
  - vm_compute. left. reflexivity.
Defined.

#[local] Close Scope string_scope.
